(* ===== verification/_CoqProject ===== *)
-Q . S2P
Prelude.v
PyStr.v
Classifier.v
Tokenizer.v
TokenizerLoop.v
Brackets.v
Grammar.v
Validator.v
CheckSyntax.v
Errors.v
Gui.v
Display.v
Layout.v
