(* ===== verification/Prelude.v ===== *)
(** * A verification development of the Math Syntax Checker

    The program (src/app.py) checks that a string is a syntactically
    well-formed mathematical expression.  Its core is the class
    [MathSyntaxChecker] (src/app.py, lines 6-227):

    - the classifier: [is_number] (Python's [float()] acceptance),
      [is_variable], [is_function] and the fixed vocabularies held by
      [__init__] (operators, brackets, bracket pairs, function names);
    - the tokenizer [tokenize]: a [while] loop over the input index
      that emits numbers (with the contextual negative-number merge),
      identifiers and one-character operator and bracket tokens, or
      fails with a positioned lexical error;
    - the validator [check_syntax]: the empty-input and unary-minus
      guards, then one left-to-right walk over the tokens keeping the
      category of the previous token and the bracket stack
      [self.stack], stopping at the first violation.

    The rest of the file is a customtkinter GUI: [check_expression]
    builds a fresh checker for every check and writes the verdict into
    a label, [insert_example] fills the entry from a fixed catalogue of
    example expressions and checks it, and the module-level script of
    lines 258-385 builds the window (frames, labels, the entry, the
    buttons with their callbacks, their [pack] and [grid] placement)
    before [root.mainloop()] hands the events to the callbacks.

    ** Files

    - [Prelude] (this file): the notation scope [msc_scope], the type
      [str] of Python strings as lists of ASCII characters, the proof
      tactics of the development, the hint database [msc] and the
      shared lemmas on lists and slices.
    - [PyStr]: the Python builtins the code calls, modelled for ASCII
      text: [str.isspace], [isdigit], [isalpha], [isalnum], the index
      guard [i < len(s) and p(s[i])], slicing [s[a:b]], [str.strip],
      the decimal rendering of [int] in f-strings, [', '.join], and the
      string grammar accepted by [float()].
    - [Classifier]: the vocabularies of [__init__], [is_number],
      [is_variable], [is_function] and the classification chain of
      [check_syntax] (lines 155-168).
    - [Tokenizer]: [tokenize] as a fuelled loop over the index [i] with
      the accumulated token list, its inner scanning loops, the
      totality of the loop for the fuel [length s + 1], and the
      reachable states [reach] of the loop.
    - [TokenizerLoop]: the loop over its reachable states, and the
      inputs [tokenize] must reject.
    - [Brackets]: the abstract specification of properly nested
      brackets (an inductive Dyck language over bracket tokens) and
      the stack discipline of the validator, with the proof that the
      stack discipline decides the Dyck language.
    - [Grammar]: the abstract specification of the accepted token
      sequences, [accepts]: every token classified, the rules on the
      first token, an adjacency table [follows] on categories, no
      trailing operator, and nested brackets.
    - [Validator]: the checker state (the record [checker] with the
      field [stack], top of the stack first), the error values with
      their messages, the checks on the token list (lines 117-227:
      the leading-token guards, the reset [self.stack = []], the walk
      [walk] and the unmatched-opener test) as [check_token_list], and
      the refinement proof that the fail-fast walk decides [accepts].
    - [CheckSyntax]: the entry point [check_syntax] (blank test,
      [tokenize], [check_token_list], the [(valid, message)] pair) and
      the end-to-end theorems.
    - [Errors]: what each error value says about the token list
      ([explains]), the reference check of one position ([pos_check])
      and the positions messages report.
    - [Gui]: the presentation layer's [check_expression] and
      [insert_example] on the entry and label state (the entry's
      [delete] and [insert] with Tk's index rules), the button
      callbacks as data, the catalogues as lists of button
      dictionaries, the loops that create their widgets in a
      configured grid, and the event loop's dispatch as a step
      relation [gui_step].
    - [Display]: what "Check Syntax" must display by the
      specification (the grammar [accepts], not the checker's code).
    - [Layout]: the construction script [app_script] in a
      state-and-error monad of its own ([script]: Tk's widget store
      threaded through the calls, Tk's [TclError] as the error), each
      Tk call it makes ([create], [pack], [grid], the weight and
      window settings) as an operation on the store, and the store's
      invariant [wf] with its preservation by every call.

    ** The theorems

    - Refinement and safety ([CheckSyntax]): [check_syntax] answers
      valid exactly on the expressions whose tokens are in [accepts]
      (C1); the bracket characters of a valid expression are nested
      (C2); the verdict does not depend on the state left by earlier
      calls (C4); a valid call leaves the stack empty (C9); the in-loop
      test of lines 171-172 is unreachable (C10).
    - The bracket stack ([Brackets]): the push/pop-and-pair discipline
      accepts with an empty stack exactly the Dyck words (C3); after
      any prefix the stack holds exactly the openers not yet closed
      (C30, the invariant of spec.md, section 3).
    - The tokenizer ([Tokenizer]): termination with the fuel bound
      (C5); the tokens spell the input without spaces, have one of
      four shapes and at most one decimal point (C6); the two lexical
      errors locate a second decimal point (C7) or a character no rule
      accepts (C8).
    - Behaviour the modelling brought out: a sign followed by spaces
      makes an unrecognised token (C11); [inf], [infinity] and [nan]
      are numbers (C12); validator positions are token indices (C13);
      a function name as the last token is accepted exactly where a
      variable is (C15, [Validator]); right after an opening bracket
      the operators are interchangeable (C16, [Validator]); the three
      classifier predicates are not mutually exclusive (C29).
    - The tokenizer against the spec: the raw look-back of line 45 is
      redundant with the previous-token rule (C17); [--5] gives [-]
      and [-5] (C20); which tokens have no category (C21).
    - Errors ([Errors]): every error is justified by the input (C18);
      the walk reports the first failing position (C19); every
      reported position lies inside the input (C23).
    - The checker's state: [self.stack] holds opening brackets only
      (C22).
    - The GUI ([Gui], [Display]): pressing "Check Syntax" twice is
      pressing it once (C14); "Check Syntax" shows the specification's
      verdict on the entry's text (C24); each catalogue button inserts
      its own text (C25); the label always shows the prompt or a
      verdict (C26).
    - The loop ([TokenizerLoop]): two points in one stretch of digits
      and points are always rejected (C27); a character no rule accepts
      is always rejected (C28).
    - The window ([Layout]): the construction script, run from Tk's
      initial state, raises no [TclError], and the store it leaves
      satisfies the invariant [wf] every Tk call preserves (C31).

    ** What is modelled and how

    Python strings are [list ascii]: the model covers ASCII input;
    Unicode character classes are not modelled.  Python's [None]/
    exception-free early returns become values of sum and option
    types; the messages are built exactly as the f-strings build them.
    The object state is the bracket stack [self.stack], threaded
    explicitly through [check_syntax], which returns the updated
    checker with its verdict.

    ** Fuel

    The main tokenizer loop advances the index by at least one on
    every iteration, so [length s + 1] iterations suffice; [Tokenizer]
    proves that the loop never runs out of this fuel, and [tokenize]
    uses that proof instead of a default value.  The inner scanning
    loops recurse structurally on the rest of the input [s[i:]].

    ** Not modelled

    The options of the widgets (fonts, paddings, colours, the window
    geometry string, the theme) are kept as the data the script passes
    to Tk, but what Tk draws from them is not modelled: the pixel
    sizes the packer and the grid compute, the rendering of fonts and
    colours, the light/dark switch of [appearance_mode "System"].  No
    state of the program depends on them.  The Tk event queue itself
    is abstracted by [gui_step], which lets any enabled event happen
    next; the Entry widget's own key bindings are modelled by their
    effect, an [insert] or a [delete].  Non-ASCII input (Python's Unicode
    [isdigit], [isalpha] and [isspace]) is outside the model: the
    strings are lists of ASCII characters.  Those predicates are
    defined by the Unicode character database of the Python runtime
    (the general categories and numeric types of every code point),
    data that is neither in src/ nor in spec.md, so they cannot be
    translated faithfully; the one consequence found (a superscript
    digit becomes an unrecognised token) is recorded as a finding. *)

From stdpp Require Export base list strings.
From Stdlib Require Export Ascii DecimalString.

Declare Scope msc_scope.
Delimit Scope msc_scope with msc.
Open Scope msc_scope.

(** Python [str] values of the program, as lists of ASCII characters. *)
Abbreviation str := (list ascii).

(** A literal of the program text, written as a Rocq string. *)
Notation "« s »" := (String.list_ascii_of_string s%string)
  (at level 0, format "« s »") : msc_scope.

(** ** Tactics shared by the development *)

Ltac invc H := inversion H; subst; clear H.

(** Split every [if] and [match] on a boolean or option that appears
    in the goal, keeping the equation. *)
Ltac split_ifs :=
  repeat match goal with
  | |- context [if ?b then _ else _] =>
      let E := fresh "E" in destruct b eqn:E
  end.

Create HintDb msc discriminated.

(** ** Lemmas on lists and slices *)

Lemma drop_cons_lookup {A} (l : list A) i x :
  l !! i = Some x -> drop i l = x :: drop (S i) l.
Proof.
  revert i. induction l as [|y l IH]; intros [|i] H; simpl in *;
    try discriminate; [by simplify_eq|by apply IH].
Qed.

Lemma drop_lookup_None {A} (l : list A) i :
  l !! i = None -> drop i l = [].
Proof. intros H. apply lookup_ge_None in H. by apply drop_ge. Qed.

#[export] Hint Resolve drop_cons_lookup drop_lookup_None : msc.
