(* ===== verification/PyStr.v ===== *)
(** * The Python builtins called by src/app.py, for ASCII text

    Character classes ([str.isspace], [isdigit], [isalpha], [isalnum])
    restricted to ASCII, the guarded index test [i < len(s) and
    p(s[i])], slicing, [str.strip], the decimal rendering of an [int]
    inside an f-string, [', '.join], and the strings accepted by
    [float()] (CPython's [float] literal grammar: optional sign, digits
    with single underscores between them, one optional point, an
    optional exponent, or [inf]/[infinity]/[nan] in any case, with
    surrounding whitespace stripped). *)

From S2P Require Import Prelude.

Module Py.

(** ** Character classes *)

Definition isspace (c : ascii) : bool :=
  let n := nat_of_ascii c in
  ((9 <=? n) && (n <=? 13)) || ((28 <=? n) && (n <=? 32)).

Definition isdigit (c : ascii) : bool :=
  let n := nat_of_ascii c in (48 <=? n) && (n <=? 57).

Definition isupper (c : ascii) : bool :=
  let n := nat_of_ascii c in (65 <=? n) && (n <=? 90).

Definition isalpha (c : ascii) : bool :=
  let n := nat_of_ascii c in isupper c || ((97 <=? n) && (n <=? 122)).

Definition isalnum (c : ascii) : bool := isalpha c || isdigit c.

(** [c.lower()] on ASCII. *)
Definition lower (c : ascii) : ascii :=
  if isupper c then ascii_of_nat (nat_of_ascii c + 32) else c.

(** [i < len(s) and p(s[i])]: the guard the code writes before every
    index read. *)
Definition test_at (p : ascii -> bool) (s : str) (i : nat) : bool :=
  match s !! i with Some c => p c | None => false end.

(** [c == d] on characters, as a boolean. *)
Definition ceq (c d : ascii) : bool := bool_decide (c = d).

(** [s[a:b]] for [0 <= a <= b]. *)
Definition slice (s : str) (a b : nat) : str := take (b - a) (drop a s).

(** [s.lstrip()] and [s.strip()]. *)
Fixpoint lstrip (s : str) : str :=
  match s with
  | c :: s' => if isspace c then lstrip s' else s
  | [] => []
  end.

Definition strip (s : str) : str := reverse (lstrip (reverse (lstrip s))).

(** [f"{n}"] for a non-negative [int]. *)
Definition int_str (n : nat) : string :=
  NilEmpty.string_of_uint (Nat.to_uint n).

(** [sep.join(l)]. *)
Fixpoint join (sep : string) (l : list string) : string :=
  match l with
  | [] => ""
  | [x] => x
  | x :: l' => x +:+ sep +:+ join sep l'
  end.

(** Text of a [str] inside a message. *)
Definition str_text (s : str) : string := String.string_of_list_ascii s.

(** ** The strings accepted by [float()] *)

(** After one digit: [(["_"] digit)*], greedily; returns the rest. *)
Fixpoint digits_tail (l : str) : str :=
  match l with
  | c :: l' =>
      if isdigit c then digits_tail l'
      else if ceq c "_" then
        match l' with
        | d :: l'' => if isdigit d then digits_tail l'' else l
        | [] => l
        end
      else l
  | [] => []
  end.

(** [digitpart ::= digit (["_"] digit)*]. *)
Definition digitpart (l : str) : option str :=
  match l with
  | c :: l' => if isdigit c then Some (digits_tail l') else None
  | [] => None
  end.

(** [[sign]] *)
Definition opt_sign (l : str) : str :=
  match l with
  | c :: l' => if ceq c "+" || ceq c "-" then l' else l
  | [] => []
  end.

(** [number ::= [digitpart] "." digitpart | digitpart ["."]]. *)
Definition number (l : str) : option str :=
  match digitpart l with
  | Some r =>
      match r with
      | c :: r' =>
          if ceq c "." then Some (default r' (digitpart r')) else Some r
      | [] => Some []
      end
  | None =>
      match l with
      | c :: r' => if ceq c "." then digitpart r' else None
      | [] => None
      end
  end.

(** [[exponent]] followed by the end of the string. *)
Definition exponent_end (l : str) : bool :=
  match l with
  | [] => true
  | c :: l' =>
      (ceq c "e" || ceq c "E") &&
      match digitpart (opt_sign l') with Some [] => true | _ => false end
  end.

Definition floatnumber (l : str) : bool :=
  match number l with Some r => exponent_end r | None => false end.

(** [infinity | inf | nan], in any case. *)
Definition special (l : str) : bool :=
  let m := map lower l in
  bool_decide (m = «"inf"» \/ m = «"infinity"» \/ m = «"nan"»).

(** [float(s)] does not raise [ValueError]. *)
Definition float_ok (s : str) : bool :=
  let t := opt_sign (strip s) in floatnumber t || special t.

(** ** Numeric runs

    The tokenizer emits runs of digits and points with at most one
    point; [is_run] is that shape. *)

Definition digit_or_point (c : ascii) : bool := isdigit c || ceq c ".".

(** Identifier characters, as [is_variable] tests them. *)
Definition ident_char (c : ascii) : bool := isalnum c || ceq c "_".

Fixpoint points (r : str) : nat :=
  match r with
  | c :: r' => (if ceq c "." then 1 else 0) + points r'
  | [] => 0
  end.

Definition is_run (r : str) : bool :=
  forallb digit_or_point r && (points r <=? 1).

(** ** Lemmas *)

Lemma ceq_true c d : ceq c d = true -> c = d.
Proof. unfold ceq. by rewrite bool_decide_eq_true. Qed.

Lemma ceq_refl c : ceq c c = true.
Proof. unfold ceq. by apply bool_decide_eq_true. Qed.

Lemma digits_tail_digits ds rest :
  forallb isdigit ds = true -> digits_tail (ds ++ rest) = digits_tail rest.
Proof.
  induction ds as [|d ds IH]; simpl; [done|].
  intros [Hd Hds]%andb_prop. rewrite Hd. by apply IH.
Qed.

Lemma digitpart_digits ds :
  ds <> [] -> forallb isdigit ds = true -> digitpart ds = Some [].
Proof.
  destruct ds as [|d ds]; [done|]. intros _ [Hd Hds]%andb_prop.
  simpl. rewrite Hd. f_equal.
  by rewrite <- (app_nil_r ds), digits_tail_digits.
Qed.

Lemma digitpart_digits_point ds r :
  ds <> [] -> forallb isdigit ds = true ->
  digitpart (ds ++ "."%char :: r) = Some ("."%char :: r).
Proof.
  destruct ds as [|d ds]; [done|]. intros _ [Hd Hds]%andb_prop.
  simpl. rewrite Hd. f_equal. by rewrite digits_tail_digits.
Qed.

Lemma digitpart_nil : digitpart [] = None.
Proof. done. Qed.

(** A run with at most one point is digits, or digits, a point and
    digits. *)
Lemma is_run_split r :
  is_run r = true ->
  forallb isdigit r = true \/
  exists d1 d2, r = d1 ++ "."%char :: d2 /\
    forallb isdigit d1 = true /\ forallb isdigit d2 = true.
Proof.
  unfold is_run, points. induction r as [|c r IH]; simpl; [by left|].
  intros [[Hc Hr]%andb_prop Hp]%andb_prop.
  unfold digit_or_point in Hc. destruct (isdigit c) eqn:Ed; simpl in Hc.
  - assert (c <> "."%char) as Hne by (intros ->; discriminate).
    replace (ceq c ".") with false in Hp
      by (symmetry; apply not_true_iff_false; intros ?%ceq_true; by apply Hne).
    destruct IH as [H|(d1 & d2 & -> & H1 & H2)]; [by rewrite Hr|by left|].
    right. exists (c :: d1), d2. simpl. by rewrite Ed, H1.
  - apply ceq_true in Hc. subst c. rewrite ceq_refl in Hp.
    simpl in Hp. right. exists [], r. split_and!; [done|done|].
    clear IH. induction r as [|c r IHr]; simpl in *; [done|].
    apply andb_prop in Hr as [Hc Hr]. unfold digit_or_point in Hc.
    destruct (isdigit c) eqn:Ed'; simpl in Hc.
    + assert (c <> "."%char) as Hne by (intros ->; discriminate).
      replace (ceq c ".") with false in Hp
        by (symmetry; apply not_true_iff_false; intros ?%ceq_true; by apply Hne).
      simpl. by apply IHr.
    + apply ceq_true in Hc. subst c. rewrite ceq_refl in Hp.
      simpl in Hp. lia.
Qed.

Lemma floatnumber_run r :
  is_run r = true -> floatnumber r = existsb isdigit r.
Proof.
  intros [Hd|(d1 & d2 & -> & H1 & H2)]%is_run_split.
  - destruct r as [|c r]; [done|].
    unfold floatnumber, number. rewrite digitpart_digits by done.
    simpl in *. apply andb_prop in Hd as [-> _]. done.
  - rewrite existsb_app. simpl.
    destruct d1 as [|c1 d1].
    + destruct d2 as [|c2 d2]; [done|].
      unfold floatnumber, number. simpl.
      simpl in H2. apply andb_prop in H2 as [Hc2 H2]. rewrite Hc2.
      f_equal. rewrite <- (app_nil_r d2), digits_tail_digits by done. done.
    + unfold floatnumber, number.
      rewrite digitpart_digits_point by done. rewrite ceq_refl.
      simpl in H1. apply andb_prop in H1 as [Hc1 _]. simpl. rewrite Hc1.
      destruct d2 as [|c2 d2]; [done|].
      rewrite digitpart_digits by done. done.
Qed.

Lemma ceq_nat c d : ceq c d = (nat_of_ascii c =? nat_of_ascii d).
Proof.
  unfold ceq. destruct (Nat.eqb_spec (nat_of_ascii c) (nat_of_ascii d)) as [E|E].
  - apply bool_decide_eq_true.
    by rewrite <- (ascii_nat_embedding c), <- (ascii_nat_embedding d), E.
  - apply bool_decide_eq_false. by intros ->.
Qed.

(** Character-class facts reduce to arithmetic on the code point. *)
Ltac ascii_lia :=
  unfold digit_or_point, ident_char in *;
  unfold isalnum in *; unfold isalpha in *;
  unfold isspace, isdigit, isupper in *;
  rewrite ?ceq_nat in *;
  repeat match goal with
  | H : context [nat_of_ascii (Ascii ?b0 ?b1 ?b2 ?b3 ?b4 ?b5 ?b6 ?b7)] |- _ =>
      let a := constr:(Ascii b0 b1 b2 b3 b4 b5 b6 b7) in
      let v := eval vm_compute in (nat_of_ascii a) in
      change (nat_of_ascii a) with v in H
  | |- context [nat_of_ascii (Ascii ?b0 ?b1 ?b2 ?b3 ?b4 ?b5 ?b6 ?b7)] =>
      let a := constr:(Ascii b0 b1 b2 b3 b4 b5 b6 b7) in
      let v := eval vm_compute in (nat_of_ascii a) in
      change (nat_of_ascii a) with v
  end;
  repeat match goal with
  | H : context [Nat.leb ?a ?b] |- _ => destruct (Nat.leb_spec a b)
  | |- context [Nat.leb ?a ?b] => destruct (Nat.leb_spec a b)
  | H : context [Nat.eqb ?a ?b] |- _ => destruct (Nat.eqb_spec a b)
  | |- context [Nat.eqb ?a ?b] => destruct (Nat.eqb_spec a b)
  end; simpl in *; try discriminate; try lia.


Lemma space_not_digit c : isspace c = true -> isdigit c = false.
Proof. ascii_lia. Qed.

Lemma space_not_point c : isspace c = true -> ceq c "." = false.
Proof. ascii_lia. Qed.

Lemma space_lower c : isspace c = true -> lower c = c.
Proof. unfold lower. intros H. replace (isupper c) with false by ascii_lia. done. Qed.

Lemma lower_nonupper c : isupper c = false -> lower c = c.
Proof. unfold lower. by intros ->. Qed.

(** [strip] leaves text without whitespace unchanged. *)
Lemma lstrip_nospace l : Forall (fun c => isspace c = false) l -> lstrip l = l.
Proof. destruct l as [|c l]; [done|]. intros [Hc _]%Forall_cons. simpl. by rewrite Hc. Qed.

Lemma strip_nospace l : Forall (fun c => isspace c = false) l -> strip l = l.
Proof.
  intros H. unfold strip. rewrite (lstrip_nospace l), lstrip_nospace by
    (rewrite ?Forall_reverse; done).
  apply reverse_involutive.
Qed.

Lemma lstrip_app_keep l c :
  isspace c = false -> exists k, lstrip (l ++ [c]) = drop k l ++ [c].
Proof.
  intros Hc. induction l as [|d l [k Hk]]; simpl.
  - exists 0. by rewrite Hc.
  - destruct (isspace d); [by exists (S k)|by exists 0].
Qed.

(** [strip] keeps a non-space first character and cuts the rest to a
    prefix. *)
Lemma strip_head c l :
  isspace c = false -> exists x y, l = x ++ y /\ strip (c :: l) = c :: x.
Proof.
  intros Hc. unfold strip. simpl. rewrite Hc, reverse_cons.
  destruct (lstrip_app_keep (reverse l) c Hc) as [k ->].
  exists (reverse (drop k (reverse l))), (reverse (take k (reverse l))).
  split.
  - by rewrite <- reverse_app, take_drop, reverse_involutive.
  - by rewrite reverse_app, reverse_singleton.
Qed.

Lemma special_nil : special [] = false.
Proof. done. Qed.

Lemma special_head c l :
  isupper c = false -> c <> "i"%char -> c <> "n"%char -> special (c :: l) = false.
Proof.
  intros Hu Hi Hn. unfold special. simpl. rewrite lower_nonupper by done.
  apply bool_decide_eq_false. intros [H|[H|H]]; by simplify_eq.
Qed.

Lemma run_char_facts c :
  digit_or_point c = true ->
  isspace c = false /\ isupper c = false /\ c <> "i"%char /\ c <> "n"%char /\
  ceq c "+" = false /\ ceq c "-" = false.
Proof.
  intros H. split_and!; try (intros ->; vm_compute in H; discriminate); ascii_lia.
Qed.

Lemma run_nospace r :
  forallb digit_or_point r = true -> Forall (fun c => isspace c = false) r.
Proof.
  intros H. apply Forall_forall. intros c Hc%list_elem_of_In.
  eapply forallb_forall in H; [|done]. by apply run_char_facts.
Qed.

Lemma special_run r : forallb digit_or_point r = true -> special r = false.
Proof.
  destruct r as [|c r]; [done|]. simpl. intros [Hc _]%andb_prop.
  destruct (run_char_facts c Hc) as (_ & ? & ? & ? & _). by apply special_head.
Qed.

(** [float(r)] on a run of digits and at most one point accepts exactly
    when the run holds a digit. *)
Lemma float_ok_run r : is_run r = true -> float_ok r = existsb isdigit r.
Proof.
  intros Hr. pose proof Hr as Hr'. apply andb_prop in Hr' as [Hd _].
  unfold float_ok. rewrite strip_nospace by (by apply run_nospace).
  replace (opt_sign r) with r.
  - by rewrite floatnumber_run, special_run, orb_false_r.
  - destruct r as [|c r]; [done|]. simpl in Hd. apply andb_prop in Hd as [Hc _].
    destruct (run_char_facts c Hc) as (_ & _ & _ & _ & H1 & H2).
    simpl. by rewrite H1, H2.
Qed.

Lemma float_ok_neg_run r :
  is_run r = true -> float_ok ("-"%char :: r) = existsb isdigit r.
Proof.
  intros Hr. pose proof Hr as Hr'. apply andb_prop in Hr' as [Hd _].
  unfold float_ok. rewrite strip_nospace.
  - simpl. by rewrite floatnumber_run, special_run, orb_false_r.
  - constructor; [done|]. by apply run_nospace.
Qed.

(** [float("-" + w + rest)] fails when [w] is whitespace: Python's
    [float] admits no space between the sign and the digits. *)
Lemma float_ok_neg_space w rest :
  isspace w = true -> float_ok ("-"%char :: w :: rest) = false.
Proof.
  intros Hw. unfold float_ok.
  destruct (strip_head "-" (w :: rest)) as (x & y & Hxy & ->); [done|].
  simpl. destruct x as [|c x]; [done|]. simpl in Hxy. simplify_eq.
  unfold floatnumber, number, digitpart. rewrite space_not_digit by done.
  rewrite space_not_point by done. simpl.
  apply special_head; [ascii_lia| |]; intros ->; vm_compute in Hw; discriminate.
Qed.


(** The first character of an identifier is an identifier character. *)
Lemma ident_start_char c : isalpha c || ceq c "_" = true -> ident_char c = true.
Proof. unfold ident_char, isalnum. destruct (isalpha c), (isdigit c); naive_solver. Qed.

Lemma ident_char_not_point c : ident_char c = true -> ceq c "." = false.
Proof.
  intros H. apply not_true_iff_false. intros E. unfold ceq in E.
  apply bool_decide_eq_true in E as ->. discriminate H.
Qed.

Lemma alpha_nospace c : isspace c = true -> isalpha c = false.
Proof. ascii_lia. Qed.

Lemma ident_char_nospace c : ident_char c = true -> isspace c = false.
Proof.
  unfold ident_char, isalnum. intros H. apply not_true_iff_false. intros Hs.
  rewrite (alpha_nospace c Hs), (space_not_digit c Hs) in H. simpl in H.
  unfold ceq in H. apply bool_decide_eq_true in H as ->. discriminate Hs.
Qed.

(** [float(t)] on an identifier accepts exactly [inf], [infinity] and
    [nan], in any case. *)
Lemma float_ok_ident c cs :
  isalpha c || ceq c "_" = true -> forallb ident_char cs = true ->
  float_ok (c :: cs) = special (c :: cs).
Proof.
  intros Hc Hcs. unfold float_ok. rewrite strip_nospace.
  - simpl. replace (ceq c "+" || ceq c "-") with false by ascii_lia.
    unfold floatnumber, number, digitpart.
    replace (isdigit c) with false by ascii_lia.
    replace (ceq c ".") with false by ascii_lia. done.
  - constructor; [by apply ident_char_nospace, ident_start_char|]. apply Forall_forall. intros d Hd%list_elem_of_In.
    eapply forallb_forall in Hcs; [|done].
    by apply ident_char_nospace.
Qed.

Lemma lstrip_nil l : lstrip l = [] <-> Forall (fun c => isspace c = true) l.
Proof.
  induction l as [|c l IH]; simpl; [split; done|].
  destruct (isspace c) eqn:E.
  - rewrite IH. split; [by constructor|by intros [_ ?]%Forall_cons].
  - split; [done|]. intros [H _]%Forall_cons. congruence.
Qed.

Lemma lstrip_head l c r : lstrip l = c :: r -> isspace c = false.
Proof.
  induction l as [|d l IH]; simpl; [done|].
  destruct (isspace d) eqn:E; [done|]. intros; by simplify_eq.
Qed.

(** [not s.strip()] holds exactly of all-whitespace strings. *)
Lemma strip_nil s : strip s = [] <-> Forall (fun c => isspace c = true) s.
Proof.
  unfold strip. rewrite <- lstrip_nil. split.
  - intros H. apply (f_equal reverse) in H. rewrite reverse_involutive in H.
    apply lstrip_nil in H. rewrite Forall_reverse in H.
    destruct (lstrip s) as [|c r] eqn:E; [done|].
    apply Forall_cons in H as [Hc _]. apply lstrip_head in E. congruence.
  - intros ->. done.
Qed.

End Py.
