(* ===== verification/Classifier.v ===== *)
(** * The token classifier of [MathSyntaxChecker]

    The fixed vocabularies set up by [__init__] (src/app.py, lines
    9-13), the predicates [is_number] (lines 15-20), [is_variable]
    (lines 22-30) and [is_function] (lines 32-33), and the
    classification chains of [check_syntax]: the one applied to the
    token after a leading unary minus (lines 134-141) and the one of the
    main walk (lines 155-168).  The lemmas classify every shape of
    token the tokenizer emits. *)

From S2P Require Import Prelude PyStr.

Module Classifier.
Import Py.

(** ** Vocabularies ([__init__]) *)

Definition valid_operators : list str := [«"+"»; «"-"»; «"*"»; «"/"»; «"^"»].
Definition opening_brackets : list str := [«"("»; «"["»; «"{"»].
Definition closing_brackets : list str := [«")"»; «"]"»; «"}"»].
Definition bracket_pairs : list (str * str) :=
  [(«")"», «"("»); («"]"», «"["»); («"}"», «"{"»)].
Definition valid_functions : list str :=
  [«"sin"»; «"cos"»; «"tan"»; «"log"»; «"ln"»; «"sqrt"»; «"abs"»;
   «"exp"»; «"floor"»; «"ceil"»; «"round"»].

(** [x in S] for one of the sets above. *)
Definition mem (x : str) (S : list str) : bool := bool_decide (x ∈ S).

(** [self.bracket_pairs.get(k)]. *)
Fixpoint lookup_pair (k : str) (d : list (str * str)) : option str :=
  match d with
  | (k', v) :: d' => if bool_decide (k = k') then Some v else lookup_pair k d'
  | [] => None
  end.

(** ** Predicates *)

(** [is_number]: [float(token)] raises no [ValueError]. *)
Definition is_number (token : str) : bool := float_ok token.

(** [is_variable].  The code reads [token[0]], which raises on the
    empty string; the tokenizer never emits an empty token
    ([Tokenizer.token_shape_nonempty]), so that branch is unreachable and
    is modelled as [false]. *)
Definition is_variable (token : str) : bool :=
  match token with
  | [] => false
  | c :: rest =>
      (isalpha c || ceq c "_") && forallb ident_char rest &&
      negb (mem token valid_functions)
  end.

Definition is_function (token : str) : bool := mem token valid_functions.

(** ** Token categories *)

Inductive token_type :=
  | TNumber | TVariable | TFunction | TOperator | TOpenBracket | TCloseBracket.

#[export] Instance token_type_eq_dec : EqDecision token_type.
Proof. solve_decision. Defined.

(** The strings the code uses for the categories. *)
Definition type_name (ty : token_type) : string :=
  match ty with
  | TNumber => "number" | TVariable => "variable" | TFunction => "function"
  | TOperator => "operator" | TOpenBracket => "open_bracket"
  | TCloseBracket => "close_bracket"
  end.

(** Lines 155-168: the category of a token, [None] for the
    "Unrecognized token" branch. *)
Definition classify (token : str) : option token_type :=
  if is_number token then Some TNumber
  else if is_function token then Some TFunction
  else if is_variable token then Some TVariable
  else if mem token valid_operators then Some TOperator
  else if mem token opening_brackets then Some TOpenBracket
  else if mem token closing_brackets then Some TCloseBracket
  else None.

(** Lines 134-141: the category of the token after a leading unary
    minus, among number, function, variable and opening bracket. *)
Definition unary_operand_type (next_token : str) : option token_type :=
  if is_number next_token then Some TNumber
  else if is_function next_token then Some TFunction
  else if is_variable next_token then Some TVariable
  else if mem next_token opening_brackets then Some TOpenBracket
  else None.

(** Line 143: [next_token_type in allowed_after_unary_minus]. *)
Definition allowed_after_unary_minus (ty : option token_type) : bool :=
  match ty with
  | Some (TNumber | TVariable | TFunction | TOpenBracket) => true
  | _ => false
  end.

(** ** The shapes of the tokens the tokenizer emits *)

Definition symbol_char (c : ascii) : bool :=
  mem [c] valid_operators || mem [c] opening_brackets || mem [c] closing_brackets.

Inductive token_shape : str -> Prop :=
  | shape_symbol c : symbol_char c = true -> token_shape [c]
  | shape_run r : is_run r = true -> existsb isdigit r = true -> token_shape r
  | shape_signed ws r :
      Forall (fun c => isspace c = true) ws -> is_run r = true -> r <> [] ->
      token_shape ("-"%char :: ws ++ r)
  | shape_ident c cs :
      isalpha c || ceq c "_" = true -> forallb ident_char cs = true ->
      token_shape (c :: cs).

(** ** Lemmas *)

Ltac mem_solve :=
  unfold symbol_char in *; unfold mem, valid_operators, opening_brackets,
    closing_brackets, valid_functions in *;
  cbn [String.list_ascii_of_string] in *;
  repeat match goal with
  | H : bool_decide _ = true |- _ => apply bool_decide_eq_true in H
  | H : _ || _ = true |- _ => apply orb_true_iff in H as [H|H]
  | H : _ ∈ _ :: _ |- _ => apply elem_of_cons in H as [H|H]
  | H : _ ∈ [] |- _ => by apply elem_of_nil in H
  end; simplify_eq.

(** The characters after which the code reads a [-] as a sign. *)
Lemma op_open_char c :
  mem [c] valid_operators || mem [c] opening_brackets = true ->
  digit_or_point c = false /\ ident_char c = false /\ isspace c = false.
Proof. intros H. mem_solve; vm_compute; split_and!; done. Qed.

Lemma mem_false_cons2 c d rest (S : list str) :
  Forall (fun t => length t = 1) S -> mem (c :: d :: rest) S = false.
Proof.
  intros HS. unfold mem. apply bool_decide_eq_false. intros Hin.
  eapply Forall_forall in HS; [|done]. done.
Qed.

Lemma singletons_ops : Forall (fun t : str => length t = 1) valid_operators.
Proof. repeat constructor. Qed.
Lemma singletons_opening : Forall (fun t : str => length t = 1) opening_brackets.
Proof. repeat constructor. Qed.
Lemma singletons_closing : Forall (fun t : str => length t = 1) closing_brackets.
Proof. repeat constructor. Qed.

#[export] Hint Resolve singletons_ops singletons_opening singletons_closing : msc.

Lemma minus_not_function rest : mem ("-"%char :: rest) valid_functions = false.
Proof. unfold mem. apply bool_decide_eq_false. intros H. mem_solve. Qed.

Lemma symbol_not_function c : symbol_char c = true -> is_function [c] = false.
Proof. intros H. mem_solve; reflexivity. Qed.

(** A symbol character is one token of its own category. *)
Lemma classify_symbol c :
  symbol_char c = true ->
  classify [c] = Some (if mem [c] valid_operators then TOperator
                       else if mem [c] opening_brackets then TOpenBracket
                       else TCloseBracket).
Proof. intros H. mem_solve; reflexivity. Qed.

Lemma classify_run r :
  is_run r = true -> existsb isdigit r = true -> classify r = Some TNumber.
Proof. intros Hr Hd. unfold classify, is_number. by rewrite float_ok_run, Hd. Qed.

(** A signed token as the tokenizer builds it (a minus, the spaces it
    skips, a run of digits and points) is a number exactly when the
    sign touches the run and the run holds a digit; otherwise no
    category applies, since [float()] rejects a space after the
    sign. *)
Lemma classify_signed ws r :
  Forall (fun c => isspace c = true) ws -> is_run r = true -> r <> [] ->
  classify ("-"%char :: ws ++ r) =
    if bool_decide (ws = []) && existsb isdigit r then Some TNumber else None.
Proof.
  intros Hws Hr Hne.
  assert (Hrest : exists d rest, ws ++ r = d :: rest) by
    (destruct ws as [|w ws]; [destruct r as [|d rest]; [done|]|]; eauto).
  destruct Hrest as (d & rest & Hdr).
  assert (Hnum : is_number ("-"%char :: ws ++ r) =
                 bool_decide (ws = []) && existsb isdigit r).
  { unfold is_number. destruct ws as [|w ws].
    - by apply float_ok_neg_run.
    - apply Forall_cons in Hws as [Hw _]. simpl. by apply float_ok_neg_space. }
  unfold classify, is_function, is_variable. rewrite Hnum, Hdr.
  rewrite minus_not_function, !mem_false_cons2 by auto with msc.
  by destruct (bool_decide (ws = []) && existsb isdigit r).
Qed.

(** C12: an identifier token is a number when [float()] reads it as
    [inf], [infinity] or [nan] in any case, a function when it names
    one of [valid_functions], and otherwise a variable. *)
Lemma classify_ident c cs :
  isalpha c || ceq c "_" = true -> forallb ident_char cs = true ->
  classify (c :: cs) =
    Some (if special (c :: cs) then TNumber
          else if is_function (c :: cs) then TFunction else TVariable).
Proof.
  intros Hc Hcs. unfold classify, is_number. rewrite float_ok_ident by done.
  destruct (special (c :: cs)); [done|].
  unfold is_variable, is_function. rewrite Hc, Hcs.
  by destruct (mem (c :: cs) valid_functions).
Qed.

Lemma classify_ident_witness :
  classify ("I"%char :: «"nf"») = Some TNumber /\
  classify ("N"%char :: «"aN"») = Some TNumber /\
  classify ("n"%char :: «"ab"») = Some TVariable /\
  classify ("s"%char :: «"qrt"») = Some TFunction.
Proof. split_and!; (rewrite classify_ident; [reflexivity|reflexivity|reflexivity]). Defined.

(** C29: how far the three predicates are exclusive (spec.md, section
    4.2, says they are): a function name is neither a number nor a
    variable, but a token is both a number and a variable exactly when
    it is identifier-shaped and [float()] reads it as [inf],
    [infinity] or [nan]. *)
Theorem classifier_overlap t :
  (is_function t = true -> is_number t = false /\ is_variable t = false) /\
  (is_number t = true /\ is_variable t = true <-> is_variable t = true /\ special t = true).
Proof.
  split.
  - intros Hf. split.
    + unfold is_function, mem, valid_functions in Hf. apply bool_decide_eq_true in Hf.
      repeat (apply elem_of_cons in Hf as [->|Hf]; [reflexivity|]).
      by apply elem_of_nil in Hf.
    + destruct t as [|c cs]; [done|]. simpl. unfold is_function in Hf.
      by rewrite Hf, andb_false_r.
  - destruct t as [|c cs]; [done|]. simpl. unfold is_number.
    destruct ((isalpha c || ceq c "_") && forallb ident_char cs) eqn:Hi;
      [|by split; intros [? ?]].
    apply andb_prop in Hi as [Hc Hcs]. rewrite float_ok_ident by done. tauto.
Qed.

Lemma classifier_overlap_witness :
  (is_function «"sqrt"» = true -> is_number «"sqrt"» = false /\ is_variable «"sqrt"» = false) /\
  (is_number «"NaN"» = true /\ is_variable «"NaN"» = true <->
   is_variable «"NaN"» = true /\ special «"NaN"» = true).
Proof. split; [apply classifier_overlap|apply classifier_overlap]. Defined.

End Classifier.
