(* ===== verification/Tokenizer.v ===== *)
(** * The tokenizer [MathSyntaxChecker.tokenize] (src/app.py, lines 35-107)

    The [while i < len(expression)] loop is [tok_loop], one unfolding
    per iteration, with the index [i] and the token list [tokens] as
    its state and a fuel bound.  The inner loops ([while j < len and
    ...: j += 1]) are [scan_while] and [scan_number], which walk the
    rest of the input [expression[j:]] and return the index where they
    stop.  [tokenize] runs [tok_loop] with [length s + 1] units of fuel,
    which [tok_loop_total] shows is always enough. *)

From S2P Require Import Prelude PyStr Classifier.

Module Tokenizer.
Import Py Classifier.

(** The lexical errors, and the message strings the code returns. *)
Inductive tok_error :=
  | InvalidNumberFormat (pos : nat)
  | InvalidCharacter (c : ascii) (pos : nat).

Definition tok_error_message (e : tok_error) : string :=
  match e with
  | InvalidNumberFormat p =>
      "Error: Invalid number format at position " +:+ int_str p
  | InvalidCharacter c p =>
      "Error: Invalid character '" +:+ String.String c "" +:+
      "' at position " +:+ int_str p
  end.

(** [while j < len(expression) and p(expression[j]): j += 1], where
    [rest] is [expression[j:]]. *)
Fixpoint scan_while (p : ascii -> bool) (rest : str) (j : nat) : nat :=
  match rest with
  | c :: rest' => if p c then scan_while p rest' (S j) else j
  | [] => j
  end.

(** Lines 69-74 and 86-91: consume digits and points from [j], where
    [rest] is [expression[j:]]; [inl p] is the early return at a second
    point at index [p], [inr k] the index where the run ends. *)
Fixpoint scan_number (rest : str) (j : nat) (seen : bool) : nat + nat :=
  match rest with
  | c :: rest' =>
      if isdigit c || ceq c "." then
        if ceq c "." then
          if seen then inl j else scan_number rest' (S j) true
        else scan_number rest' (S j) seen
      else inr j
  | [] => inr j
  end.

(** [tokens[-1] in S], guarded by [tokens] being non-empty. *)
Definition last_in (tokens : list str) (S : list str) : bool :=
  match last tokens with Some t => mem t S | None => false end.

(** Lines 45-48: the context in which a [-] may start a signed number.
    [expression[i - 1]] is read only when [i <> 0]. *)
Definition sign_context (s : str) (i : nat) (tokens : list str) : bool :=
  if i =? 0 then true
  else test_at (fun c => mem [c] valid_operators) s (i - 1) ||
       test_at (fun c => mem [c] opening_brackets) s (i - 1) ||
       last_in tokens valid_operators || last_in tokens opening_brackets.

(** The outcome of one iteration of the main loop: [continue] with a
    new index and token list, or [return]. *)
Inductive step_result :=
  | Next (i : nat) (tokens : list str)
  | Done (r : list str + tok_error).

(** The body of the [while] loop, lines 38-106: [Done (inl tokens)] is
    the loop exit with [return tokens, None], [Done (inr e)] a
    [return None, error]. *)
Definition tok_step (s : str) (i : nat) (tokens : list str) : step_result :=
  match s !! i with
  | None => Done (inl tokens)
  | Some c =>
    if isspace c then Next (S i) tokens
    else if ceq c "-" && sign_context s i tokens then
      if test_at (ceq "-") s (S i) then Next (S i) (tokens ++ [[c]])
      else
        let j := scan_while isspace (drop (S i) s) (S i) in
        if test_at digit_or_point s j then
          match scan_number (drop j s) j false with
          | inl p => Done (inr (InvalidNumberFormat p))
          | inr i' => Next i' (tokens ++ [slice s i i'])
          end
        else Next (S i) (tokens ++ [[c]])
    else if isdigit c || (ceq c "." && test_at isdigit s (S i)) then
      match scan_number (drop i s) i false with
      | inl p => Done (inr (InvalidNumberFormat p))
      | inr j => Next j (tokens ++ [slice s i j])
      end
    else if isalpha c || ceq c "_" then
      let j := scan_while ident_char (drop i s) i in
      Next j (tokens ++ [slice s i j])
    else if mem [c] valid_operators || mem [c] opening_brackets ||
            mem [c] closing_brackets then
      Next (S i) (tokens ++ [[c]])
    else Done (inr (InvalidCharacter c i))
  end.

(** The [while] loop, one step per unit of fuel; [None] when the fuel
    runs out. *)
Fixpoint tok_loop (fuel : nat) (s : str) (i : nat) (tokens : list str)
  : option (list str + tok_error) :=
  match fuel with
  | 0 => None
  | S fuel' =>
      match tok_step s i tokens with
      | Next i' tokens' => tok_loop fuel' s i' tokens'
      | Done r => Some r
      end
  end.

(** ** The inner loops *)

Lemma scan_while_ge p rest j : j <= scan_while p rest j.
Proof. revert j. induction rest as [|c rest IH]; intros j; simpl; [lia|].
  destruct (p c); [specialize (IH (S j)); lia|lia]. Qed.

Lemma scan_while_first p c rest j :
  p c = true -> S j <= scan_while p (c :: rest) j.
Proof. intros Hc. simpl. rewrite Hc. apply scan_while_ge. Qed.

Lemma scan_number_ge rest j seen k : scan_number rest j seen = inr k -> j <= k.
Proof.
  revert j seen. induction rest as [|c rest IH]; intros j seen; simpl;
    [intros; simplify_eq; lia|].
  repeat case_match; intros Hk; simplify_eq; try lia;
    apply IH in Hk; lia.
Qed.

Lemma scan_number_first c rest j k :
  digit_or_point c = true -> scan_number (c :: rest) j false = inr k -> S j <= k.
Proof.
  unfold digit_or_point. intros Hc. simpl. rewrite Hc.
  repeat case_match; intros Hk; simplify_eq; by apply scan_number_ge in Hk.
Qed.

#[export] Hint Resolve scan_while_ge scan_while_first scan_number_ge : msc.

(** ** Totality: [length s + 1] iterations suffice *)

(** Every [continue] moves the index forward, from a position inside
    the input. *)
Lemma tok_step_progress s i tokens i' tokens' :
  tok_step s i tokens = Next i' tokens' -> i < length s /\ i < i'.
Proof.
  unfold tok_step. destruct (s !! i) as [c|] eqn:Hc; [|done].
  pose proof (lookup_lt_Some _ _ _ Hc) as Hlt.
  rewrite (drop_cons_lookup s i c Hc).
  pose proof (scan_while_ge isspace (drop (S i) s) (S i)).
  repeat case_match; intros Hs; simplify_eq; split; try lia;
    first
    [ match goal with
      | Hn : scan_number (_ :: _) _ false = inr _,
        Hd : isdigit ?c || (ceq ?c "." && _) = true |- _ =>
          apply scan_number_first in Hn; [lia|]; unfold digit_or_point;
          apply orb_true_iff in Hd as [->|[-> _]%andb_prop];
          [done|by rewrite orb_true_r]
      end
    | match goal with
      | Hn : scan_number _ _ _ = inr _ |- _ => apply scan_number_ge in Hn; lia
      end
    | apply scan_while_first, ident_start_char; assumption ].
Qed.

Lemma tok_loop_total_gen fuel s i tokens :
  length s - i < fuel -> tok_loop fuel s i tokens <> None.
Proof.
  revert i tokens. induction fuel as [|fuel IH]; intros i tokens Hf; [lia|].
  simpl. destruct (tok_step s i tokens) as [i' tokens'|r] eqn:Hs; [|done].
  apply tok_step_progress in Hs. apply IH. lia.
Qed.

Lemma tok_loop_total s : tok_loop (S (length s)) s 0 [] <> None.
Proof. apply tok_loop_total_gen. lia. Qed.

(** [tokenize]: the loop run from [i = 0] with no tokens; the fuel
    never runs out. *)
Definition tokenize (s : str) : list str + tok_error :=
  match tok_loop (S (length s)) s 0 [] as o return o <> None -> _ with
  | Some r => fun _ => r
  | None => fun H => False_rect _ (H eq_refl)
  end (tok_loop_total s).

Lemma tok_loop_mono fuel s i tokens r :
  tok_loop fuel s i tokens = Some r ->
  forall fuel', fuel <= fuel' -> tok_loop fuel' s i tokens = Some r.
Proof.
  revert i tokens. induction fuel as [|fuel IH]; intros i tokens Hr fuel' Hle; [done|].
  destruct fuel' as [|fuel']; [lia|]. simpl in *.
  destruct (tok_step s i tokens); [|done]. apply IH; [done|lia].
Qed.

Lemma tokenize_spec s : tok_loop (S (length s)) s 0 [] = Some (tokenize s).
Proof.
  unfold tokenize. generalize (tok_loop_total s).
  destruct (tok_loop (S (length s)) s 0 []); [done|]. by intros [].
Qed.

(** ** Loop invariants

    A property of the loop state kept by every [continue] and turned
    into a property of the result by every [return] holds of the
    result of [tokenize]. *)
Section Invariant.
Variable s : str.
Variable P : nat -> list str -> Prop.
Variable Q : list str + tok_error -> Prop.
Hypothesis step_next : forall i t i' t',
  P i t -> tok_step s i t = Next i' t' -> P i' t'.
Hypothesis step_done : forall i t r,
  P i t -> tok_step s i t = Done r -> Q r.

Lemma tok_loop_inv fuel i t r : P i t -> tok_loop fuel s i t = Some r -> Q r.
Proof.
  revert i t. induction fuel as [|fuel IH]; intros i t HP; simpl; [done|].
  destruct (tok_step s i t) eqn:Hs; [|intros; simplify_eq; eauto].
  apply IH. eauto.
Qed.

Lemma tokenize_inv : P 0 [] -> Q (tokenize s).
Proof. intros H0. eapply tok_loop_inv; [done|]. apply tokenize_spec. Qed.
End Invariant.

(** The characters of the input that are not whitespace. *)
Definition erase_ws (l : str) : str := filter (fun c => isspace c = false) l.

Lemma erase_ws_app l1 l2 : erase_ws (l1 ++ l2) = erase_ws l1 ++ erase_ws l2.
Proof. apply filter_app. Qed.

Lemma erase_ws_space c : isspace c = true -> erase_ws [c] = [].
Proof. intros H. unfold erase_ws. rewrite filter_cons_False; [done|]. by rewrite H. Qed.

Lemma take_slice (s : str) i k : i <= k -> take i s ++ slice s i k = take k s.
Proof. intros H. unfold slice. rewrite take_take_drop. f_equal. lia. Qed.

Lemma tok_step_erase s i t i' t' :
  erase_ws (concat t) = erase_ws (take i s) -> tok_step s i t = Next i' t' ->
  erase_ws (concat t') = erase_ws (take i' s).
Proof.
  intros HI Hs. pose proof (tok_step_progress _ _ _ _ _ Hs) as [_ Hlt].
  unfold tok_step in Hs. destruct (s !! i) as [c|] eqn:Hc; [|done].
  repeat case_match; simplify_eq;
    rewrite ?concat_app, ?erase_ws_app, ?HI; simpl; rewrite ?app_nil_r;
    try rewrite (take_S_r _ _ _ Hc), erase_ws_app;
    try (by rewrite erase_ws_space, app_nil_r);
    try done;
    match goal with
    | |- _ = erase_ws (take ?k s) =>
        by rewrite <- (take_slice s i k), erase_ws_app by lia
    end.
Qed.

(** ** The tokens are the shapes of [Classifier.token_shape] *)

Lemma slice_cons (s : str) i k c :
  s !! i = Some c -> i < k -> slice s i k = c :: slice s (S i) k.
Proof.
  intros Hc Hk. unfold slice. rewrite (drop_cons_lookup s i c Hc).
  replace (k - i) with (S (k - S i)) by lia. done.
Qed.

Lemma slice_app (s : str) i j k :
  i <= j -> j <= k -> slice s i k = slice s i j ++ slice s j k.
Proof.
  intros H1 H2. unfold slice.
  replace (k - i) with ((j - i) + (k - j)) by lia.
  rewrite <- (take_take_drop (drop i s) (j - i) (k - j)), drop_drop.
  by replace (i + (j - i)) with j by lia.
Qed.

Lemma scan_while_all p rest j :
  Forall (fun c => p c = true) (take (scan_while p rest j - j) rest).
Proof.
  revert j. induction rest as [|c rest IH]; intros j; simpl; [by rewrite take_nil|].
  destruct (p c) eqn:Hp; [|by rewrite Nat.sub_diag].
  pose proof (scan_while_ge p rest (S j)).
  replace (scan_while p rest (S j) - j) with (S (scan_while p rest (S j) - S j)) by lia.
  simpl. constructor; [done|apply IH].
Qed.

Lemma scan_number_run rest j seen k :
  scan_number rest j seen = inr k ->
  forallb digit_or_point (take (k - j) rest) = true /\
  points (take (k - j) rest) + (if seen then 1 else 0) <= 1.
Proof.
  revert j seen. induction rest as [|c rest IH]; intros j seen; simpl.
  - intros; simplify_eq. rewrite take_nil. destruct seen; simpl; lia.
  - destruct (isdigit c || ceq c ".") eqn:Hd.
    + assert (Hdp : digit_or_point c = true) by exact Hd.
      pose proof (fun seen' H => scan_number_ge rest (S j) seen' k H) as Hge.
      destruct (ceq c ".") eqn:Hp; [destruct seen; [done|]|];
        intros Hk; specialize (Hge _ Hk);
        replace (k - j) with (S (k - S j)) by lia; simpl;
        rewrite Hdp, Hp; simpl;
        apply IH in Hk as [-> Hpts]; simpl; split; try done; lia.
    + intros; simplify_eq. rewrite Nat.sub_diag. simpl. destruct seen; lia.
Qed.

(** A run of digits with at most one point is scanned to its end. *)
Lemma scan_number_whole (r : str) (j : nat) (seen : bool) :
  forallb digit_or_point r = true -> points r + (if seen then 1 else 0) <= 1 ->
  scan_number r j seen = inr (j + length r).
Proof.
  revert j seen. induction r as [|c r IH]; intros j seen Hr Hp; simpl.
  - f_equal. lia.
  - simpl in Hr. apply andb_prop in Hr as [Hc Hr]. unfold digit_or_point in Hc.
    rewrite Hc. simpl in Hp.
    destruct (ceq c ".") eqn:Hd.
    + destruct seen; [lia|]. rewrite IH; [f_equal; lia|done|lia].
    + rewrite IH; [f_equal; lia|done|lia].
Qed.

Lemma run_of_scan (s : str) j k :
  scan_number (drop j s) j false = inr k -> is_run (slice s j k) = true.
Proof.
  intros Hk. apply scan_number_run in Hk as [Hd Hp]. unfold is_run, slice.
  rewrite Hd. simpl. apply Nat.leb_le. lia.
Qed.

Lemma test_at_Some p (s : str) i :
  test_at p s i = true -> exists c, s !! i = Some c /\ p c = true.
Proof. unfold test_at. destruct (s !! i); [eauto|done]. Qed.

Lemma signed_token_shape (s : str) i i' :
  s !! i = Some "-"%char ->
  test_at digit_or_point s (scan_while isspace (drop (S i) s) (S i)) = true ->
  scan_number (drop (scan_while isspace (drop (S i) s) (S i)) s)
              (scan_while isspace (drop (S i) s) (S i)) false = inr i' ->
  token_shape (slice s i i').
Proof.
  set (j := scan_while isspace (drop (S i) s) (S i)). intros Hm Hj Hk.
  pose proof (scan_while_ge isspace (drop (S i) s) (S i)) as Hij.
  pose proof (scan_while_all isspace (drop (S i) s) (S i)) as Hws.
  apply test_at_Some in Hj as (d & Hd & Hdd).
  pose proof Hk as Hk'. rewrite (drop_cons_lookup s j d Hd) in Hk'.
  apply scan_number_first in Hk'; [|done].
  rewrite (slice_cons s i i' "-") by (done || lia).
  rewrite (slice_app s (S i) j i') by (subst j; lia).
  apply shape_signed; [done|by apply run_of_scan|].
  rewrite (slice_cons s j i' d) by (done || lia). done.
Qed.

Lemma unsigned_token_shape (s : str) i c j :
  s !! i = Some c ->
  isdigit c || (ceq c "." && test_at isdigit s (S i)) = true ->
  scan_number (drop i s) i false = inr j ->
  token_shape (slice s i j).
Proof.
  intros Hc Hstart Hj. apply shape_run; [by apply run_of_scan|].
  pose proof Hj as Hj'. rewrite (drop_cons_lookup s i c Hc) in Hj'.
  apply orb_true_iff in Hstart as [Hdig|[Hpt Hnext]%andb_prop].
  - apply scan_number_first in Hj'; [|unfold digit_or_point; by rewrite Hdig].
    rewrite (slice_cons s i j c) by (done || lia). simpl. by rewrite Hdig.
  - apply test_at_Some in Hnext as (d & Hd & Hdd). apply ceq_true in Hpt. subst c.
    rewrite (drop_cons_lookup s (S i) d Hd) in Hj'. simpl in Hj'.
    rewrite Hdd in Hj'. simpl in Hj'.
    replace (ceq d ".") with false in Hj' by (symmetry; ascii_lia).
    apply scan_number_ge in Hj'.
    rewrite (slice_cons s i j "."), (slice_cons s (S i) j d) by (done || lia).
    simpl. by rewrite Hdd.
Qed.

Lemma ident_token_shape (s : str) i c :
  s !! i = Some c -> isalpha c || ceq c "_" = true ->
  token_shape (slice s i (scan_while ident_char (drop i s) i)).
Proof.
  intros Hc Hstart. rewrite (drop_cons_lookup s i c Hc).
  assert (Hic : ident_char c = true) by ascii_lia.
  simpl. rewrite Hic.
  pose proof (scan_while_ge ident_char (drop (S i) s) (S i)).
  pose proof (scan_while_all ident_char (drop (S i) s) (S i)) as Hall.
  rewrite (slice_cons s i _ c) by (done || lia).
  apply shape_ident; [done|]. apply forallb_forall. intros x Hx.
  eapply Forall_forall in Hall; [done|]. by apply list_elem_of_In.
Qed.

Lemma tok_step_shapes s i t i' t' :
  Forall token_shape t -> tok_step s i t = Next i' t' -> Forall token_shape t'.
Proof.
  intros HI Hs. unfold tok_step in Hs. destruct (s !! i) as [c|] eqn:Hc; [|done].
  repeat case_match; simplify_eq; try done; apply Forall_app; split; try done;
    apply Forall_singleton.
  all: try (match goal with H : ceq _ "-" && _ = true |- _ =>
              apply andb_prop in H as [?%ceq_true _] end; subst c).
  all: try (apply shape_symbol; first [reflexivity | assumption]).
  - by eapply signed_token_shape.
  - by eapply unsigned_token_shape.
  - by eapply ident_token_shape.
Qed.

(** ** The states the loop reaches *)

(** The pairs [(i, tokens)] the [while] loop reaches on input [s]. *)
Inductive reach (s : str) : nat -> list str -> Prop :=
  | reach_start : reach s 0 []
  | reach_next i t i' t' : reach s i t -> tok_step s i t = Next i' t' -> reach s i' t'.

Lemma slice_single (s : str) i c : s !! i = Some c -> slice s i (S i) = [c].
Proof.
  intros Hc. rewrite (slice_cons s i (S i) c Hc) by lia.
  unfold slice. by rewrite Nat.sub_diag.
Qed.

Lemma slice_last (s : str) i k c :
  i < k -> s !! (k - 1) = Some c -> last (slice s i k) = Some c.
Proof.
  intros Hik Hc. pose proof (lookup_lt_Some _ _ _ Hc) as Hlt.
  unfold slice. rewrite last_lookup, length_take, length_drop.
  rewrite lookup_take_lt by lia. rewrite lookup_drop.
  replace (i + pred (Nat.min (k - i) (length s - i))) with (k - 1) by lia. done.
Qed.

(** Each step either skips a space or appends the slice [s[i:i']]. *)
Lemma tok_step_cases s i t i' t' :
  tok_step s i t = Next i' t' ->
  (exists c, s !! i = Some c /\ isspace c = true /\ i' = S i /\ t' = t) \/
  t' = t ++ [slice s i i'].
Proof.
  intros Hs. unfold tok_step in Hs. destruct (s !! i) as [c|] eqn:Hc; [|done].
  repeat case_match; simplify_eq; [by left; eauto 6|..];
    right; by rewrite ?(slice_single s i c Hc).
Qed.

Lemma forallb_last (p : ascii -> bool) l c :
  forallb p l = true -> last l = Some c -> p c = true.
Proof.
  intros Hl Hc%last_Some_elem_of. apply list_elem_of_In in Hc.
  by eapply forallb_forall in Hl.
Qed.

(** A token that ends with an operator or opening-bracket character is
    that character alone. *)
Lemma token_shape_last_symbol t c :
  token_shape t -> last t = Some c ->
  mem [c] valid_operators || mem [c] opening_brackets = true -> t = [c].
Proof.
  intros Hsh Hl Hm. destruct (op_open_char c Hm) as (Hd & Hi & _).
  destruct Hsh as [c' Hc' | r Hr _ | ws r Hws Hr Hne | c' cs Hc' Hcs].
  - by injection Hl as ->.
  - apply andb_prop in Hr as [Hr _]. by rewrite (forallb_last _ r c Hr Hl) in Hd.
  - apply andb_prop in Hr as [Hr _].
    rewrite app_comm_cons, last_app in Hl.
    destruct (last r) as [y|] eqn:Hy; [|by apply last_None in Hy].
    injection Hl as ->. by rewrite (forallb_last _ r c Hr Hy) in Hd.
  - rewrite last_cons in Hl. destruct (last cs) as [y|] eqn:Hy.
    + injection Hl as ->. by rewrite (forallb_last _ cs c Hcs Hy) in Hi.
    + injection Hl as ->. exfalso. assert (ident_char c = true) by (by apply ident_start_char). congruence.
Qed.

(** The invariant behind the raw look-back of line 45: when the
    character before [i] is an operator or an opening bracket, it is
    the last token. *)
Definition lookback_inv (s : str) (i : nat) (t : list str) : Prop :=
  forall c, 0 < i -> s !! (i - 1) = Some c ->
  mem [c] valid_operators || mem [c] opening_brackets = true -> last t = Some [c].

Lemma reach_shapes s i t : reach s i t -> Forall token_shape t.
Proof. induction 1; [constructor|by eapply tok_step_shapes]. Qed.

Lemma reach_lookback s i t : reach s i t -> lookback_inv s i t.
Proof.
  intros Hr. pose proof Hr as Hsh. apply reach_shapes in Hsh.
  destruct Hr as [|i t i' t' _ Hs]; [intros c Hi; lia|].
  intros c _ Hc Hm. pose proof (tok_step_progress _ _ _ _ _ Hs) as [_ Hlt].
  destruct (tok_step_cases _ _ _ _ _ Hs) as [(d & Hd & Hsp & -> & ->) | ->].
  - simpl in Hc. rewrite Nat.sub_0_r, Hd in Hc. injection Hc as ->.
    destruct (op_open_char c Hm) as (_ & _ & Hn). congruence.
  - rewrite last_snoc. f_equal. apply token_shape_last_symbol; [|by apply slice_last|done].
    by apply Forall_app in Hsh as [_ ?%Forall_inv].
Qed.

(** C17: in every state the loop reaches, the sign test of lines
    45-48 agrees with the rule of the spec, which looks only at the
    previously emitted token: the raw look-back at [expression[i - 1]]
    never changes the outcome. *)
Theorem sign_context_tokens s i t :
  reach s i t ->
  sign_context s i t = (i =? 0) || last_in t valid_operators || last_in t opening_brackets.
Proof.
  intros Hr. apply reach_lookback in Hr. unfold sign_context, test_at.
  destruct (i =? 0) eqn:Hi; [done|]. apply Nat.eqb_neq in Hi. simpl.
  destruct (s !! (i - 1)) as [c|] eqn:Hc; [|done].
  destruct (mem [c] valid_operators || mem [c] opening_brackets) eqn:Hm.
  - unfold last_in. rewrite (Hr c) by (done || lia).
    by destruct (mem [c] valid_operators), (mem [c] opening_brackets).
  - done.
Qed.

Lemma sign_context_tokens_witness :
  reach «"2+ -5"» 3 [«"2"»; «"+"»] /\
  sign_context «"2+ -5"» 3 [«"2"»; «"+"»] =
    (3 =? 0) || last_in [«"2"»; «"+"»] valid_operators ||
    last_in [«"2"»; «"+"»] opening_brackets.
Proof.
  assert (H : reach «"2+ -5"» 3 [«"2"»; «"+"»]).
  { apply (reach_next _ 2 [«"2"»; «"+"»]); [|reflexivity].
    apply (reach_next _ 1 [«"2"»]); [|reflexivity].
    apply (reach_next _ 0 []); [constructor|reflexivity]. }
  split; [exact H|]. by apply sign_context_tokens.
Defined.

Lemma scan_number_err rest j seen p :
  scan_number rest j seen = inl p ->
  j <= p /\ rest !! (p - j) = Some "."%char /\
  forallb digit_or_point (take (S (p - j)) rest) = true /\
  (seen = true \/ exists q, j <= q < p /\ rest !! (q - j) = Some "."%char).
Proof.
  revert j seen. induction rest as [|c rest IH]; intros j seen; simpl; [done|].
  destruct (isdigit c || ceq c ".") eqn:Hd; [|done].
  assert (Hdp : digit_or_point c = true) by exact Hd.
  destruct (ceq c ".") eqn:Hp.
  - apply ceq_true in Hp. subst c. destruct seen.
    + intros; simplify_eq. rewrite Nat.sub_diag. simpl. split_and!; auto.
    + intros Hk. apply IH in Hk as (Hle & Hl & Ha & _).
      replace (p - j) with (S (p - S j)) by lia. simpl.
      split_and!; [lia|done|by rewrite ?Hdp|]. right. exists j.
      rewrite Nat.sub_diag. split; [lia|done].
  - intros Hk. apply IH in Hk as (Hle & Hl & Ha & Hq).
    replace (p - j) with (S (p - S j)) by lia. simpl.
    split_and!; [lia|done|by rewrite ?Hdp|].
    destruct Hq as [->|(q & Hq & Hql)]; [by left|]. right. exists q.
    replace (q - j) with (S (q - S j)) by lia. split; [lia|done].
Qed.

Lemma scan_err_in_input (s : str) j p :
  scan_number (drop j s) j false = inl p ->
  s !! p = Some "."%char /\
  exists q, q < p /\ s !! q = Some "."%char /\
    forall k, q <= k <= p -> test_at digit_or_point s k = true.
Proof.
  intros H. apply scan_number_err in H as (Hle & Hl & Ha & [?|(q & Hq & Hql)]); [done|].
  rewrite lookup_drop in Hl, Hql.
  replace (j + (p - j)) with p in Hl by lia.
  replace (j + (q - j)) with q in Hql by lia.
  split; [done|]. exists q. split_and!; [lia|done|].
  intros k Hk. unfold test_at.
  assert (Hkt : take (S (p - j)) (drop j s) !! (k - j) = s !! k)
    by (rewrite lookup_take_lt, lookup_drop by lia; f_equal; lia).
  rewrite <- Hkt.
  destruct (take (S (p - j)) (drop j s) !! (k - j)) eqn:Ek.
  - eapply forallb_forall; [exact Ha|]. by eapply list_elem_of_In, list_elem_of_lookup_2.
  - apply lookup_ge_None in Ek. rewrite length_take, length_drop in Ek.
    apply lookup_lt_Some in Hl. lia.
Qed.

(** ** Results of [tokenize] *)

(** The text is kept: the tokens, concatenated, hold the non-space
    characters of the input in order, and nothing else that is not
    whitespace. *)
Lemma tokenize_erase_ws s ts :
  tokenize s = inl ts -> erase_ws (concat ts) = erase_ws s.
Proof.
  intros Hts.
  enough (Hq : match tokenize s with
               | inl ts' => erase_ws (concat ts') = erase_ws s | inr _ => True end)
    by (rewrite Hts in Hq; exact Hq).
  apply (tokenize_inv s (fun i t => erase_ws (concat t) = erase_ws (take i s)));
    [apply tok_step_erase| |done].
  intros i t r HI Hs. unfold tok_step in Hs.
  destruct (s !! i) eqn:Hc; [repeat case_match; simplify_eq; done|].
  simplify_eq. rewrite HI, take_ge; [done|]. by apply lookup_ge_None.
Qed.

Lemma tokenize_shapes s ts : tokenize s = inl ts -> Forall token_shape ts.
Proof.
  intros Hts.
  enough (Hq : match tokenize s with
               | inl ts' => Forall token_shape ts' | inr _ => True end)
    by (rewrite Hts in Hq; exact Hq).
  apply (tokenize_inv s (fun _ t => Forall token_shape t));
    [apply tok_step_shapes| |constructor].
  intros i t r HI Hs. unfold tok_step in Hs.
  destruct (s !! i); [repeat case_match; simplify_eq; done|by simplify_eq].
Qed.

Lemma token_shape_nonempty t : token_shape t -> t <> [].
Proof. by destruct 1 as [| r _ Hd | | ]; [| destruct r | |]. Qed.

Lemma points_app l1 l2 : points (l1 ++ l2) = points l1 + points l2.
Proof. induction l1; simpl; lia. Qed.

Lemma points_none (p : ascii -> bool) l :
  (forall c, p c = true -> ceq c "." = false) ->
  Forall (fun c => p c = true) l -> points l = 0.
Proof. intros Hp. induction 1 as [|c l Hc _ IH]; simpl; [done|]. by rewrite Hp. Qed.

Lemma token_shape_points t : token_shape t -> points t <= 1.
Proof.
  destruct 1 as [c Hc | r Hr _ | ws r Hws Hr _ | c cs Hc Hcs].
  - simpl. destruct (ceq c "."); lia.
  - apply andb_prop in Hr as [_ Hr]. by apply Nat.leb_le in Hr.
  - apply andb_prop in Hr as [_ Hr]. apply Nat.leb_le in Hr.
    simpl. rewrite points_app, (points_none isspace ws);
      [simpl; lia|intros d Hd; by apply space_not_point|done].
  - simpl. rewrite (points_none ident_char cs).
    + rewrite ident_char_not_point by ascii_lia. lia.
    + intros d Hd. by apply ident_char_not_point.
    + apply Forall_forall. intros d Hd%list_elem_of_In.
      by eapply forallb_forall in Hcs.
Qed.

(** C8: an "Invalid character" error names a character of the input,
    at its index [p], that no scanning rule of [tokenize] accepts: not
    a space, digit, letter, underscore or symbol, and a point only when
    no digit follows it. *)
Lemma tokenize_invalid_character s c p :
  tokenize s = inr (InvalidCharacter c p) ->
  s !! p = Some c /\ isspace c = false /\ isdigit c = false /\
  isalpha c = false /\ c <> "_"%char /\ symbol_char c = false /\
  (c = "."%char -> test_at isdigit s (S p) = false).
Proof.
  intros He.
  enough (Hq : match tokenize s with
               | inr (InvalidCharacter c' p') =>
                   s !! p' = Some c' /\ isspace c' = false /\ isdigit c' = false /\
                   isalpha c' = false /\ c' <> "_"%char /\ symbol_char c' = false /\
                   (c' = "."%char -> test_at isdigit s (S p') = false)
               | _ => True end)
    by (rewrite He in Hq; exact Hq).
  apply (tokenize_inv s (fun _ _ => True)); [done| |done].
  intros i t r _ Hs. unfold tok_step in Hs.
  destruct (s !! i) as [d|] eqn:Hc; [|by simplify_eq].
  repeat case_match; simplify_eq; try done.
  repeat match goal with H : _ || _ = false |- _ => apply orb_false_iff in H as [? ?] end.
  unfold symbol_char. rewrite !orb_false_iff.
  split_and!; try done.
  - intros ->. discriminate.
  - intros ->. match goal with H : ceq "." "." && _ = false |- _ =>
      rewrite ceq_refl in H; exact H end.
Qed.

(** C7: an "Invalid number format at position p" error points at a
    second decimal point of a number: the character at [p] is a point,
    and an earlier point starts a stretch of digits and points that
    reaches it. *)
Lemma tokenize_invalid_number s p :
  tokenize s = inr (InvalidNumberFormat p) ->
  s !! p = Some "."%char /\
  exists q, q < p /\ s !! q = Some "."%char /\
    forall k, q <= k <= p -> test_at digit_or_point s k = true.
Proof.
  intros He.
  enough (Hq : match tokenize s with
               | inr (InvalidNumberFormat p') =>
                   s !! p' = Some "."%char /\
                   exists q, q < p' /\ s !! q = Some "."%char /\
                     forall k, q <= k <= p' -> test_at digit_or_point s k = true
               | _ => True end)
    by (rewrite He in Hq; exact Hq).
  apply (tokenize_inv s (fun _ _ => True)); [done| |done].
  intros i t r _ Hs. unfold tok_step in Hs.
  destruct (s !! i) as [d|] eqn:Hc; [|by simplify_eq].
  repeat case_match; simplify_eq; try done;
  match goal with
  | H : scan_number _ _ false = inl _ |- _ => exact (scan_err_in_input _ _ _ H)
  end.
Qed.

Lemma token_shape_head t : token_shape t -> exists c r, t = c :: r /\ isspace c = false.
Proof.
  destruct 1 as [c Hc | r Hr Hd | ws r _ _ _ | c cs Hc _].
  - exists c, []. split; [done|]. unfold symbol_char in Hc. mem_solve; reflexivity.
  - destruct r as [|c r]; [done|]. exists c, r. split; [done|].
    apply andb_prop in Hr as [Hr _]. simpl in Hr. apply andb_prop in Hr as [Hc _].
    by destruct (run_char_facts c Hc).
  - by exists "-"%char, (ws ++ r).
  - exists c, cs. split; [done|]. ascii_lia.
Qed.

Lemma erase_ws_all_space l : Forall (fun c => isspace c = true) l -> erase_ws l = [].
Proof.
  induction 1 as [|c l Hc _ IH]; [done|]. unfold erase_ws in *.
  rewrite filter_cons_False; [done|]. by rewrite Hc.
Qed.

(** An all-whitespace input has no tokens. *)
Lemma blank_no_tokens s ts :
  Forall (fun c => isspace c = true) s -> tokenize s = inl ts -> ts = [].
Proof.
  intros Hs Ht. pose proof (tokenize_erase_ws s ts Ht) as He.
  rewrite (erase_ws_all_space s Hs) in He.
  pose proof (tokenize_shapes s ts Ht) as Hsh.
  destruct ts as [|t ts]; [done|]. apply Forall_cons in Hsh as [Ht0 _].
  destruct (token_shape_head t Ht0) as (c & r & -> & Hc).
  unfold erase_ws in He. simpl in He. rewrite filter_cons_True in He by done.
  discriminate.
Qed.

(** The position an error of [tokenize] reports ([{i}] and [{j}] in the
    messages of lines 72, 89 and 106). *)
Definition tok_error_pos (e : tok_error) : nat :=
  match e with InvalidNumberFormat p | InvalidCharacter _ p => p end.

Lemma tokenize_error_in_input s e : tokenize s = inr e -> tok_error_pos e < length s.
Proof.
  intros He.
  enough (Hq : match tokenize s with inr e' => tok_error_pos e' < length s | _ => True end)
    by (rewrite He in Hq; exact Hq).
  apply (tokenize_inv s (fun _ _ => True)); [done| |done].
  intros i t r _ Hs. unfold tok_step in Hs.
  destruct (s !! i) as [d|] eqn:Hc; [|by simplify_eq].
  repeat case_match; simplify_eq; simpl; try (by eapply lookup_lt_Some);
    match goal with
    | H : scan_number (drop ?j s) ?j false = inl ?p |- _ =>
        apply scan_err_in_input in H as [Hp _]; by eapply lookup_lt_Some
    end.
Qed.

(** There are at most as many tokens as characters. *)
Lemma tokens_length s ts : tokenize s = inl ts -> length ts <= length s.
Proof.
  intros Ht. transitivity (length (erase_ws s)); [|apply length_filter].
  rewrite <- (tokenize_erase_ws s ts Ht).
  pose proof (tokenize_shapes s ts Ht) as Hsh. clear Ht.
  induction Hsh as [|t ts Ht _ IH]; simpl; [lia|].
  destruct (token_shape_head t Ht) as (c & r & -> & Hc).
  rewrite erase_ws_app, length_app. unfold erase_ws at 1.
  rewrite filter_cons_True by done. simpl. lia.
Qed.

(** ** Claims on the whole tokenizer *)

(** C5: the loop [while i < len(expression)] of [tokenize] ends: every
    iteration advances [i], so any fuel above the length of the input
    gives the result of [tokenize]. *)
Theorem tokenize_fuel s fuel :
  length s < fuel -> tok_loop fuel s 0 [] = Some (tokenize s).
Proof. intros Hf. eapply tok_loop_mono; [apply tokenize_spec|lia]. Qed.

Lemma tokenize_fuel_witness :
  length «"sin(x) + 2.5"» < 20 /\
  tok_loop 20 «"sin(x) + 2.5"» 0 [] = Some (tokenize «"sin(x) + 2.5"»).
Proof. split; [simpl; lia|]. apply tokenize_fuel. simpl. lia. Defined.

(** C6: the tokens of a successful [tokenize] spell the input without
    its spaces, in order; each token has one of the four shapes the
    scanner produces (a one-character symbol, an unsigned number run, a
    signed number run, an identifier) and holds at most one decimal
    point. *)
Theorem tokenize_output s ts :
  tokenize s = inl ts ->
  erase_ws (concat ts) = erase_ws s /\
  Forall (fun t => token_shape t /\ points t <= 1) ts.
Proof.
  intros Ht. split; [by apply tokenize_erase_ws|].
  apply Forall_impl with token_shape; [by apply (tokenize_shapes s)|].
  intros t Hs. split; [done|by apply token_shape_points].
Qed.

Lemma tokenize_output_witness :
  tokenize «"-3.5*(x_1 - 2)"» =
    inl [«"-3.5"»; «"*"»; «"("»; «"x_1"»; «"-"»; «"2"»; «")"»] /\
  erase_ws (concat [«"-3.5"»; «"*"»; «"("»; «"x_1"»; «"-"»; «"2"»; «")"»]) =
    erase_ws «"-3.5*(x_1 - 2)"» /\
  Forall (fun t => token_shape t /\ points t <= 1)
    [«"-3.5"»; «"*"»; «"("»; «"x_1"»; «"-"»; «"2"»; «")"»].
Proof. split; [reflexivity|]. apply tokenize_output. reflexivity. Defined.

Lemma tokenize_invalid_number_witness :
  tokenize «"2..5"» = inr (InvalidNumberFormat 2) /\
  «"2..5"» !! 2 = Some "."%char /\
  exists q, q < 2 /\ «"2..5"» !! q = Some "."%char /\
    forall k, q <= k <= 2 -> test_at digit_or_point «"2..5"» k = true.
Proof. split; [reflexivity|]. apply tokenize_invalid_number. reflexivity. Defined.

Lemma tokenize_invalid_character_witness :
  tokenize «"a $ b"» = inr (InvalidCharacter "$"%char 2) /\
  «"a $ b"» !! 2 = Some "$"%char /\ isspace "$" = false /\ isdigit "$" = false /\
  isalpha "$" = false /\ "$"%char <> "_"%char /\ symbol_char "$" = false /\
  ("$"%char = "."%char -> test_at isdigit «"a $ b"» 3 = false).
Proof. split; [reflexivity|]. apply tokenize_invalid_character. reflexivity. Defined.

(** C20: a double minus before a number, as in [--5], gives the tokens
    [-] and [-5]: the first minus is emitted alone (lines 51-55), and
    the second, which follows the operator character, starts a signed
    number.  Spec.md, section 4.1, says [--5] tokenizes as two [-]
    tokens followed by [5]. *)
Theorem tokenize_double_minus r :
  is_run r = true -> existsb isdigit r = true ->
  tokenize ("-"%char :: "-"%char :: r) = inl [«"-"»; "-"%char :: r].
Proof.
  intros Hr Hd. apply andb_prop in Hr as [Hf Hp]. apply Nat.leb_le in Hp.
  destruct r as [|c r']; [done|].
  assert (Hc : digit_or_point c = true) by (simpl in Hf; by apply andb_prop in Hf as [? _]).
  destruct (run_char_facts c Hc) as (Hsp & _ & _ & _ & _ & Hm).
  set (s := "-"%char :: "-"%char :: c :: r').
  assert (Hstep : tok_step s 1 [["-"%char]] =
                  Next (3 + length r') [["-"%char]; "-"%char :: c :: r']).
  { unfold tok_step. change (s !! 1) with (Some "-"%char). cbv beta iota.
    assert (E3 : test_at (ceq "-") s 2 = false).
    { change (ceq "-" c = false). unfold ceq in *. apply bool_decide_eq_false.
      intros <-. by rewrite bool_decide_true in Hm. }
    assert (E4 : scan_while isspace (drop 2 s) 2 = 2) by (simpl; by rewrite Hsp).
    assert (E6 : scan_number (drop 2 s) 2 false = inr (3 + length r')).
    { change (drop 2 s) with (c :: r'). rewrite scan_number_whole; [done|exact Hf|cbv iota; lia]. }
    assert (E7 : slice s 1 (3 + length r') = "-"%char :: c :: r').
    { unfold slice. rewrite take_ge; [done|]. simpl. lia. }
    change (isspace "-") with false. cbv iota.
    change (ceq "-" "-" && sign_context s 1 [["-"%char]]) with true. cbv iota.
    rewrite E3, E4. change (test_at digit_or_point s 2) with (digit_or_point c).
    rewrite Hc, E6, E7. done. }
  assert (Hend : tok_step s (3 + length r') [["-"%char]; "-"%char :: c :: r'] =
                 Done (inl [["-"%char]; "-"%char :: c :: r'])).
  { unfold tok_step. rewrite lookup_ge_None_2; [done|]. simpl. lia. }
  pose proof (tokenize_spec s) as Hs.
  simpl length in Hs. simpl tok_loop in Hs. fold s in Hs.
  rewrite Hstep, Hend in Hs. by injection Hs as <-.
Qed.

Lemma tokenize_double_minus_witness :
  is_run «"2.5"» = true /\ existsb isdigit «"2.5"» = true /\
  tokenize ("-"%char :: "-"%char :: «"2.5"») = inl [«"-"»; "-"%char :: «"2.5"»].
Proof. split_and!; [reflexivity|reflexivity|]. apply tokenize_double_minus; reflexivity. Defined.


(** C21: the only tokens [tokenize] produces that [check_syntax] cannot
    classify are signed ones whose minus is followed by spaces, or
    whose run holds no digit (as [-.]): [float()] rejects both, while
    every symbol, digit run and identifier gets a category. *)
Theorem unclassified_tokens s ts t :
  tokenize s = inl ts -> t ∈ ts ->
  classify t = None <->
  exists ws r, t = "-"%char :: ws ++ r /\ Forall (fun c => isspace c = true) ws /\
               is_run r = true /\ r <> [] /\ (ws <> [] \/ existsb isdigit r = false).
Proof.
  intros Ht Hin. assert (Hsh : token_shape t)
    by (eapply Forall_forall; [apply (tokenize_shapes s ts Ht)|done]).
  split.
  - intros Hn. destruct Hsh as [c Hc | r Hr Hd | ws r Hws Hr Hne | c cs Hc Hcs].
    + by rewrite classify_symbol in Hn.
    + by rewrite classify_run in Hn.
    + exists ws, r. rewrite classify_signed in Hn by done. split_and!; try done.
      destruct ws as [|w ws]; [right|by left]. simpl in Hn.
      by destruct (existsb isdigit r).
    + by rewrite classify_ident in Hn.
  - intros (ws & r & -> & Hws & Hr & Hne & Hor). rewrite classify_signed by done.
    destruct Hor as [Hw|Hd].
    + by rewrite bool_decide_false.
    + by rewrite Hd, andb_false_r.
Qed.

Lemma unclassified_tokens_witness :
  tokenize «"2*-."» = inl [«"2"»; «"*"»; «"-."»] /\ «"-."» ∈ [«"2"»; «"*"»; «"-."»] /\
  (classify «"-."» = None <->
   exists ws r, «"-."» = "-"%char :: ws ++ r /\ Forall (fun c => isspace c = true) ws /\
                is_run r = true /\ r <> [] /\ (ws <> [] \/ existsb isdigit r = false)).
Proof.
  assert (Ht : tokenize «"2*-."» = inl [«"2"»; «"*"»; «"-."»]) by reflexivity.
  assert (Hin : «"-."» ∈ [«"2"»; «"*"»; «"-."»]) by (right; right; left).
  split_and!; [exact Ht|exact Hin|]. exact (unclassified_tokens _ _ _ Ht Hin).
Defined.

End Tokenizer.
