(* ===== verification/TokenizerLoop.v ===== *)
(** * The tokenizer loop over its reachable states

    The converse of the two error theorems of [Tokenizer]: an input
    that holds a character no scanning rule accepts, or a stretch of
    digits and points with two points (spec.md, section 8, the decimal
    invariant), makes [tokenize] (src/app.py, lines 35-107) return an
    error.  The proof follows the loop over its reachable states
    ([Tokenizer.reach]): every step either advances past one
    character that is no digit or point, or scans a number to a
    character that is none, or scans an identifier; so the loop is
    never positioned just after a point inside a stretch of digits and
    points, and the scan that reaches the second point of such a
    stretch has already seen the first. *)

From S2P Require Import Prelude PyStr Classifier Tokenizer.

Module TokenizerLoop.
Import Py Classifier Tokenizer.

(** ** The inner scans over a window of the input *)

Lemma scan_while_le p rest j : scan_while p rest j <= j + length rest.
Proof.
  revert j. induction rest as [|c rest IH]; intros j; simpl; [lia|].
  destruct (p c); [specialize (IH (S j)); lia|lia].
Qed.

Lemma scan_while_range p (s : str) j k :
  j <= k < scan_while p (drop j s) j -> test_at p s k = true.
Proof.
  intros Hk. pose proof (scan_while_all p (drop j s) j) as Hall.
  pose proof (scan_while_le p (drop j s) j) as Hle. rewrite length_drop in Hle.
  assert (Hl : take (scan_while p (drop j s) j - j) (drop j s) !! (k - j) = s !! k)
    by (rewrite lookup_take_lt, lookup_drop by lia; f_equal; lia).
  unfold test_at. destruct (s !! k) as [c|] eqn:Hs.
  - exact (Forall_lookup_1 _ _ _ _ Hall Hl).
  - apply lookup_ge_None in Hs. lia.
Qed.

Lemma scan_number_stop_gen rest j seen k :
  scan_number rest j seen = inr k ->
  match rest !! (k - j) with Some c => digit_or_point c = false | None => True end.
Proof.
  revert j seen. induction rest as [|c rest IH]; intros j seen; simpl.
  - intros [= <-]. done.
  - destruct (isdigit c || ceq c ".") eqn:Hd.
    + intros Hk. assert (Hk' : scan_number rest (S j) (seen || ceq c ".") = inr k).
      { revert Hk. destruct (ceq c "."), seen; simpl; try done; by rewrite ?orb_false_r. }
      pose proof (scan_number_ge _ _ _ _ Hk') as Hge.
      replace (k - j) with (S (k - S j)) by lia. simpl. by eapply IH.
    + intros [= <-]. by rewrite Nat.sub_diag.
Qed.

(** A number scan stops at a character that is no digit or point. *)
Lemma scan_number_stop (s : str) j seen k :
  scan_number (drop j s) j seen = inr k -> test_at digit_or_point s k = false.
Proof.
  intros Hk. pose proof (scan_number_ge _ _ _ _ Hk) as Hge.
  apply scan_number_stop_gen in Hk. rewrite lookup_drop in Hk.
  replace (j + (k - j)) with k in Hk by lia. unfold test_at. by destruct (s !! k).
Qed.

(** ** The shape of one step *)

Lemma symbol_not_digit_or_point c :
  mem [c] valid_operators || mem [c] opening_brackets || mem [c] closing_brackets = true ->
  digit_or_point c = false.
Proof. intros H. mem_solve; reflexivity. Qed.

Lemma ident_start_not_digit_or_point c :
  isalpha c || ceq c "_" = true -> digit_or_point c = false.
Proof. intros H. ascii_lia. Qed.

(** A step of the loop that continues either moves past one character
    that is no digit or point, or scans a number from [j] after
    characters that are none (the sign and the spaces after it), or
    scans an identifier, which starts with no digit or point. *)
Lemma tok_step_next_shape s i t i' t' :
  tok_step s i t = Next i' t' ->
  (i' = S i /\ test_at digit_or_point s i = false) \/
  (exists j, i <= j /\ (forall k, i <= k < j -> test_at digit_or_point s k = false) /\
             scan_number (drop j s) j false = inr i') \/
  (test_at digit_or_point s i = false /\
   forall k, i <= k < i' -> test_at ident_char s k = true).
Proof.
  intros Hs. unfold tok_step in Hs. destruct (s !! i) as [c|] eqn:Hc; [|done].
  assert (Hti : test_at digit_or_point s i = digit_or_point c) by (unfold test_at; by rewrite Hc).
  rewrite Hti. destruct (isspace c) eqn:Hsp.
  { injection Hs as <- <-. left. split; [done|]. unfold digit_or_point.
    by rewrite space_not_digit, space_not_point. }
  destruct (ceq c "-" && sign_context s i t) eqn:Hm.
  { apply andb_prop in Hm as [->%ceq_true _].
    destruct (test_at (ceq "-") s (S i)); [injection Hs as <- <-; by left|].
    destruct (test_at digit_or_point s (scan_while isspace (drop (S i) s) (S i))) eqn:Hd;
      [|injection Hs as <- <-; by left].
    destruct (scan_number _ _ false) as [p|k] eqn:Hn; [done|]. injection Hs as <- <-.
    right; left. eexists. split_and!; [|intros k' Hk'|exact Hn].
    - pose proof (scan_while_ge isspace (drop (S i) s) (S i)). lia.
    - destruct (decide (k' = i)) as [->|Hne]; [by rewrite Hti|].
      pose proof (scan_while_range isspace s (S i) k' ltac:(lia)) as Hw.
      apply test_at_Some in Hw as (d & Hd' & Hw). unfold test_at. rewrite Hd'.
      unfold digit_or_point. by rewrite space_not_digit, space_not_point. }
  destruct (isdigit c || (ceq c "." && test_at isdigit s (S i))) eqn:Hn.
  { destruct (scan_number (drop i s) i false) as [p|k] eqn:Hk; [done|].
    injection Hs as <- <-. right; left. exists i. split_and!; [done|intros; lia|done]. }
  destruct (isalpha c || ceq c "_") eqn:Ha.
  { injection Hs as <- <-. right; right. split; [by apply ident_start_not_digit_or_point|].
    intros k Hk. by apply (scan_while_range ident_char s i k). }
  destruct (mem [c] valid_operators || mem [c] opening_brackets || mem [c] closing_brackets)
    eqn:Hsym; [|done].
  injection Hs as <- <-. left. split; [done|]. by apply symbol_not_digit_or_point.
Qed.

(** ** The states the loop reaches *)

(** The loop is never positioned on a digit or point just after a
    stretch of digits and points that starts with a point. *)
Lemma reach_point_inv s i t :
  reach s i t ->
  forall q, q < i -> s !! q = Some "."%char ->
  (forall k, q <= k < i -> test_at digit_or_point s k = true) ->
  test_at digit_or_point s i = false.
Proof.
  destruct 1 as [|i t i' t' _ Hs]; intros q Hq Hp Hrun; [lia|].
  pose proof (tok_step_progress _ _ _ _ _ Hs) as [_ Hlt].
  destruct (tok_step_next_shape _ _ _ _ _ Hs) as [[-> Hd]|[(j & _ & _ & Hn)|(Hd & Hid)]].
  - rewrite Hrun in Hd; [done|lia].
  - by eapply scan_number_stop.
  - destruct (decide (q <= i)) as [Hqi|Hqi].
    + rewrite Hrun in Hd; [done|lia].
    + specialize (Hid q ltac:(lia)). unfold test_at in Hid. rewrite Hp in Hid. done.
Qed.

(** The states of the loop are those of one run: after [n] steps from
    the start the loop is where a run from a reachable state is. *)
Lemma reach_loop s i t :
  reach s i t -> exists n, forall fuel, tok_loop (n + fuel) s 0 [] = tok_loop fuel s i t.
Proof.
  induction 1 as [|i t i' t' _ [n IH] Hs]; [by exists 0|].
  exists (S n). intros fuel. replace (S n + fuel) with (n + S fuel) by lia. rewrite IH. simpl. by rewrite Hs.
Qed.

Lemma reach_done s i t r : reach s i t -> tok_step s i t = Done r -> tokenize s = r.
Proof.
  intros Hr Hs. destruct (reach_loop s i t Hr) as [n Hn].
  assert (H1 : tok_loop (n + 1) s 0 [] = Some r) by (rewrite Hn; simpl; by rewrite Hs).
  pose proof (tok_loop_mono _ _ _ _ _ H1 (n + 1 + S (length s)) ltac:(lia)) as E1.
  pose proof (tok_loop_mono _ _ _ _ _ (tokenize_spec s) (n + 1 + S (length s)) ltac:(lia))
    as E2.
  rewrite E1 in E2. by injection E2.
Qed.

(** Every position of the input is either where a reachable state
    stands, or inside the stretch a reachable state's step consumes,
    or after a reachable state that returns. *)
Lemma reach_cover s q i t :
  reach s i t -> i <= q ->
  exists i0 t0, reach s i0 t0 /\ i <= i0 <= q /\
    (i0 = q \/ match tok_step s i0 t0 with Next i' _ => q < i' | Done _ => True end).
Proof.
  remember (q - i) as n eqn:En. revert i t En.
  induction n as [n IH] using lt_wf_ind. intros i t En Hr Hi.
  destruct (decide (i = q)) as [->|Hne]; [exists q, t; by split_and!; [..|left]|].
  destruct (tok_step s i t) as [i' t'|r] eqn:Hs.
  - pose proof (tok_step_progress _ _ _ _ _ Hs) as [_ Hlt].
    destruct (decide (q < i')) as [Hq|Hq].
    + exists i, t. rewrite Hs. by split_and!; [..|lia|right].
    + destruct (IH (q - i') ltac:(lia) i' t' eq_refl (reach_next s i t i' t' Hr Hs)
        ltac:(lia)) as (i0 & t0 & ? & ? & ?).
      exists i0, t0. split_and!; [done|lia|lia|done].
  - exists i, t. rewrite Hs. by split_and!; [..|lia|right].
Qed.

Lemma tok_step_done_inl s i t x : tok_step s i t = Done (inl x) -> s !! i = None.
Proof. unfold tok_step. destruct (s !! i); [|done]. by repeat case_match. Qed.

Lemma points_slice_two (s : str) j q1 q2 k :
  j <= q1 < q2 -> q2 < k -> s !! q1 = Some "."%char -> s !! q2 = Some "."%char ->
  2 <= points (slice s j k).
Proof.
  intros Hj Hk H1 H2.
  rewrite (slice_app s j q1 k), (slice_app s q1 (S q1) k), (slice_app s (S q1) q2 k),
    (slice_app s q2 (S q2) k) by lia.
  rewrite (slice_single s q1 _ H1), (slice_single s q2 _ H2), !points_app. simpl.
  rewrite ?ceq_refl. lia.
Qed.

(** Every non-space character of a token is one a scanning rule
    accepts. *)
Lemma token_shape_chars t c :
  token_shape t -> c ∈ t -> isspace c = false ->
  symbol_char c || digit_or_point c || ident_char c = true.
Proof.
  intros Hsh Hc Hsp. destruct Hsh as [d Hd | r Hr _ | ws r Hws Hr _ | d ds Hd Hds].
  - apply list_elem_of_singleton in Hc as ->. by rewrite Hd.
  - apply andb_prop in Hr as [Hr _]. apply list_elem_of_In in Hc.
    by rewrite (proj1 (forallb_forall _ _) Hr c Hc), orb_true_r.
  - apply elem_of_cons in Hc as [->|Hc]; [reflexivity|].
    apply elem_of_app in Hc as [Hc|Hc].
    + by rewrite (proj1 (Forall_forall _ _) Hws c Hc) in Hsp.
    + apply andb_prop in Hr as [Hr _]. apply list_elem_of_In in Hc.
      by rewrite (proj1 (forallb_forall _ _) Hr c Hc), orb_true_r.
  - apply elem_of_cons in Hc as [<-|Hc].
    + assert (Hi : ident_char c = true) by (by apply ident_start_char).
      by rewrite Hi, !orb_true_r.
    + apply list_elem_of_In in Hc.
      by rewrite (proj1 (forallb_forall _ _) Hds c Hc), !orb_true_r.
Qed.

(** ** The claims *)

(** C27: the decimal invariant of spec.md, section 8: an input with
    two points in one stretch of digits and points is always rejected,
    whatever comes before and after the stretch. *)
Theorem tokenize_two_points s q1 q2 :
  q1 < q2 -> s !! q1 = Some "."%char -> s !! q2 = Some "."%char ->
  (forall k, q1 <= k <= q2 -> test_at digit_or_point s k = true) ->
  exists e, tokenize s = inr e.
Proof.
  intros Hlt H1 H2 Hrun. destruct (tokenize s) as [ts|e] eqn:Ht; [exfalso|by eexists].
  pose proof (lookup_lt_Some _ _ _ H2) as Hq2.
  destruct (reach_cover s q2 0 [] (reach_start s) ltac:(lia))
    as (i0 & t0 & Hr & [_ Hle] & Hcase).
  assert (Hat : forall i, q1 < i <= q2 -> test_at digit_or_point s i = false -> False).
  { intros i Hi Hd. rewrite Hrun in Hd; [done|lia]. }
  assert (Hinv : q1 < i0 -> False).
  { intros Hq. apply (Hat i0); [lia|]. apply (reach_point_inv s i0 t0 Hr q1 Hq H1).
    intros k Hk. apply Hrun. lia. }
  destruct (decide (i0 = q2)) as [->|Hne]; [by apply Hinv|].
  destruct Hcase as [?|Hcase]; [done|].
  destruct (tok_step s i0 t0) as [i' t'|r] eqn:Hs.
  - destruct (tok_step_next_shape _ _ _ _ _ Hs)
      as [[-> _]|[(j & Hij & Hnd & Hn)|(_ & Hid)]]; [lia| |].
    + destruct (decide (q2 < j)) as [Hj|Hj].
      { specialize (Hnd q2 ltac:(lia)). rewrite Hrun in Hnd; [done|lia]. }
      destruct (decide (j <= q1)) as [Hj1|Hj1].
      * apply scan_number_run in Hn as [_ Hp].
        pose proof (points_slice_two s j q1 q2 i' ltac:(lia) Hcase H1 H2). unfold slice in *.
        lia.
      * destruct (decide (i0 < j)) as [Hi0|Hi0]; [|apply Hinv; lia].
        specialize (Hnd (j - 1) ltac:(lia)). rewrite Hrun in Hnd; [done|lia].
    + specialize (Hid q2 ltac:(lia)). unfold test_at in Hid. by rewrite H2 in Hid.
  - rewrite (reach_done s i0 t0 r Hr Hs) in Ht. subst r.
    apply tok_step_done_inl, lookup_ge_None in Hs. lia.
Qed.

Lemma tokenize_two_points_witness :
  3 < 5 /\ «"x+1.2.3"» !! 3 = Some "."%char /\ «"x+1.2.3"» !! 5 = Some "."%char /\
  exists e, tokenize «"x+1.2.3"» = inr e.
Proof.
  split_and!; [lia|reflexivity|reflexivity|].
  apply (tokenize_two_points _ 3 5); [lia|reflexivity|reflexivity|].
  intros k Hk. destruct (decide (k = 3)) as [->|]; [reflexivity|].
  destruct (decide (k = 4)) as [->|]; [reflexivity|].
  replace k with 5 by lia. reflexivity.
Defined.

(** C28: an input that holds a character no scanning rule accepts (no
    space, digit, point, letter, underscore, operator or bracket) is
    rejected: [tokenize] never drops a character silently. *)
Theorem tokenize_rejects_foreign s c :
  c ∈ s -> isspace c = false -> symbol_char c = false -> digit_or_point c = false ->
  ident_char c = false -> exists e, tokenize s = inr e.
Proof.
  intros Hc Hsp Hsy Hd Hi. destruct (tokenize s) as [ts|e] eqn:Ht; [exfalso|by eexists].
  assert (Hc' : c ∈ erase_ws s) by (apply list_elem_of_filter; split; [by rewrite Hsp|done]).
  rewrite <- (tokenize_erase_ws s ts Ht) in Hc'.
  apply list_elem_of_filter in Hc' as [_ Hc']. apply list_elem_of_In, in_concat in Hc'
    as (t & Hin & Hct).
  apply list_elem_of_In in Hin, Hct.
  pose proof (token_shape_chars t c
    (proj1 (Forall_forall _ _) (tokenize_shapes s ts Ht) t Hin) Hct Hsp) as Hok.
  by rewrite Hsy, Hd, Hi in Hok.
Qed.

Lemma tokenize_rejects_foreign_witness :
  "#"%char ∈ «"(1 + 2) # 3"» /\ exists e, tokenize «"(1 + 2) # 3"» = inr e.
Proof.
  assert (Hin : "#"%char ∈ «"(1 + 2) # 3"») by (apply list_elem_of_In; simpl; tauto).
  split; [exact Hin|]. apply (tokenize_rejects_foreign _ "#"%char Hin); reflexivity.
Defined.

End TokenizerLoop.
