(* ===== verification/Brackets.v ===== *)
(** * Bracket nesting: the abstract specification and the stack discipline

    [nested] is the abstract specification of a properly nested
    sequence of bracket tokens (the Dyck language over the three pairs
    of [bracket_pairs]).  [close_bracket] is the code's treatment of a
    closing bracket in [check_syntax] (src/app.py, lines 213-218):
    pop [self.stack], fail on an empty stack or on a popped opener
    that does not pair with the closer.  [run_stack] runs the whole
    discipline (push at lines 211-212) over a token sequence; the
    theorem [run_stack_nested] shows that it accepts with an empty
    stack exactly the nested sequences. *)

From S2P Require Import Prelude PyStr Classifier.

Module Brackets.
Import Py Classifier.

(** ** Specification *)

(** [o] opens what [c] closes. *)
Definition pairs (o c : str) : Prop := lookup_pair c bracket_pairs = Some o.

Inductive nested : list str -> Prop :=
  | nested_nil : nested []
  | nested_wrap o c w : pairs o c -> nested w -> nested (o :: w ++ [c])
  | nested_app w1 w2 : nested w1 -> nested w2 -> nested (w1 ++ w2).

(** A bracket token, opening or closing. *)
Definition is_bracket (t : str) : bool :=
  mem t opening_brackets || mem t closing_brackets.

(** ** The code's stack discipline *)

(** The outcome of [last_open = self.stack.pop()] and the pairing test
    for a closing bracket [token]: the stack is top-first. *)
Inductive close_result :=
  | CloseOk (stk : list str)
  | CloseEmpty
  | CloseMismatch (last_open : str) (stk : list str).

Definition close_bracket (token : str) (stk : list str) : close_result :=
  match stk with
  | [] => CloseEmpty
  | last_open :: stk' =>
      if bool_decide (Some last_open = lookup_pair token bracket_pairs)
      then CloseOk stk' else CloseMismatch last_open stk'
  end.

(** One token of the discipline: push an opener, pop a closer, leave
    any other token; [None] when the code returns an error. *)
Definition bracket_step (stk : list str) (token : str) : option (list str) :=
  if mem token opening_brackets then Some (token :: stk)
  else if mem token closing_brackets then
    match close_bracket token stk with CloseOk stk' => Some stk' | _ => None end
  else Some stk.

Fixpoint run_stack (stk : list str) (ts : list str) : option (list str) :=
  match ts with
  | [] => Some stk
  | t :: ts' =>
      match bracket_step stk t with
      | Some stk' => run_stack stk' ts'
      | None => None
      end
  end.

(** ** Lemmas *)

Lemma pairs_cases o c :
  pairs o c ->
  (o, c) = («"("», «")"») \/ (o, c) = («"["», «"]"») \/ (o, c) = («"{"», «"}"»).
Proof.
  unfold pairs, lookup_pair, bracket_pairs. intros Hl.
  repeat case_bool_decide; simplify_eq; auto.
Qed.

Lemma pairs_opener o c : pairs o c -> mem o opening_brackets = true.
Proof. intros [H|[H|H]]%pairs_cases; by simplify_eq. Qed.

Lemma pairs_closer o c :
  pairs o c -> mem c closing_brackets = true /\ mem c opening_brackets = false.
Proof. intros [H|[H|H]]%pairs_cases; by simplify_eq. Qed.

Lemma bracket_step_open stk o :
  mem o opening_brackets = true -> bracket_step stk o = Some (o :: stk).
Proof. unfold bracket_step. by intros ->. Qed.

Lemma bracket_step_close stk o c :
  pairs o c -> bracket_step (o :: stk) c = Some stk.
Proof.
  intros Hp. unfold bracket_step, close_bracket.
  destruct (pairs_closer o c Hp) as [-> ->].
  rewrite bool_decide_true; [done|]. by rewrite Hp.
Qed.

Lemma bracket_step_other stk t : is_bracket t = false -> bracket_step stk t = Some stk.
Proof.
  unfold is_bracket, bracket_step. intros [-> ->]%orb_false_iff. done.
Qed.

Lemma run_stack_app stk w1 w2 :
  run_stack stk (w1 ++ w2) =
  match run_stack stk w1 with Some stk' => run_stack stk' w2 | None => None end.
Proof.
  revert stk. induction w1 as [|t w1 IH]; intros stk; simpl; [done|].
  destruct (bracket_step stk t); [apply IH|done].
Qed.

(** Tokens that are not brackets leave the stack alone. *)
Lemma run_stack_filter stk w :
  run_stack stk w = run_stack stk (filter (fun t => is_bracket t = true) w).
Proof.
  revert stk. induction w as [|t w IH]; intros stk; simpl; [done|].
  destruct (is_bracket t) eqn:Hb.
  - rewrite filter_cons_True by done. simpl. by destruct (bracket_step stk t).
  - rewrite filter_cons_False by (by rewrite Hb). rewrite bracket_step_other by done.
    apply IH.
Qed.

(** A nested sequence returns the stack it started from. *)
Lemma nested_run w : nested w -> forall stk, run_stack stk w = Some stk.
Proof.
  induction 1 as [|o c w Hp Hw IH|w1 w2 _ IH1 _ IH2]; intros stk; simpl.
  - done.
  - rewrite bracket_step_open by (by eapply pairs_opener).
    rewrite run_stack_app, IH. simpl. by rewrite bracket_step_close.
  - by rewrite run_stack_app, IH1, IH2.
Qed.

(** A matched pair may be inserted anywhere in a nested sequence. *)
Lemma nested_insert x o c :
  nested x -> pairs o c -> forall u v, x = u ++ v -> nested (u ++ o :: c :: v).
Proof.
  intros Hx Hp. induction Hx as [|o' c' w Hp' Hw IH|w1 w2 H1 IH1 H2 IH2];
    intros u v Huv.
  - symmetry in Huv. apply app_eq_nil in Huv as [-> ->].
    apply (nested_wrap o c []); [done|constructor].
  - destruct u as [|o'' u']; simpl in Huv.
    + subst v. apply (nested_app [o; c]); [apply (nested_wrap o c []); [done|constructor]|].
      by constructor.
    + injection Huv as -> Huv.
      destruct (decide (v = [])) as [->|Hv].
      * rewrite app_nil_r in Huv. subst u'. rewrite app_comm_cons.
        apply nested_app; [by constructor|].
        apply (nested_wrap o c []); [done|constructor].
      * destruct (exists_last Hv) as (v' & x & ->).
        rewrite app_assoc in Huv. apply app_inj_tail in Huv as [Hw' Hx]. subst.
        replace ((o'' :: u') ++ o :: c :: v' ++ [x])
          with (o'' :: (u' ++ o :: c :: v') ++ [x]) by (by rewrite <- app_assoc).
        constructor; [done|]. by apply IH.
  - apply app_eq_app in Huv as (m & [[-> ->]|[-> ->]]).
    + replace (u ++ o :: c :: m ++ w2) with ((u ++ o :: c :: m) ++ w2)
        by (by rewrite <- app_assoc).
      apply nested_app; [by apply IH1|done].
    + rewrite <- app_assoc. apply nested_app; [done|by apply IH2].
Qed.

(** A run that empties the stack from openers [stk] reads a nested
    sequence once the pending openers are put back in front. *)
Lemma run_nested w : forall stk,
  Forall (fun t => is_bracket t = true) w ->
  Forall (fun t => mem t opening_brackets = true) stk ->
  run_stack stk w = Some [] -> nested (reverse stk ++ w).
Proof.
  induction w as [|t w IH]; intros stk Hw Hstk Hrun; simpl in Hrun.
  - simplify_eq. constructor.
  - apply Forall_cons in Hw as [Ht Hw].
    unfold bracket_step in Hrun. destruct (mem t opening_brackets) eqn:Ho.
    + apply IH in Hrun; [|done|by constructor].
      by rewrite reverse_cons, <- app_assoc in Hrun.
    + unfold is_bracket in Ht. rewrite Ho in Ht. simpl in Ht. rewrite Ht in Hrun.
      destruct stk as [|o stk']; simpl in Hrun; [done|].
      case_bool_decide as Hpair; [|done].
      apply Forall_cons in Hstk as [_ Hstk'].
      apply IH in Hrun; [|done|done].
      rewrite reverse_cons, <- app_assoc. simpl.
      by apply (nested_insert _ o t Hrun).
Qed.

Lemma filter_brackets w :
  Forall (fun t => is_bracket t = true) (filter (fun t => is_bracket t = true) w).
Proof. apply Forall_forall. intros t Ht. by apply list_elem_of_filter in Ht as [? _]. Qed.

Lemma run_stack_empty_nested w :
  run_stack [] w = Some [] -> nested (filter (fun t => is_bracket t = true) w).
Proof.
  rewrite run_stack_filter. intros H.
  apply (run_nested _ []) in H; [done|apply filter_brackets|constructor].
Qed.

Lemma nested_run_stack_empty w :
  nested (filter (fun t => is_bracket t = true) w) -> run_stack [] w = Some [].
Proof. rewrite run_stack_filter. intros H. by apply nested_run. Qed.

(** C3: the stack discipline of [check_syntax] (push an opening
    bracket, pop and pair a closing one, ignore other tokens) ends with
    an empty stack and no error exactly when the bracket tokens of the
    sequence are properly nested. *)
Theorem run_stack_nested w :
  run_stack [] w = Some [] <-> nested (filter (fun t => is_bracket t = true) w).
Proof. split; [apply run_stack_empty_nested|apply nested_run_stack_empty]. Qed.

Lemma run_stack_openers stk w stk' :
  Forall (fun t => mem t opening_brackets = true) stk -> run_stack stk w = Some stk' ->
  Forall (fun t => mem t opening_brackets = true) stk'.
Proof.
  revert stk. induction w as [|t w IH]; intros stk Hs Hr; simpl in Hr; [by simplify_eq|].
  destruct (bracket_step stk t) as [stk1|] eqn:Hb; [|done]. apply (IH stk1); [|done].
  unfold bracket_step in Hb. destruct (mem t opening_brackets) eqn:Ho.
  { injection Hb as <-. by constructor. }
  destruct (mem t closing_brackets); [|by injection Hb as <-].
  unfold close_bracket in Hb. destruct stk as [|o stk0]; [done|].
  apply Forall_cons in Hs as [_ Hs]. case_bool_decide; by simplify_eq.
Qed.

Lemma opener_pairs o : mem o opening_brackets = true -> exists c, pairs o c.
Proof.
  intros Ho. mem_solve;
    first [exists «")"»; reflexivity | exists «"]"»; reflexivity | exists «"}"»; reflexivity].
Qed.

(** A stack of openers is emptied by their closers, in stack order. *)
Lemma close_all stk :
  Forall (fun t => mem t opening_brackets = true) stk ->
  exists cs, Forall2 pairs stk cs /\ run_stack stk cs = Some [].
Proof.
  induction 1 as [|o stk Ho _ [cs [Hp Hr]]]; [by exists []|].
  destruct (opener_pairs o Ho) as [c Hc]. exists (c :: cs). split; [by constructor|].
  simpl. by rewrite bracket_step_close.
Qed.

(** C30: the bracket-stack invariant of spec.md, section 3: after a
    prefix [w] of the tokens, the stack holds exactly the openers of
    [w] not yet closed: closing them in stack order (top first)
    completes the brackets of [w] to a properly nested sequence. *)
Theorem stack_unmatched w stk :
  run_stack [] w = Some stk ->
  exists cs, Forall2 pairs stk cs /\
             nested (filter (fun t => is_bracket t = true) (w ++ cs)).
Proof.
  intros Hr. destruct (close_all stk) as (cs & Hp & Hc);
    [by apply (run_stack_openers [] w)|].
  exists cs. split; [done|]. apply run_stack_empty_nested.
  by rewrite run_stack_app, Hr.
Qed.

Lemma stack_unmatched_witness :
  run_stack [] [«"("»; «"x"»; «"["»; «"y"»] = Some [«"["»; «"("»] /\
  exists cs, Forall2 pairs [«"["»; «"("»] cs /\
    nested (filter (fun t => is_bracket t = true) ([«"("»; «"x"»; «"["»; «"y"»] ++ cs)).
Proof. split; [reflexivity|]. apply stack_unmatched. reflexivity. Defined.

End Brackets.
