(* ===== verification/Grammar.v ===== *)
(** * The accepted language, stated without the code's control flow

    An abstract specification of the token sequences [check_syntax]
    accepts (spec.md, section 4.3, as the code implements it): every
    token has a category; the first token is no operator other than
    [-], and a leading [-] is followed by an operand; each pair of
    adjacent tokens obeys the adjacency table [follows]; the last token
    is no operator; and the bracket tokens are properly nested
    ([Brackets.nested]).  [Validator] proves that the fail-fast walk of
    the code decides exactly this language. *)

From S2P Require Import Prelude PyStr Classifier Brackets.

Module Grammar.
Import Py Classifier Brackets.

(** Categories that start an operand. *)
Definition operand_type (ty : token_type) : bool :=
  match ty with
  | TNumber | TVariable | TFunction | TOpenBracket => true
  | _ => false
  end.

Definition operand (t : str) : bool :=
  match classify t with Some ty => operand_type ty | None => false end.

(** May a token [b] of category [tb] follow a token of category [ta]?
    A function is followed by an opening bracket; an operator by an
    operand or by a [-]; a number or variable by anything but a
    number; an opening bracket by anything but a closing bracket; a
    closing bracket by anything but a number; rules on the previous
    category do not apply to an operator. *)
Definition follows (ta tb : token_type) (b : str) : bool :=
  match ta with
  | TFunction => bool_decide (tb = TOpenBracket)
  | TOperator => operand b || bool_decide (b = «"-"»)
  | TNumber | TVariable | TCloseBracket => bool_decide (tb <> TNumber)
  | TOpenBracket => bool_decide (tb <> TCloseBracket)
  end.

(** The tokens after one of category [ta]: each classified and
    following its predecessor, and no operator last. *)
Fixpoint chain (ta : token_type) (ts : list str) : bool :=
  match ts with
  | [] => negb (bool_decide (ta = TOperator))
  | b :: rest =>
      match classify b with
      | Some tb => follows ta tb b && chain tb rest
      | None => false
      end
  end.

(** The first token: no operator other than [-], and [-] followed by
    an operand. *)
Definition start_ok (t0 : str) (ty0 : token_type) (rest : list str) : bool :=
  (negb (bool_decide (ty0 = TOperator)) || bool_decide (t0 = «"-"»)) &&
  (negb (bool_decide (t0 = «"-"»)) ||
   match rest with b :: _ => operand b | [] => false end).

Definition accepts (ts : list str) : Prop :=
  match ts with
  | [] => False
  | t0 :: rest =>
      exists ty0, classify t0 = Some ty0 /\ start_ok t0 ty0 rest = true /\
                  chain ty0 rest = true /\
                  nested (filter (fun t => is_bracket t = true) ts)
  end.

(** ** The code's tests, in terms of categories *)

(** Line 194-195's test on the token after an operator (without the
    [-] case) holds exactly of operands. *)
Lemma operand_start_classify b :
  is_number b || is_variable b || is_function b || mem b opening_brackets = operand b.
Proof.
  unfold operand, classify.
  destruct (is_number b); [done|]. destruct (is_function b); [by rewrite orb_true_r|].
  destruct (is_variable b); [done|]. simpl.
  destruct (mem b valid_operators) eqn:Ho;
    [|by destruct (mem b opening_brackets), (mem b closing_brackets)].
  simpl. unfold mem in *. apply bool_decide_eq_true in Ho.
  apply bool_decide_eq_false. intros Hb. mem_solve.
Qed.

(** Lines 130-143 accept exactly an operand after a leading minus. *)
Lemma unary_operand_allowed b :
  allowed_after_unary_minus (unary_operand_type b) = operand b.
Proof.
  rewrite <- operand_start_classify. unfold unary_operand_type.
  destruct (is_number b); [done|]. destruct (is_function b); [by rewrite orb_true_r|].
  destruct (is_variable b); [done|]. by destruct (mem b opening_brackets).
Qed.

Lemma classify_operator_mem t : classify t = Some TOperator -> mem t valid_operators = true.
Proof.
  unfold classify. by repeat case_match.
Qed.

Lemma classify_opening t :
  classify t = Some TOpenBracket -> mem t opening_brackets = true.
Proof. unfold classify. by repeat case_match. Qed.

Lemma classify_closing t :
  classify t = Some TCloseBracket ->
  mem t closing_brackets = true /\ mem t opening_brackets = false.
Proof. unfold classify. by repeat case_match. Qed.

Lemma bracket_classify t :
  is_bracket t = true ->
  classify t = Some TOpenBracket \/ classify t = Some TCloseBracket.
Proof. unfold is_bracket. intros H. mem_solve; [left|left|left|right|right|right]; done. Qed.

Lemma classify_not_bracket t ty :
  classify t = Some ty -> ty <> TOpenBracket -> ty <> TCloseBracket ->
  is_bracket t = false.
Proof.
  intros Ht Ho Hc. destruct (is_bracket t) eqn:Hb; [|done].
  by destruct (bracket_classify t Hb) as [H|H]; rewrite H in Ht; simplify_eq.
Qed.

(** ** Tokens the grammar does not tell apart *)

(** Replacing the token right after [a] by one of the same category
    that follows [a] alike leaves [chain] unchanged. *)
Lemma chain_swap_after ta pre a ta' b1 b2 tb post :
  classify a = Some ta' -> classify b1 = Some tb -> classify b2 = Some tb ->
  follows ta' tb b1 = follows ta' tb b2 ->
  chain ta (pre ++ a :: b1 :: post) = chain ta (pre ++ a :: b2 :: post).
Proof.
  intros Ha H1 H2 Hf. revert ta. induction pre as [|c pre IH]; intros ta; simpl.
  - by rewrite Ha, H1, H2, Hf.
  - destruct (classify c); [by rewrite IH|done].
Qed.

(** Replacing the last token by one that follows every category alike
    and may end the sequence alike leaves [chain] unchanged. *)
Lemma chain_swap_last ta pre b1 b2 tb1 tb2 :
  classify b1 = Some tb1 -> classify b2 = Some tb2 ->
  (forall ta', follows ta' tb1 b1 = follows ta' tb2 b2) -> chain tb1 [] = chain tb2 [] ->
  chain ta (pre ++ [b1]) = chain ta (pre ++ [b2]).
Proof.
  intros H1 H2 Hf He. revert ta. induction pre as [|c pre IH]; intros ta; simpl.
  - rewrite H1, H2, Hf. simpl in He. by rewrite He.
  - destruct (classify c); [by rewrite IH|done].
Qed.

(** [start_ok] looks at the rest only through whether its first token
    is an operand. *)
Lemma start_ok_rest t0 ty0 r1 r2 :
  (match r1 with b :: _ => operand b | [] => false end) =
  (match r2 with b :: _ => operand b | [] => false end) ->
  start_ok t0 ty0 r1 = start_ok t0 ty0 r2.
Proof. unfold start_ok. by intros ->. Qed.

Lemma filter_not_bracket l1 t l2 :
  is_bracket t = false ->
  filter (fun t => is_bracket t = true) (l1 ++ t :: l2) =
  filter (fun t => is_bracket t = true) (l1 ++ l2).
Proof. intros Ht. rewrite !filter_app, filter_cons_False; [done|by rewrite Ht]. Qed.

(** Two sequences with the same first token whose rests [start_ok],
    [chain] and the bracket filter do not tell apart. *)
Lemma accepts_congr t0 r1 r2 :
  (forall ty0, classify t0 = Some ty0 ->
     start_ok t0 ty0 r1 = start_ok t0 ty0 r2 /\ chain ty0 r1 = chain ty0 r2) ->
  filter (fun t => is_bracket t = true) r1 = filter (fun t => is_bracket t = true) r2 ->
  accepts (t0 :: r1) <-> accepts (t0 :: r2).
Proof.
  intros H Hf. unfold accepts. rewrite !filter_cons, Hf.
  split; intros (ty0 & Hc & Hs & Hch & Hn); exists ty0; destruct (H ty0 Hc) as [E1 E2];
    rewrite ?E1, ?E2 in *; rewrite <- ?E1, <- ?E2 in *; auto.
Qed.

(** Right after an opening bracket the grammar does not tell the
    operators apart. *)
Lemma accepts_open_operator pre b o1 o2 post :
  classify b = Some TOpenBracket -> classify o1 = Some TOperator ->
  classify o2 = Some TOperator ->
  accepts (pre ++ b :: o1 :: post) <-> accepts (pre ++ b :: o2 :: post).
Proof.
  intros Hb H1 H2.
  assert (Hfl : forall l, filter (fun t => is_bracket t = true) (l ++ b :: o1 :: post) =
                          filter (fun t => is_bracket t = true) (l ++ b :: o2 :: post)).
  { intros l. rewrite !(cons_middle b), !app_assoc, !filter_not_bracket;
      [done| |]; by eapply classify_not_bracket. }
  destruct pre as [|t0 pre]; simpl; apply accepts_congr.
  - intros ty0 Hty. rewrite Hb in Hty. injection Hty as <-. split.
    + apply start_ok_rest. unfold operand. by rewrite H1, H2.
    + simpl. by rewrite H1, H2.
  - pose proof (filter_not_bracket [] o1 post) as E1.
    pose proof (filter_not_bracket [] o2 post) as E2. simpl in E1, E2.
    rewrite E1, E2; [done| |]; by eapply classify_not_bracket.
  - intros ty0 _. split.
    + apply start_ok_rest. by destruct pre.
    + by apply (chain_swap_after _ _ _ TOpenBracket _ _ TOperator).
  - apply Hfl.
Qed.

(** The grammar treats a function name as the last token as it treats
    a variable: the bracket requirement needs a next token. *)
Lemma accepts_last_function pre f x :
  classify f = Some TFunction -> classify x = Some TVariable ->
  accepts (pre ++ [f]) <-> accepts (pre ++ [x]).
Proof.
  intros Hf Hx.
  assert (Hbf : is_bracket f = false) by (by eapply classify_not_bracket).
  assert (Hbx : is_bracket x = false) by (by eapply classify_not_bracket).
  assert (Hfo : forall ta', follows ta' TFunction f = follows ta' TVariable x)
    by (intros []; simpl; unfold operand; by rewrite ?Hf, ?Hx).
  destruct pre as [|t0 pre]; simpl.
  - assert (Hm : forall t ty, classify t = Some ty -> ty <> TOperator -> t <> «"-"»)
      by (intros t ty Ht Hty ->; vm_compute in Ht; congruence).
    assert (Hn : forall t, is_bracket t = false ->
                   nested (filter (fun t => is_bracket t = true) [t]))
      by (intros t Ht; pose proof (filter_not_bracket [] t [] Ht) as E; simpl in E;
          rewrite E; constructor).
    assert (Ex : bool_decide (x = «"-"») = false)
      by (apply bool_decide_false; apply (Hm x TVariable); [done|discriminate]).
    assert (Ef : bool_decide (f = «"-"») = false)
      by (apply bool_decide_false; apply (Hm f TFunction); [done|discriminate]).
    unfold accepts, start_ok. rewrite Ex, Ef.
    split; intros _; [exists TVariable|exists TFunction]; split_and!; auto.
  - apply accepts_congr.
    + intros ty0 _. split.
      * apply start_ok_rest. destruct pre; simpl; [unfold operand; by rewrite Hf, Hx|done].
      * by apply (chain_swap_last _ _ _ _ _ _ Hf Hx Hfo).
    + by rewrite (filter_not_bracket pre f []), (filter_not_bracket pre x []).
Qed.

End Grammar.
