(* ===== verification/Validator.v ===== *)
(** * The checks of [MathSyntaxChecker.check_syntax] on the token list
      (src/app.py, lines 117-227)

    The checker object is the record [checker]; its only mutable field
    is [self.stack], kept top of the stack first (the code appends and
    pops at the end of a Python list, so the Python list is the
    reverse).  The vocabularies of [__init__] are the constants of
    [Classifier].  [check_token_list] takes the checker and the tokens
    and returns the updated checker with the outcome: the early
    returns of lines 117-144, then [self.stack = []] and the walk
    [walk] of lines 148-221, then the unmatched-opener test of lines
    224-227.  [CheckSyntax] adds the blank test and [tokenize] in
    front.  Errors are the values of [syntax_error]; [error_message]
    builds the strings the code returns. *)

From S2P Require Import Prelude PyStr Classifier Tokenizer Brackets Grammar.

Module Validator.
Import Py Classifier Tokenizer Brackets Grammar.

(** ** State *)

Record checker := mk_checker { stack : list str }.

(** [MathSyntaxChecker()]: [__init__] sets [self.stack = []]. *)
Definition init_checker : checker := {| stack := [] |}.

(** ** Errors *)

Inductive syntax_error :=
  | EmptyExpression                                    (* line 111 *)
  | LexicalError (e : tok_error)                        (* line 115 *)
  | NoValidTokens                                      (* line 118 *)
  | StartsWithOperator (token : str)                   (* line 122 *)
  | OnlyMinus                                          (* line 128 *)
  | InvalidAfterUnaryMinus (token : str)               (* line 144 *)
  | UnrecognizedToken (token : str) (i : nat)          (* line 168 *)
  | StartsWithOperatorInLoop (token : str)             (* line 172 *)
  | FunctionWithoutBracket (prev_token : str)          (* line 177 *)
  | EndsWithOperator                                   (* line 188 *)
  | ExpectedAfterOperator (pos : nat)                  (* line 197 *)
  | ExpectedAfterOperand (prev : token_type) (i : nat) (* line 201 *)
  | ExpectedAfterOpenBracket (i : nat)                 (* line 205 *)
  | ExpectedAfterCloseBracket (i : nat)                (* line 208 *)
  | UnmatchedClosingBracket (token : str) (i : nat)    (* line 215 *)
  | MismatchedBracketPair (last_open token : str) (i : nat) (* line 218 *)
  | UnmatchedOpeningBrackets (stack : list str).       (* line 225 *)

Definition error_message (e : syntax_error) : string :=
  match e with
  | EmptyExpression => "Error: Empty expression"
  | LexicalError te => tok_error_message te
  | NoValidTokens => "Error: No valid tokens found in expression"
  | StartsWithOperator t =>
      "Error: Expression cannot start with the operator '" +:+ str_text t +:+ "'"
  | OnlyMinus => "Error: Expression cannot consist of only a minus sign"
  | InvalidAfterUnaryMinus t =>
      "Error: Invalid token '" +:+ str_text t +:+ "' after unary minus"
  | UnrecognizedToken t i =>
      "Error: Unrecognized token '" +:+ str_text t +:+ "' at position " +:+ int_str i
  | StartsWithOperatorInLoop t =>
      "Error: Expression cannot start with operator '" +:+ str_text t +:+ "'"
  | FunctionWithoutBracket t =>
      "Error: Function '" +:+ str_text t +:+ "' must be followed by an opening bracket"
  | EndsWithOperator => "Error: Expression cannot end with an operator"
  | ExpectedAfterOperator p =>
      "Error: Expected number, variable, function, or opening bracket after operator at position "
      +:+ int_str p
  | ExpectedAfterOperand ty i =>
      "Error: Expected operator, closing bracket, or implicit multiplication after "
      +:+ type_name ty +:+ " at position " +:+ int_str i
  | ExpectedAfterOpenBracket i =>
      "Error: Expected number, variable, function, or opening bracket after opening bracket at position "
      +:+ int_str i
  | ExpectedAfterCloseBracket i =>
      "Error: Expected operator, closing bracket, or implicit multiplication after closing bracket at position "
      +:+ int_str i
  | UnmatchedClosingBracket t i =>
      "Error: Unmatched closing bracket '" +:+ str_text t +:+ "' at position " +:+ int_str i
  | MismatchedBracketPair lo t i =>
      "Error: Mismatched bracket pair '" +:+ str_text lo +:+ "' and '" +:+ str_text t +:+
      "' at position " +:+ int_str i
  | UnmatchedOpeningBrackets stk =>
      "Error: Unmatched opening brackets: " +:+ join ", " (map str_text stk)
  end.

(** The [(valid, message)] pair returned for a verdict. *)
Definition verdict (r : option syntax_error) : bool * string :=
  match r with
  | None => (true, "Expression syntax is valid")
  | Some e => (false, error_message e)
  end.

(** ** The walk *)

(** [token_type in [...]] for the lists of lines 198-207. *)
Definition type_in (ty : token_type) (l : list token_type) : bool :=
  bool_decide (ty ∈ l).

(** Lines 186-208: the sequence checks of token [i] of category [ty],
    after a token of category [prev]; [rest] is [tokens[i + 1:]]. *)
Definition sequence_check (i : nat) (prev : option token_type)
    (ty : token_type) (token : str) (rest : list str) : option syntax_error :=
  if bool_decide (ty = TOperator) then
    match rest with
    | [] => Some EndsWithOperator
    | next_token :: _ =>
        if is_number next_token || is_variable next_token ||
           is_function next_token || mem next_token opening_brackets ||
           (bool_decide (next_token = «"-"») && mem token valid_operators)
        then None else Some (ExpectedAfterOperator (S i))
    end
  else
    match prev with
    | Some ((TNumber | TVariable) as p) =>
        if type_in ty [TOperator; TCloseBracket; TOpenBracket; TFunction; TVariable]
        then None else Some (ExpectedAfterOperand p i)
    | Some TOpenBracket =>
        if type_in ty [TNumber; TVariable; TFunction; TOpenBracket; TOperator]
        then None else Some (ExpectedAfterOpenBracket i)
    | Some TCloseBracket =>
        if type_in ty [TOperator; TCloseBracket; TOpenBracket; TFunction; TVariable]
        then None else Some (ExpectedAfterCloseBracket i)
    | _ => None
    end.

(** Lines 170-208: the checks made at token [i] of category [ty],
    whose predecessor [prev_token] has category [prev]. *)
Definition token_checks (i : nat) (prev : option token_type) (prev_token : str)
    (ty : token_type) (token : str) (rest : list str) : option syntax_error :=
  if (i =? 0) && bool_decide (ty = TOperator) && negb (bool_decide (token = «"-"»))
  then Some (StartsWithOperatorInLoop token)
  else if bool_decide (prev = Some TFunction) && negb (bool_decide (ty = TOpenBracket))
  then Some (FunctionWithoutBracket prev_token)
  else sequence_check i prev ty token rest.

(** Lines 210-218: push an opening bracket, pop and pair a closing
    one; [inr] carries the stack at the early return and its error. *)
Definition bracket_bookkeeping (i : nat) (ty : token_type) (token : str)
    (stk : list str) : list str + (list str * syntax_error) :=
  if bool_decide (ty = TOpenBracket) then inl (token :: stk)
  else if bool_decide (ty = TCloseBracket) then
    match close_bracket token stk with
    | CloseEmpty => inr (stk, UnmatchedClosingBracket token i)
    | CloseMismatch lo stk' => inr (stk', MismatchedBracketPair lo token i)
    | CloseOk stk' => inl stk'
    end
  else inl stk.

(** Lines 150-221: the loop over [tokens[i:]] with [prev_token_type],
    the previous token [tokens[i - 1]] and [self.stack]; it returns the
    stack when it stops and the error of an early return, [None] when
    the loop runs to its end. *)
Fixpoint walk (i : nat) (prev : option token_type) (prev_token : str)
    (stk : list str) (ts : list str) : list str * option syntax_error :=
  match ts with
  | [] => (stk, None)
  | token :: rest =>
    match classify token with
    | None => (stk, Some (UnrecognizedToken token i))
    | Some ty =>
      match token_checks i prev prev_token ty token rest with
      | Some e => (stk, Some e)
      | None =>
        match bracket_bookkeeping i ty token stk with
        | inr (stk', e) => (stk', Some e)
        | inl stk' => walk (S i) (Some ty) token stk' rest
        end
      end
    end
  end.

(** Lines 149-227: walk from the stack [stk0], then test for unmatched
    openers. *)
Definition check_tokens (stk0 : list str) (tokens : list str)
  : list str * option syntax_error :=
  match walk 0 None [] stk0 tokens with
  | (stk, Some e) => (stk, Some e)
  | (stk, None) =>
      (stk, match stk with [] => None | _ => Some (UnmatchedOpeningBrackets (reverse stk)) end)
  end.

(** Lines 117-227: the checks on the token list, returning the checker
    with its new [self.stack]. *)
Definition check_token_list (st : checker) (tokens : list str)
  : checker * option syntax_error :=
  match tokens with
  | [] => (st, Some NoValidTokens)
  | t0 :: rest =>
      if mem t0 valid_operators && negb (bool_decide (t0 = «"-"»))
      then (st, Some (StartsWithOperator t0))
      else
        let main :=
          let st := {| stack := [] |} in
          let (stk, r) := check_tokens (stack st) tokens in ({| stack := stk |}, r) in
        if bool_decide (t0 = «"-"») then
          match rest with
          | [] => (st, Some OnlyMinus)
          | next_token :: _ =>
              if allowed_after_unary_minus (unary_operand_type next_token)
              then main else (st, Some (InvalidAfterUnaryMinus next_token))
          end
        else main
  end.

(** ** The walk decides the grammar *)

(** The look-ahead of an operator on the token after it. *)
Definition lookahead_ok (ty : token_type) (rest : list str) : bool :=
  if bool_decide (ty = TOperator) then
    match rest with [] => false | b :: _ => operand b || bool_decide (b = «"-"») end
  else true.

(** The rule on the previous category, checked at the later token. *)
Definition back_ok (ta tb : token_type) : bool :=
  match ta with TOperator => true | _ => follows ta tb [] end.

Lemma follows_split ta tb b : follows ta tb b = back_ok ta tb && lookahead_ok ta [b].
Proof.
  unfold lookahead_ok. by destruct ta; simpl; rewrite ?andb_true_r.
Qed.

Lemma chain_lookahead ta rest : chain ta rest = true -> lookahead_ok ta rest = true.
Proof.
  unfold lookahead_ok. destruct rest as [|b rest]; simpl.
  - by case_bool_decide.
  - destruct (classify b) as [tb|]; [|done]. intros [Hf _]%andb_prop.
    case_bool_decide; [|done]. by subst ta.
Qed.

Lemma lookahead_head ta b rest :
  lookahead_ok ta (b :: rest) = lookahead_ok ta [b].
Proof. done. Qed.

Lemma token_checks_ok i ta p tb b rest :
  i <> 0 -> classify b = Some tb ->
  token_checks i (Some ta) p tb b rest = None <->
  back_ok ta tb && lookahead_ok tb rest = true.
Proof.
  intros Hi Hb. unfold token_checks, sequence_check, lookahead_ok.
  replace (i =? 0) with false by (symmetry; by apply Nat.eqb_neq). simpl.
  destruct (decide (tb = TOperator)) as [->|Hop].
  - rewrite (bool_decide_true (TOperator = TOperator)) by done.
    rewrite (classify_operator_mem b Hb), andb_true_r.
    destruct rest as [|b' rest].
    + rewrite andb_false_r. case_bool_decide; split; discriminate.
    + rewrite andb_true_r, operand_start_classify.
      destruct ta; simpl; try (split; intros ?; discriminate);
        match goal with |- context [if ?x then None else _] => destruct x end;
        split; intros ?; done.
  - rewrite (bool_decide_false (tb = TOperator)) by done. rewrite andb_true_r.
    unfold type_in, back_ok, follows.
    destruct ta, tb; try done; lazy; split; intros ?; done.
Qed.

Lemma bookkeeping_step i ty token stk :
  classify token = Some ty ->
  match bracket_bookkeeping i ty token stk with
  | inl stk' => Some stk' | inr _ => None
  end = bracket_step stk token.
Proof.
  intros Ht. unfold bracket_bookkeeping, bracket_step.
  destruct (decide (ty = TOpenBracket)) as [->|Ho].
  - by rewrite bool_decide_true, classify_opening.
  - rewrite bool_decide_false by done.
    destruct (decide (ty = TCloseBracket)) as [->|Hc].
    + rewrite bool_decide_true by done.
      destruct (classify_closing token Ht) as [-> ->].
      by destruct (close_bracket token stk).
    + rewrite bool_decide_false by done.
      pose proof (classify_not_bracket token ty Ht Ho Hc) as Hnb.
      unfold is_bracket in Hnb. by apply orb_false_iff in Hnb as [-> ->].
Qed.

(** One iteration of the loop that does not return. *)
Lemma walk_cons_none i prev p stk b rest stk' :
  walk i prev p stk (b :: rest) = (stk', None) <->
  exists tb stk1, classify b = Some tb /\ token_checks i prev p tb b rest = None /\
    bracket_step stk b = Some stk1 /\ walk (S i) (Some tb) b stk1 rest = (stk', None).
Proof.
  simpl. split.
  - destruct (classify b) as [tb|] eqn:Hb; [|done].
    destruct (token_checks i prev p tb b rest) eqn:Hc; [done|].
    pose proof (bookkeeping_step i tb b stk Hb) as Hbk.
    destruct (bracket_bookkeeping i tb b stk) as [stk1|[stk1 e]]; [|done].
    intros Hw. by exists tb, stk1.
  - intros (tb & stk1 & Hb & Hc & Hs & Hw). rewrite Hb, Hc.
    pose proof (bookkeeping_step i tb b stk Hb) as Hbk. rewrite Hs in Hbk.
    by destruct (bracket_bookkeeping i tb b stk) as [stk2|]; simplify_eq.
Qed.

Lemma walk_chain ts : forall i ta p stk stk',
  i <> 0 -> lookahead_ok ta ts = true ->
  walk i (Some ta) p stk ts = (stk', None) <->
  chain ta ts = true /\ run_stack stk ts = Some stk'.
Proof.
  induction ts as [|b rest IH]; intros i ta p stk stk' Hi Hl.
  - simpl. unfold lookahead_ok in Hl. split.
    + intros; simplify_eq. split; [|done]. by case_bool_decide.
    + intros [_ ?]. by simplify_eq.
  - rewrite walk_cons_none. simpl chain. simpl run_stack.
    rewrite lookahead_head in Hl. split.
    + intros (tb & stk1 & Hb & Hc & Hs & Hw).
      apply token_checks_ok in Hc as [Hback Hla]%andb_prop; [|done|done].
      apply IH in Hw as [Hch Hrun]; [|lia|done].
      by rewrite Hb, Hs, follows_split, Hback, Hl, Hch.
    + destruct (classify b) as [tb|] eqn:Hb; [|by intros []].
      intros [[Hf Hch]%andb_prop Hrun].
      destruct (bracket_step stk b) as [stk1|] eqn:Hs; [|done].
      exists tb, stk1. rewrite follows_split in Hf. apply andb_prop in Hf as [Hback _].
      split_and!; try done.
      * apply token_checks_ok; [done|done|]. rewrite Hback. by apply chain_lookahead.
      * apply IH; [lia|by apply chain_lookahead|done].
Qed.

Lemma token_checks_first t0 ty rest :
  token_checks 0 None [] ty t0 rest = None <->
  (negb (bool_decide (ty = TOperator)) || bool_decide (t0 = «"-"»)) &&
  lookahead_ok ty rest = true.
Proof.
  unfold token_checks, sequence_check, lookahead_ok. simpl.
  destruct (decide (ty = TOperator)) as [->|Hop].
  - rewrite !(bool_decide_true (TOperator = TOperator)) by done. simpl.
    case_bool_decide as Hm; simpl; [|split; intros ?; discriminate].
    subst t0. destruct rest as [|b rest]; [split; intros ?; discriminate|].
    rewrite operand_start_classify.
    replace (mem «"-"» valid_operators) with true by reflexivity.
    rewrite andb_true_r.
    match goal with |- context [if ?x then None else _] => by destruct x end.
  - rewrite !(bool_decide_false (ty = TOperator)) by done. simpl. done.
Qed.

Lemma walk_first_none t0 rest stk' :
  walk 0 None [] [] (t0 :: rest) = (stk', None) <->
  exists ty0, classify t0 = Some ty0 /\
    negb (bool_decide (ty0 = TOperator)) || bool_decide (t0 = «"-"») = true /\
    chain ty0 rest = true /\ run_stack [] (t0 :: rest) = Some stk'.
Proof.
  rewrite walk_cons_none. simpl run_stack. split.
  - intros (ty & stk1 & Hb & Hc & Hs & Hw).
    apply token_checks_first in Hc as [Hop Hla]%andb_prop.
    apply walk_chain in Hw as [Hch Hrun]; [|done|done].
    exists ty. by rewrite Hs.
  - intros (ty & Hb & Hop & Hch & Hrun).
    destruct (bracket_step [] t0) as [stk1|] eqn:Hs; [|done].
    exists ty, stk1. split_and!; try done.
    + apply token_checks_first. rewrite Hop. simpl. by apply chain_lookahead.
    + apply walk_chain; [done|by apply chain_lookahead|done].
Qed.

Lemma check_tokens_none ts stk :
  check_tokens [] ts = (stk, None) <-> walk 0 None [] [] ts = ([], None) /\ stk = [].
Proof.
  unfold check_tokens. destruct (walk 0 None [] [] ts) as [stk0 [e|]].
  - split; [done|]. by intros [? _].
  - destruct stk0; split; intros H; destruct_and?; by simplify_eq.
Qed.

Lemma mem_ops_classify t : mem t valid_operators = true -> classify t = Some TOperator.
Proof. intros H. mem_solve; reflexivity. Qed.

(** The main walk, from the reset stack to the unmatched-opener test,
    accepts exactly the token lists whose first token has a category
    other than a non-minus operator, whose chain of adjacent tokens
    is well formed and whose brackets are nested. *)
Lemma check_tokens_accepts t0 rest :
  (exists stk, check_tokens [] (t0 :: rest) = (stk, None)) <->
  exists ty0, classify t0 = Some ty0 /\
    negb (bool_decide (ty0 = TOperator)) || bool_decide (t0 = «"-"») = true /\
    chain ty0 rest = true /\
    nested (filter (fun t => is_bracket t = true) (t0 :: rest)).
Proof.
  setoid_rewrite check_tokens_none. split.
  - intros (stk & Hw & ->). apply walk_first_none in Hw as (ty & ? & ? & ? & Hrun).
    exists ty. split_and!; try done. by apply run_stack_empty_nested.
  - intros (ty & ? & ? & ? & Hn). exists []. split; [|done].
    apply walk_first_none. exists ty. split_and!; try done.
    by apply nested_run_stack_empty.
Qed.

Lemma snd_none_iff {A B} (p : A * option B) : snd p = None <-> exists a, p = (a, None).
Proof. destruct p as [a [b|]]; split; [done|by intros [? ?]|by exists a|done]. Qed.

Lemma snd_main ts :
  snd (let (stk, r) := check_tokens [] ts in ({| stack := stk |}, r)) = snd (check_tokens [] ts).
Proof. by destruct (check_tokens [] ts). Qed.

Lemma check_token_list_accepts st ts :
  snd (check_token_list st ts) = None <-> accepts ts.
Proof.
  destruct ts as [|t0 rest]; [done|]. unfold check_token_list, accepts, start_ok.
  destruct (mem t0 valid_operators && negb (bool_decide (t0 = «"-"»))) eqn:Hop.
  - split; [done|]. intros (ty0 & Hc & Hs & _).
    apply andb_prop in Hop as [Hm Hn]. rewrite (mem_ops_classify t0 Hm) in Hc.
    simplify_eq. apply negb_true_iff in Hn. rewrite Hn in Hs. done.
  - case_bool_decide as Hm.
    + subst t0. destruct rest as [|b rest'].
      * split; [done|]. intros (ty0 & _ & Hs & _). by rewrite andb_false_r in Hs.
      * rewrite unary_operand_allowed. destruct (operand b) eqn:Hb.
        -- rewrite snd_main, snd_none_iff, check_tokens_accepts. split.
           ++ intros (ty0 & ? & ? & ? & ?). exists ty0. split_and!; try done.
              by rewrite orb_true_r, andb_true_r.
           ++ intros (ty0 & ? & Hs & ? & ?). exists ty0. split_and!; try done.
              by apply andb_prop in Hs as [? _].
        -- split; [done|]. intros (ty0 & _ & Hs & _).
           by rewrite orb_false_r, andb_false_r in Hs.
    + rewrite snd_main, snd_none_iff, check_tokens_accepts.
      rewrite (bool_decide_false (t0 = «"-"»)) by exact Hm.
      setoid_rewrite orb_false_r. by setoid_rewrite andb_true_r.
Qed.

(** The verdict never depends on the checker passed in. *)
Lemma check_token_list_snd st1 st2 ts :
  snd (check_token_list st1 ts) = snd (check_token_list st2 ts).
Proof. destruct ts as [|t0 rest]; [done|]. cbn. by repeat case_match. Qed.

Local Ltac leading_error := left; eexists; split; [reflexivity|naive_solver].

(** Every return of [check_token_list] other than [main] keeps the
    checker it was given and reports an error of the leading checks;
    [main] runs after a first token that passed them. *)
Lemma check_token_list_cases st ts :
  (exists e, check_token_list st ts = (st, Some e) /\
     (e = NoValidTokens \/ (exists t, e = StartsWithOperator t) \/ e = OnlyMinus \/
      exists b, e = InvalidAfterUnaryMinus b)) \/
  (exists t0 rest, ts = t0 :: rest /\
     mem t0 valid_operators && negb (bool_decide (t0 = «"-"»)) = false /\
     check_token_list st ts =
       (let (stk, r) := check_tokens [] ts in ({| stack := stk |}, r))).
Proof.
  destruct ts as [|t0 rest]; [by leading_error|]. unfold check_token_list.
  destruct (mem t0 valid_operators && negb (bool_decide (t0 = «"-"»))) eqn:Hop;
    [by leading_error|].
  destruct (decide (t0 = «"-"»)) as [E|E].
  - rewrite (bool_decide_true _ E).
    destruct rest as [|b rest']; [by leading_error|].
    destruct (allowed_after_unary_minus (unary_operand_type b)); [|by leading_error].
    right. by exists t0, (b :: rest').
  - rewrite (bool_decide_false _ E). right. by exists t0, rest.
Qed.

(** An accepted token list leaves [self.stack] empty. *)
Lemma check_token_list_valid_stack st ts :
  snd (check_token_list st ts) = None -> fst (check_token_list st ts) = {| stack := [] |}.
Proof.
  destruct (check_token_list_cases st ts) as [[e [-> _]] | (t0 & rest & -> & _ & ->)];
    [done|].
  destruct (check_tokens [] (t0 :: rest)) as [stk r] eqn:E. simpl. intros ->.
  by apply check_tokens_none in E as [_ ->].
Qed.

(** The test of line 171 can only fire at the first token, on a
    non-minus operator. *)
Lemma walk_start_error i prev p stk ts stk' t :
  walk i prev p stk ts = (stk', Some (StartsWithOperatorInLoop t)) ->
  i = 0 /\ head ts = Some t /\ classify t = Some TOperator /\ t <> «"-"».
Proof.
  revert i prev p stk. induction ts as [|b rest IH]; intros i prev p stk; simpl; [done|].
  destruct (classify b) as [tb|] eqn:Hb; [|done].
  destruct (token_checks i prev p tb b rest) as [e|] eqn:Hc.
  - intros [= <- ->]. unfold token_checks in Hc.
    destruct ((i =? 0) && bool_decide (tb = TOperator) && negb (bool_decide (b = «"-"»))) eqn:E.
    + injection Hc as <-. apply andb_prop in E as [[Hi Ht]%andb_prop Hn].
      apply Nat.eqb_eq in Hi. apply bool_decide_eq_true in Ht.
      apply negb_true_iff, bool_decide_eq_false in Hn. subst. done.
    + unfold sequence_check in Hc. by repeat case_match.
  - destruct (bracket_bookkeeping i tb b stk) as [stk1|[stk1 e]] eqn:Hk.
    + intros H. apply IH in H as (Hi & _). lia.
    + intros [= <- ->]. unfold bracket_bookkeeping in Hk.
      repeat case_match; simplify_eq.
Qed.

Lemma check_tokens_no_loop_start t0 rest t :
  mem t0 valid_operators && negb (bool_decide (t0 = «"-"»)) = false ->
  snd (check_tokens [] (t0 :: rest)) <> Some (StartsWithOperatorInLoop t).
Proof.
  intros Hop. unfold check_tokens.
  destruct (walk 0 None [] [] (t0 :: rest)) as [stk [e|]] eqn:E.
  - simpl. intros [= ->]. apply walk_start_error in E as (_ & [= <-] & Hc & Hn).
    rewrite (classify_operator_mem t0 Hc) in Hop. simpl in Hop.
    by apply negb_false_iff, bool_decide_eq_true in Hop.
  - by destruct stk.
Qed.

Lemma check_token_list_no_loop_start st ts t :
  snd (check_token_list st ts) <> Some (StartsWithOperatorInLoop t).
Proof.
  destruct (check_token_list_cases st ts) as [[e [-> He]] | (t0 & rest & -> & Hop & ->)].
  - simpl. intros [= ->]. by destruct He as [|[[? ?]|[|[? ?]]]].
  - rewrite snd_main. by apply check_tokens_no_loop_start.
Qed.

(** The position of an unrecognised token is its index in the token
    list. *)
Lemma walk_unrecognized i prev p stk ts stk' t j :
  walk i prev p stk ts = (stk', Some (UnrecognizedToken t j)) ->
  i <= j /\ ts !! (j - i) = Some t /\ classify t = None.
Proof.
  revert i prev p stk. induction ts as [|b rest IH]; intros i prev p stk; simpl; [done|].
  destruct (classify b) as [tb|] eqn:Hb; [|intros [= <- <- <-]; by rewrite Nat.sub_diag].
  destruct (token_checks i prev p tb b rest) as [e|] eqn:Hc.
  - intros [= <- ->]. unfold token_checks, sequence_check in Hc.
    repeat case_match; simplify_eq.
  - destruct (bracket_bookkeeping i tb b stk) as [stk1|[stk1 e]] eqn:Hk.
    + intros H. apply IH in H as (Hi & Hl & Hn).
      replace (j - i) with (S (j - S i)) by lia. split_and!; [lia|done|done].
    + intros [= <- ->]. unfold bracket_bookkeeping in Hk.
      repeat case_match; simplify_eq.
Qed.

Lemma check_token_list_unrecognized st ts t i :
  snd (check_token_list st ts) = Some (UnrecognizedToken t i) ->
  ts !! i = Some t /\ classify t = None.
Proof.
  destruct (check_token_list_cases st ts) as [[e [-> He]] | (t0 & rest & -> & _ & ->)].
  - simpl. intros [= ->]. by destruct He as [|[[? ?]|[|[? ?]]]].
  - rewrite snd_main. unfold check_tokens.
    destruct (walk 0 None [] [] (t0 :: rest)) as [stk [e|]] eqn:E.
    + simpl. intros [= ->]. apply walk_unrecognized in E as (_ & Hl & Hn).
      by rewrite Nat.sub_0_r in Hl.
    + by destruct stk.
Qed.

(** A first token of no category is reported at position 0. *)
Lemma check_token_list_unclassified st t0 ts :
  classify t0 = None -> snd (check_token_list st (t0 :: ts)) = Some (UnrecognizedToken t0 0).
Proof.
  intros Hc.
  assert (Hm : mem t0 valid_operators = false)
    by (unfold classify in Hc; repeat case_match; done).
  assert (Hn : t0 <> «"-"») by (intros ->; by compute in Hc).
  unfold check_token_list. rewrite Hm, (bool_decide_false _ Hn). simpl.
  unfold check_tokens. simpl. by rewrite Hc.
Qed.

(** ** Well-formedness of [self.stack] *)

(** The stack holds opening brackets only. *)
Definition stack_wf (stk : list str) : Prop :=
  Forall (fun t => mem t opening_brackets = true) stk.

Lemma close_bracket_wf token stk :
  stack_wf stk ->
  match close_bracket token stk with
  | CloseOk stk' | CloseMismatch _ stk' => stack_wf stk'
  | CloseEmpty => True
  end.
Proof.
  unfold close_bracket. destruct stk as [|lo stk']; [done|].
  intros [_ Hw]%Forall_cons. by case_bool_decide.
Qed.

Lemma bookkeeping_wf i ty token stk :
  classify token = Some ty -> stack_wf stk ->
  match bracket_bookkeeping i ty token stk with
  | inl stk' | inr (stk', _) => stack_wf stk'
  end.
Proof.
  intros Hc Hw. unfold bracket_bookkeeping. case_bool_decide as Ho.
  - subst. constructor; [by apply classify_opening|done].
  - case_bool_decide; [|done].
    pose proof (close_bracket_wf token stk Hw). by destruct (close_bracket token stk).
Qed.

Lemma walk_wf i prev p stk ts : stack_wf stk -> stack_wf (fst (walk i prev p stk ts)).
Proof.
  revert i prev p stk. induction ts as [|b rest IH]; intros i prev p stk Hw; simpl; [done|].
  destruct (classify b) as [ty|] eqn:Hc; [|done].
  destruct (token_checks i prev p ty b rest); [done|].
  pose proof (bookkeeping_wf i ty b stk Hc Hw).
  destruct (bracket_bookkeeping i ty b stk) as [stk'|[stk' e]]; [by apply IH|done].
Qed.

Lemma check_token_list_wf st ts :
  stack_wf (stack st) -> stack_wf (stack (fst (check_token_list st ts))).
Proof.
  intros Hw.
  destruct (check_token_list_cases st ts) as [[e [-> _]] | (t0 & rest & -> & _ & ->)];
    [done|].
  unfold check_tokens. pose proof (walk_wf 0 None [] [] (t0 :: rest) (Forall_nil_2 _)) as Hw'.
  destruct (walk 0 None [] [] (t0 :: rest)) as [stk [e|]]; simpl in *; [done|].
  by destruct stk.
Qed.

(** Membership in one of the code's vocabularies, by enumeration. *)
Ltac vocabulary_cases H :=
  unfold valid_operators, opening_brackets, valid_functions in H;
  repeat (apply elem_of_cons in H as [->|H]; [reflexivity|]); by apply elem_of_nil in H.

Lemma operator_classify o : o ∈ valid_operators -> classify o = Some TOperator.
Proof. intros Ho. vocabulary_cases Ho. Qed.

Lemma opening_classify b : b ∈ opening_brackets -> classify b = Some TOpenBracket.
Proof. intros Hb. vocabulary_cases Hb. Qed.

Lemma function_classify f : f ∈ valid_functions -> classify f = Some TFunction.
Proof. intros Hf. vocabulary_cases Hf. Qed.

(** C15: the function rule of lines 174-176 ("must be followed by an
    opening bracket", as the comment of line 174 says) is tested only
    when a next token exists: a function name as the last token is
    accepted exactly where a variable would be, so [2 + sin] is valid
    as [2 + x] is. *)
Theorem bare_function_valid st ts f x :
  f ∈ valid_functions -> classify x = Some TVariable ->
  snd (check_token_list st (ts ++ [f])) = None <->
  snd (check_token_list st (ts ++ [x])) = None.
Proof.
  intros Hf Hx. rewrite !check_token_list_accepts.
  by apply accepts_last_function; [apply function_classify|].
Qed.

Lemma bare_function_valid_witness :
  «"sin"» ∈ valid_functions /\ classify «"x"» = Some TVariable /\
  (snd (check_token_list init_checker [«"2"»; «"+"»; «"sin"»]) = None <->
   snd (check_token_list init_checker [«"2"»; «"+"»; «"x"»]) = None).
Proof.
  assert (Hf : «"sin"» ∈ valid_functions) by (apply (bool_decide_unpack _); vm_compute; reflexivity).
  assert (Hx : classify «"x"» = Some TVariable) by reflexivity.
  split_and!; [exact Hf|exact Hx|].
  exact (bare_function_valid init_checker [«"2"»; «"+"»] _ _ Hf Hx).
Defined.

(** C16: right after an opening bracket the validator does not tell
    the operators apart: the operator branch of lines 186-195 only
    looks at the next token, so a sequence with [( *] is accepted
    exactly when the same sequence with [( -] is. *)
Theorem open_bracket_any_operator st pre b o1 o2 post :
  b ∈ opening_brackets -> o1 ∈ valid_operators -> o2 ∈ valid_operators ->
  snd (check_token_list st (pre ++ b :: o1 :: post)) = None <->
  snd (check_token_list st (pre ++ b :: o2 :: post)) = None.
Proof.
  intros Hb H1 H2. rewrite !check_token_list_accepts.
  apply accepts_open_operator; by apply opening_classify || apply operator_classify.
Qed.

Lemma open_bracket_any_operator_witness :
  «"("» ∈ opening_brackets /\ «"-"» ∈ valid_operators /\ «"*"» ∈ valid_operators /\
  (snd (check_token_list init_checker [«"("»; «"-"»; «"2"»; «")"»]) = None <->
   snd (check_token_list init_checker [«"("»; «"*"»; «"2"»; «")"»]) = None).
Proof.
  assert (Hb : «"("» ∈ opening_brackets) by (apply (bool_decide_unpack _); vm_compute; reflexivity).
  assert (H1 : «"-"» ∈ valid_operators) by (apply (bool_decide_unpack _); vm_compute; reflexivity).
  assert (H2 : «"*"» ∈ valid_operators) by (apply (bool_decide_unpack _); vm_compute; reflexivity).
  split_and!; [exact Hb|exact H1|exact H2|].
  exact (open_bracket_any_operator init_checker [] _ _ _ [«"2"»; «")"»] Hb H1 H2).
Defined.

End Validator.
