(* ===== verification/CheckSyntax.v ===== *)
(** * The entry point [MathSyntaxChecker.check_syntax] and its properties

    [check_syntax_result] is the method of src/app.py, lines 109-227:
    the blank-input test, [tokenize], then [Validator.check_token_list];
    [check_syntax] adds the [(valid, message)] pair.  The theorems are
    about the whole pipeline: string, [tokenize], checks, verdict.  [check_syntax] accepts exactly the
    expressions whose tokens are in the language [Grammar.accepts]; an
    accepted expression has properly nested brackets as a string; the
    verdict does not depend on what an earlier call left in
    [self.stack]; an accepted check leaves the stack empty; and the
    in-loop test of line 171 never fires. *)

From S2P Require Import Prelude PyStr Classifier Tokenizer Brackets Grammar Validator.

Module CheckSyntax.
Import Py Classifier Tokenizer Brackets Grammar Validator.

(** Lines 109-116: an empty or blank expression, then [tokenize] and
    its error, then the checks of the token list (lines 117-227). *)
Definition check_syntax_result (st : checker) (expression : str)
  : checker * option syntax_error :=
  if bool_decide (strip expression = []) then (st, Some EmptyExpression)
  else
    match tokenize expression with
    | inr e => (st, Some (LexicalError e))
    | inl tokens => check_token_list st tokens
    end.

Definition check_syntax (st : checker) (expression : str) : checker * (bool * string) :=
  let (st', r) := check_syntax_result st expression in (st', verdict r).

(** The bracket characters of a string, each as a one-character
    token. *)
Definition brackets_of (s : str) : list str :=
  map (fun c => [c]) (filter (fun c => is_bracket [c] = true) s).

(** ** Helper lemmas *)

Lemma check_syntax_result_snd st1 st2 s :
  snd (check_syntax_result st1 s) = snd (check_syntax_result st2 s).
Proof.
  unfold check_syntax_result. case_bool_decide; [done|].
  destruct (tokenize s); [apply check_token_list_snd|done].
Qed.


Lemma verdict_valid r : fst (verdict r) = true <-> r = None.
Proof. by destruct r. Qed.

Lemma check_syntax_snd st s :
  snd (check_syntax st s) = verdict (snd (check_syntax_result st s)).
Proof. unfold check_syntax. by destruct (check_syntax_result st s). Qed.

Lemma check_syntax_result_none st s :
  snd (check_syntax_result st s) = None <->
  exists ts, tokenize s = inl ts /\ accepts ts.
Proof.
  unfold check_syntax_result. case_bool_decide as Hstrip.
  - split; [done|]. intros (ts & Ht & Ha). apply strip_nil in Hstrip.
    by rewrite (blank_no_tokens s ts Hstrip Ht) in Ha.
  - destruct (tokenize s) as [ts|e]; [|split; [done|by intros (? & ? & _)]].
    rewrite check_token_list_accepts. split; [by eauto|].
    by intros (ts' & [= <-] & ?).
Qed.

Lemma bracket_char c :
  is_bracket [c] = true ->
  isspace c = false /\ digit_or_point c = false /\ ident_char c = false /\
  c <> "-"%char.
Proof. unfold is_bracket. intros H. mem_solve; vm_compute; split_and!; done. Qed.

Lemma no_bracket_chars (P : ascii -> bool) l :
  (forall c, P c = true -> is_bracket [c] = false) ->
  Forall (fun c => P c = true) l ->
  filter (fun c => is_bracket [c] = true) l = [].
Proof.
  intros HP. induction 1 as [|c l Hc _ IH]; [done|].
  rewrite filter_cons_False; [done|]. by rewrite HP.
Qed.

Lemma not_bracket_of (P : ascii -> bool) c cs :
  (forall c, P c = true -> is_bracket [c] = false) -> P c = true ->
  is_bracket (c :: cs) = false.
Proof.
  intros HP Hc. destruct cs as [|d cs]; [by apply HP|].
  unfold is_bracket. by rewrite !mem_false_cons2 by auto with msc.
Qed.

Lemma shape_brackets t :
  token_shape t ->
  filter (fun t' => is_bracket t' = true) [t] = brackets_of t.
Proof.
  unfold brackets_of.
  assert (Hdp : forall c, digit_or_point c = true -> is_bracket [c] = false)
    by (intros c Hc; destruct (is_bracket [c]) eqn:E; [|done];
        apply bracket_char in E as (_ & ? & _); congruence).
  assert (Hsp : forall c, isspace c = true -> is_bracket [c] = false)
    by (intros c Hc; destruct (is_bracket [c]) eqn:E; [|done];
        apply bracket_char in E as (? & _); congruence).
  assert (Hid : forall c, ident_char c = true -> is_bracket [c] = false)
    by (intros c Hc; destruct (is_bracket [c]) eqn:E; [|done];
        apply bracket_char in E as (_ & _ & ? & _); congruence).
  assert (Hrun : forall r, forallb digit_or_point r = true ->
            filter (fun c => is_bracket [c] = true) r = [])
    by (intros r Hr; apply (no_bracket_chars digit_or_point); [done|];
        apply Forall_forall; intros c Hc%list_elem_of_In;
        by eapply forallb_forall in Hr).
  destruct 1 as [c Hc | r Hr _ | ws r Hws Hr Hne | c cs Hc Hcs].
  - destruct (is_bracket [c]) eqn:E.
    + by rewrite !filter_cons_True.
    + rewrite !filter_cons_False by (by rewrite E). done.
  - apply andb_prop in Hr as [Hr _]. rewrite Hrun by done.
    destruct r as [|c r]; [done|]. simpl in Hr. apply andb_prop in Hr as [Hc _].
    rewrite filter_cons_False; [done|]. by rewrite (not_bracket_of _ c r Hdp).
  - apply andb_prop in Hr as [Hr _].
    assert (Hm : is_bracket ["-"%char] = false) by reflexivity.
    rewrite filter_cons_False by (unfold is_bracket;
      destruct (ws ++ r) as [|d rest] eqn:E; [by destruct ws, r|];
      by rewrite !mem_false_cons2 by auto with msc).
    rewrite filter_cons_False by (by rewrite Hm). rewrite filter_app.
    by rewrite (no_bracket_chars isspace ws Hsp Hws), Hrun.
  - assert (Hc' : ident_char c = true) by ascii_lia.
    rewrite filter_cons_False by (by rewrite (not_bracket_of _ c cs Hid)).
    rewrite filter_cons_False by (by rewrite Hid).
    rewrite (no_bracket_chars ident_char cs Hid); [done|].
    apply Forall_forall. intros d Hd%list_elem_of_In.
    by eapply forallb_forall in Hcs.
Qed.

Lemma brackets_of_app l1 l2 : brackets_of (l1 ++ l2) = brackets_of l1 ++ brackets_of l2.
Proof. unfold brackets_of. by rewrite filter_app, map_app. Qed.

Lemma brackets_of_tokens ts :
  Forall token_shape ts ->
  filter (fun t => is_bracket t = true) ts = brackets_of (concat ts).
Proof.
  induction 1 as [|t ts Ht _ IH]; [done|].
  simpl. rewrite brackets_of_app, <- IH, <- shape_brackets by done.
  rewrite (filter_app _ [t] ts). done.
Qed.

Lemma brackets_of_erase l : brackets_of (erase_ws l) = brackets_of l.
Proof.
  unfold brackets_of. f_equal. unfold erase_ws. induction l as [|c l IH]; [done|].
  destruct (isspace c) eqn:Hs.
  - rewrite filter_cons_False by (by rewrite Hs). rewrite IH.
    symmetry. apply filter_cons_False.
    destruct (is_bracket [c]) eqn:E; [|done].
    apply bracket_char in E as [? _]. congruence.
  - rewrite filter_cons_True by done.
    destruct (is_bracket [c]) eqn:E.
    + rewrite !filter_cons_True by done. by rewrite IH.
    + rewrite !filter_cons_False by (by rewrite E). done.
Qed.

Lemma tokens_brackets s ts :
  tokenize s = inl ts ->
  filter (fun t => is_bracket t = true) ts = brackets_of s.
Proof.
  intros Ht. rewrite brackets_of_tokens by (by apply (tokenize_shapes s)).
  by rewrite <- brackets_of_erase, (tokenize_erase_ws s ts Ht), brackets_of_erase.
Qed.

Lemma check_syntax_fst_valid st s :
  fst (snd (check_syntax st s)) = true <-> snd (check_syntax_result st s) = None.
Proof. by rewrite check_syntax_snd, verdict_valid. Qed.

(** A token [-] followed by a space cannot be classified. *)
Lemma signed_space_unclassified w rest :
  token_shape ("-"%char :: w :: rest) -> isspace w = true ->
  classify ("-"%char :: w :: rest) = None.
Proof.
  intros Hsh Hw.
  inversion Hsh as [c Hc | r Hr Hd | ws r Hws Hr Hne | c cs Hc Hcs]; subst.
  - apply andb_prop in Hr as [Hr _]. by simpl in Hr.
  - rewrite (classify_signed ws r Hws Hr Hne).
    destruct ws as [|w' ws]; [|done]. simpl in *. subst r.
    apply andb_prop in Hr as [Hr _]. simpl in Hr. apply andb_prop in Hr as [Hr _].
    unfold digit_or_point in Hr. by rewrite space_not_digit, space_not_point in Hr.
  - by compute in Hc.
Qed.

Lemma tokenize_nonblank s t0 ts :
  tokenize s = inl (t0 :: ts) -> bool_decide (strip s = []) = false.
Proof.
  intros Ht. apply bool_decide_eq_false. intros Hs%strip_nil.
  pose proof (blank_no_tokens s (t0 :: ts) Hs Ht). done.
Qed.

(** ** The verdict *)

(** C1: [check_syntax] answers valid exactly when the expression
    tokenizes and its token list is in the language [accepts]: every
    token classified, the leading-token rules, the adjacency table, no
    trailing operator and nested brackets. *)
Theorem check_syntax_accepts st s :
  fst (snd (check_syntax st s)) = true <-> exists ts, tokenize s = inl ts /\ accepts ts.
Proof. by rewrite check_syntax_fst_valid, check_syntax_result_none. Qed.

(** C2: the brackets of an expression [check_syntax] accepts, read off
    the input string, are properly nested. *)
Theorem check_syntax_valid_nested st s :
  fst (snd (check_syntax st s)) = true -> nested (brackets_of s).
Proof.
  rewrite check_syntax_fst_valid, check_syntax_result_none.
  intros ([|t0 rest] & Ht & Ha); [done|]. destruct Ha as (_ & _ & _ & _ & Hn).
  by rewrite <- (tokens_brackets s (t0 :: rest) Ht).
Qed.

Lemma check_syntax_valid_nested_witness :
  fst (snd (check_syntax init_checker «"{[(a + b)] * 2}"»)) = true /\
  nested (brackets_of «"{[(a + b)] * 2}"»).
Proof.
  split; [reflexivity|]. apply (check_syntax_valid_nested init_checker). reflexivity.
Defined.

(** C4: the verdict does not depend on the checker's state: the
    bracket stack left by an earlier call (for instance one that failed
    with brackets still open) is reset before it is read. *)
Theorem check_syntax_verdict_independent st1 st2 s :
  snd (check_syntax st1 s) = snd (check_syntax st2 s).
Proof. by rewrite !check_syntax_snd, (check_syntax_result_snd st1 st2). Qed.

(** C9: a call that answers valid leaves [self.stack] empty. *)
Theorem check_syntax_valid_clears_stack st s :
  fst (snd (check_syntax st s)) = true -> fst (check_syntax st s) = {| stack := [] |}.
Proof.
  rewrite check_syntax_fst_valid. unfold check_syntax, check_syntax_result.
  case_bool_decide; [done|]. destruct (tokenize s); [|done].
  destruct (check_token_list st l) as [st' r] eqn:E. simpl. intros ->.
  by rewrite <- (check_token_list_valid_stack st l), E by (by rewrite E).
Qed.

Lemma check_syntax_valid_clears_stack_witness :
  fst (check_syntax {| stack := [«"("»; «"["»] |} «"(1 + 2)"») = {| stack := [] |}.
Proof. apply check_syntax_valid_clears_stack. reflexivity. Defined.

(** C10: the error of lines 171-172 ("Expression cannot start with
    the operator ...", raised inside the loop) is never returned: the
    check of lines 123-124 has already rejected every input that would
    reach it. *)
Theorem check_syntax_no_loop_start_error st s t :
  snd (check_syntax_result st s) <> Some (StartsWithOperatorInLoop t).
Proof.
  unfold check_syntax_result. case_bool_decide; [done|].
  destruct (tokenize s); [apply check_token_list_no_loop_start|done].
Qed.

Lemma check_syntax_no_loop_start_error_witness :
  snd (check_syntax_result init_checker «"* 2"») <> Some (StartsWithOperatorInLoop «"*"»).
Proof. apply check_syntax_no_loop_start_error. Defined.

(** C13: the position in the message "Unrecognized token ... at
    position i" is the index [i] of the token in the token list, not a
    character offset in the expression. *)
Theorem unrecognized_token_index st s t i :
  snd (check_syntax_result st s) = Some (UnrecognizedToken t i) ->
  exists ts, tokenize s = inl ts /\ ts !! i = Some t /\ classify t = None.
Proof.
  unfold check_syntax_result. case_bool_decide; [done|].
  destruct (tokenize s) as [ts|]; [|done]. intros Hr. exists ts.
  split; [done|]. by eapply check_token_list_unrecognized.
Qed.

(** In [x * (- 5)] the unrecognised token [- 5] is reported at
    position 3, its token index; it starts at character 5. *)
Lemma unrecognized_token_index_witness :
  snd (check_syntax_result init_checker «"x * (- 5)"») =
    Some (UnrecognizedToken «"- 5"» 3) /\
  exists ts, tokenize «"x * (- 5)"» = inl ts /\ ts !! 3 = Some «"- 5"» /\
             classify «"- 5"» = None.
Proof.
  split; [reflexivity|]. apply (unrecognized_token_index init_checker). reflexivity.
Defined.

(** ** What modelling showed *)

(** C11: when the tokenizer has read a minus sign, skipped spaces and
    read a number ([- 5]), [float()] rejects the token, so an expression
    that starts with such a token is reported as "Unrecognized token
    '- 5' at position 0", although the scanner built the token on
    purpose (lines 58-75) and [" - 5"], which starts with a space, is
    valid. *)
Theorem signed_space_unrecognized st s t0 ts w rest :
  tokenize s = inl (t0 :: ts) -> t0 = "-"%char :: w :: rest -> isspace w = true ->
  snd (check_syntax_result st s) = Some (UnrecognizedToken t0 0).
Proof.
  intros Ht -> Hw. unfold check_syntax_result.
  rewrite (tokenize_nonblank s _ _ Ht), Ht. apply check_token_list_unclassified.
  apply signed_space_unclassified; [|done].
  exact (Forall_inv (tokenize_shapes s _ Ht)).
Qed.

Lemma signed_space_unrecognized_witness :
  snd (check_syntax_result init_checker «"- 5"») = Some (UnrecognizedToken «"- 5"» 0) /\
  fst (snd (check_syntax init_checker «" - 5"»)) = true.
Proof.
  split; [|reflexivity].
  apply (signed_space_unrecognized init_checker «"- 5"» «"- 5"» [] " "%char «"5"»);
    reflexivity.
Defined.

(** ** The checker's state *)

(** C22: [self.stack] holds opening brackets only, before and after
    every call: a call that fails part-way leaves openers behind (the
    ones not yet closed, or those under a mismatched pair), never any
    other token. *)
Theorem check_syntax_stack_wf st s :
  stack_wf (stack st) -> stack_wf (stack (fst (check_syntax st s))).
Proof.
  intros Hw. unfold check_syntax. destruct (check_syntax_result st s) as [st' r] eqn:E.
  simpl. unfold check_syntax_result in E. case_bool_decide; [by injection E as <-|].
  destruct (tokenize s) as [ts|]; [|by injection E as <-].
  pose proof (check_token_list_wf st ts Hw) as Hl. by rewrite E in Hl.
Qed.

Lemma check_syntax_stack_wf_witness :
  stack_wf (stack init_checker) /\
  stack_wf (stack (fst (check_syntax init_checker «"((x)"»))) /\
  stack (fst (check_syntax init_checker «"((x)"»)) = [«"("»].
Proof.
  split_and!; [exact (Forall_nil_2 _)| |reflexivity].
  apply check_syntax_stack_wf. exact (Forall_nil_2 _).
Defined.

End CheckSyntax.
