(* ===== verification/Errors.v ===== *)
(** * What each error of [check_syntax] says about the input

    [explains ts e] states, for each value [e] of
    [Validator.syntax_error], the fact about the token list [ts] that
    its message reports: the offending token at the reported index,
    the categories of it and of its predecessor, the bracket stack of
    the prefix before it.  The theorems show that every error the code
    returns is explained this way: [check_token_list] by induction
    over the walk, and [check_syntax_result] on top of [tokenize]. *)

From S2P Require Import Prelude PyStr Classifier Tokenizer Brackets Grammar Validator CheckSyntax.

Module Errors.
Import Py Classifier Tokenizer Brackets Grammar Validator CheckSyntax.

(** The category of token [k], [None] out of range or for an
    unclassifiable token. *)
Definition category_at (ts : list str) (k : nat) : option token_type :=
  match ts !! k with Some t => classify t | None => None end.

Definition explains (ts : list str) (e : syntax_error) : Prop :=
  match e with
  | EmptyExpression | LexicalError _ | StartsWithOperatorInLoop _ => False
  | NoValidTokens => ts = []
  | StartsWithOperator t => head ts = Some t /\ classify t = Some TOperator /\ t <> «"-"»
  | OnlyMinus => ts = [«"-"»]
  | InvalidAfterUnaryMinus b => exists rest, ts = «"-"» :: b :: rest /\ operand b = false
  | UnrecognizedToken t i => ts !! i = Some t /\ classify t = None
  | FunctionWithoutBracket p =>
      exists k, ts !! k = Some p /\ category_at ts k = Some TFunction /\
                is_Some (ts !! S k) /\ category_at ts (S k) <> Some TOpenBracket
  | EndsWithOperator => exists t, last ts = Some t /\ classify t = Some TOperator
  | ExpectedAfterOperator pos =>
      exists b, 0 < pos /\ category_at ts (pos - 1) = Some TOperator /\
                ts !! pos = Some b /\ operand b = false /\ b <> «"-"»
  | ExpectedAfterOperand ty i =>
      0 < i /\ category_at ts (i - 1) = Some ty /\ (ty = TNumber \/ ty = TVariable) /\
      category_at ts i = Some TNumber
  | ExpectedAfterOpenBracket i =>
      0 < i /\ category_at ts (i - 1) = Some TOpenBracket /\
      category_at ts i = Some TCloseBracket
  | ExpectedAfterCloseBracket i =>
      0 < i /\ category_at ts (i - 1) = Some TCloseBracket /\
      category_at ts i = Some TNumber
  | UnmatchedClosingBracket t i =>
      ts !! i = Some t /\ classify t = Some TCloseBracket /\
      run_stack [] (take i ts) = Some []
  | MismatchedBracketPair lo t i =>
      ts !! i = Some t /\ classify t = Some TCloseBracket /\
      (exists stk, run_stack [] (take i ts) = Some (lo :: stk)) /\ ~ pairs lo t
  | UnmatchedOpeningBrackets stk => stk <> [] /\ run_stack [] ts = Some (reverse stk)
  end.

(** The state of the walk at index [i] of [ts]: the previous token and
    its category, and the stack of the prefix [tokens[:i]]. *)
Definition walk_state (ts : list str) (i : nat) (prev : option token_type) (p : str)
    (stk : list str) : Prop :=
  (i = 0 /\ prev = None \/ 0 < i /\ ts !! (i - 1) = Some p /\ prev = classify p) /\
  run_stack [] (take i ts) = Some stk.

(** ** Fail-fast: the reference check at one position *)

(** The category and text of the token before index [k], as the walk
    holds them in [prev_token_type] and [tokens[i - 1]]. *)
Definition prev_of (ts : list str) (k : nat) : option token_type * str :=
  match k with
  | 0 => (None, [])
  | S k' => match ts !! k' with Some p => (classify p, p) | None => (None, []) end
  end.

(** The checks of the loop body at token [k] alone: classification,
    the sequence checks and the bracket bookkeeping against the stack
    the prefix [tokens[:k]] leaves. *)
Definition pos_check (ts : list str) (k : nat) : option syntax_error :=
  match ts !! k with
  | None => None
  | Some token =>
      match classify token with
      | None => Some (UnrecognizedToken token k)
      | Some ty =>
          let '(prev, p) := prev_of ts k in
          match token_checks k prev p ty token (drop (S k) ts) with
          | Some e => Some e
          | None =>
              match bracket_bookkeeping k ty token (default [] (run_stack [] (take k ts))) with
              | inr (_, e) => Some e
              | inl _ => None
              end
          end
      end
  end.

(** The position a message reports ([at position {i}]), where it
    reports one. *)
Definition reported_position (e : syntax_error) : option nat :=
  match e with
  | LexicalError te => Some (tok_error_pos te)
  | UnrecognizedToken _ i | ExpectedAfterOperator i | ExpectedAfterOperand _ i
  | ExpectedAfterOpenBracket i | ExpectedAfterCloseBracket i
  | UnmatchedClosingBracket _ i | MismatchedBracketPair _ _ i => Some i
  | _ => None
  end.

(** ** Lemmas *)

Lemma category_at_lt ts k ty : category_at ts k = Some ty -> k < length ts.
Proof.
  unfold category_at. destruct (ts !! k) eqn:E; [|done]. intros _. by eapply lookup_lt_Some.
Qed.

Lemma drop_cons_inv (ts : list str) i b rest :
  drop i ts = b :: rest -> ts !! i = Some b /\ drop (S i) ts = rest.
Proof.
  intros Hd. assert (Hl : ts !! i = Some b).
  { rewrite <- (Nat.add_0_r i), <- lookup_drop, Hd. done. }
  split; [done|]. rewrite (drop_cons_lookup ts i b Hl) in Hd. by injection Hd.
Qed.

Lemma last_drop (ts : list str) i b : drop i ts = [b] -> last ts = Some b.
Proof.
  intros Hd. rewrite <- (take_drop i ts), Hd, last_app. done.
Qed.

(** The stack of the prefix grows by the bookkeeping of one token. *)
Lemma run_stack_take_S ts i b ty stk stk1 :
  ts !! i = Some b -> classify b = Some ty -> run_stack [] (take i ts) = Some stk ->
  bracket_bookkeeping i ty b stk = inl stk1 -> run_stack [] (take (S i) ts) = Some stk1.
Proof.
  intros Hb Hc Hs Hk. rewrite (take_S_r ts i b Hb), run_stack_app, Hs. simpl.
  by rewrite <- (bookkeeping_step i ty b stk Hc), Hk.
Qed.

Lemma type_in_false ty l : type_in ty l = false -> ty ∉ l.
Proof. unfold type_in. by intros ?%bool_decide_eq_false. Qed.

Lemma explains_sequence ts i prev p stk tb b rest e :
  walk_state ts i prev p stk -> ts !! i = Some b -> drop (S i) ts = rest ->
  classify b = Some tb -> sequence_check i prev tb b rest = Some e -> explains ts e.
Proof.
  intros [Hprev _] Hb Hrest Hc Hk. unfold sequence_check in Hk.
  case_bool_decide as Hop.
  - subst tb. destruct rest as [|b' rest'].
    + injection Hk as <-. exists b. split; [|done]. apply (last_drop ts i).
      by rewrite (drop_cons_lookup ts i b Hb), Hrest.
    + destruct (is_number b' || is_variable b' || is_function b' ||
                mem b' opening_brackets || (bool_decide (b' = «"-"») && mem b valid_operators))
        eqn:Hn; [done|].
      injection Hk as <-. apply orb_false_iff in Hn as [Hn Hm].
      rewrite operand_start_classify in Hn. rewrite (classify_operator_mem b Hc) in Hm.
      rewrite andb_true_r in Hm. apply bool_decide_eq_false in Hm.
      exists b'. unfold category_at. simpl. rewrite Nat.sub_0_r, Hb.
      split_and!; try done; [lia|]. rewrite <- (Nat.add_0_r (S i)), <- lookup_drop, Hrest.
      done.
  - destruct Hprev as [[_ ->]|(Hi & Hp & Hcp)]; [done|].
    destruct prev as [[]|]; try done;
      (destruct (type_in tb _) eqn:Ht; [done|]); injection Hk as <-;
      apply type_in_false in Ht; simpl; unfold category_at; rewrite Hp, <- Hcp, Hb, Hc;
      destruct tb; try (exfalso; apply Ht; by repeat constructor); split_and!; auto.
Qed.

Lemma explains_token_checks ts i prev p stk tb b rest e :
  walk_state ts i prev p stk -> ts !! i = Some b -> drop (S i) ts = rest ->
  classify b = Some tb -> token_checks i prev p tb b rest = Some e ->
  explains ts e \/ exists t, e = StartsWithOperatorInLoop t.
Proof.
  intros Hw Hb Hrest Hc Hk. unfold token_checks in Hk.
  destruct ((i =? 0) && _ && _); [injection Hk as <-; eauto|].
  destruct (bool_decide (prev = Some TFunction) && negb (bool_decide (tb = TOpenBracket)))
    eqn:Hf; [|left; by eapply explains_sequence].
  injection Hk as <-. left. apply andb_prop in Hf as [Hf Ho].
  apply bool_decide_eq_true in Hf. apply negb_true_iff, bool_decide_eq_false in Ho.
  destruct Hw as [[[_ ?]|(Hi & Hp & Hcp)] _]; [congruence|].
  exists (i - 1). unfold category_at. replace (S (i - 1)) with i by lia.
  rewrite Hp, <- Hcp, Hf, Hb, Hc. split_and!; [done|done|by eexists|congruence].
Qed.

Lemma explains_bookkeeping ts i stk tb b stk' e :
  run_stack [] (take i ts) = Some stk -> ts !! i = Some b -> classify b = Some tb ->
  bracket_bookkeeping i tb b stk = inr (stk', e) -> explains ts e.
Proof.
  intros Hs Hb Hc Hk. unfold bracket_bookkeeping in Hk.
  case_bool_decide; [done|]. case_bool_decide as Hcl; [subst tb|done].
  unfold close_bracket in Hk. destruct stk as [|lo stk0].
  - injection Hk as <- <-. done.
  - case_bool_decide as Hp; [done|]. injection Hk as <- <-.
    split_and!; [done|done|by eexists|]. unfold pairs. intros Hl. by rewrite Hl in Hp.
Qed.

Lemma walk_none_run i prev p stk ts stk' :
  walk i prev p stk ts = (stk', None) -> run_stack stk ts = Some stk'.
Proof.
  revert i prev p stk. induction ts as [|b rest IH]; intros i prev p stk.
  - by intros [= ->].
  - intros (tb & stk1 & _ & _ & Hb & Hw)%walk_cons_none. simpl. rewrite Hb. by eapply IH.
Qed.

Lemma walk_explains ts rest : forall i prev p stk stk' e,
  drop i ts = rest -> walk_state ts i prev p stk ->
  walk i prev p stk rest = (stk', Some e) ->
  explains ts e \/ exists t, e = StartsWithOperatorInLoop t.
Proof.
  induction rest as [|b rest IH]; intros i prev p stk stk' e Hd Hw; [done|].
  apply drop_cons_inv in Hd as [Hb Hd]. simpl.
  destruct (classify b) as [tb|] eqn:Hc; [|intros [= _ <-]; by left].
  destruct (token_checks i prev p tb b rest) as [e'|] eqn:Hk.
  { intros [= _ <-]. by eapply explains_token_checks. }
  destruct (bracket_bookkeeping i tb b stk) as [stk1|[stk1 e']] eqn:Hbk.
  - apply (IH (S i) (Some tb) b stk1); [done|]. split.
    + right. split_and!; [lia|simpl; by rewrite Nat.sub_0_r|done].
    + destruct Hw as [_ Hs]. by eapply run_stack_take_S.
  - intros [= _ <-]. left. destruct Hw as [_ Hs]. by eapply explains_bookkeeping.
Qed.

Lemma check_tokens_explains ts stk e :
  check_tokens [] ts = (stk, Some e) ->
  explains ts e \/ exists t, e = StartsWithOperatorInLoop t.
Proof.
  unfold check_tokens. destruct (walk 0 None [] [] ts) as [stk0 [e'|]] eqn:Hw.
  - intros [= _ <-]. eapply (walk_explains ts ts 0); [done| |exact Hw].
    split; [by left|done].
  - destruct stk0 as [|o stk1]; [done|]. intros [= _ <-]. left.
    split; [intros Hr%(f_equal length); by rewrite length_reverse in Hr|].
    rewrite reverse_involutive. by eapply walk_none_run.
Qed.

Lemma check_token_list_explains st ts e :
  snd (check_token_list st ts) = Some e -> explains ts e.
Proof.
  destruct ts as [|t0 rest]; [by intros [= <-]|]. unfold check_token_list.
  destruct (mem t0 valid_operators && negb (bool_decide (t0 = «"-"»))) eqn:Hop.
  { intros [= <-]. apply andb_prop in Hop as [Hm Hn].
    apply negb_true_iff, bool_decide_eq_false in Hn.
    split_and!; [done|by apply mem_ops_classify|done]. }
  assert (Hmain : snd (let (stk, r) := check_tokens [] (t0 :: rest) in
                       ({| stack := stk |}, r)) = Some e -> explains (t0 :: rest) e).
  { rewrite snd_main. destruct (check_tokens [] (t0 :: rest)) as [stk r] eqn:Ht.
    simpl. intros ->. destruct (check_tokens_explains _ _ _ Ht) as [?|[t ->]]; [done|].
    exfalso. eapply check_tokens_no_loop_start; [exact Hop|]. by rewrite Ht. }
  destruct (decide (t0 = «"-"»)) as [E|E].
  - rewrite (bool_decide_true _ E). destruct rest as [|b rest'].
    + intros [= <-]. by subst.
    + destruct (allowed_after_unary_minus (unary_operand_type b)) eqn:Ha; [exact Hmain|].
      intros [= <-]. exists rest'. rewrite <- unary_operand_allowed. by subst.
  - rewrite (bool_decide_false _ E). exact Hmain.
Qed.

Section Position.
Context (ts : list str) (i : nat) (prev : option token_type) (p : str) (stk : list str)
  (b : str) (rest : list str).
Hypothesis Hb : ts !! i = Some b.
Hypothesis Hd : drop (S i) ts = rest.
Hypothesis Hp : prev_of ts i = (prev, p).
Hypothesis Hs : run_stack [] (take i ts) = Some stk.

(** At the walk's state for position [i], [pos_check] is the loop body. *)
Lemma pos_check_at :
  pos_check ts i =
    match classify b with
    | None => Some (UnrecognizedToken b i)
    | Some ty => match token_checks i prev p ty b rest with
                 | Some e => Some e
                 | None => match bracket_bookkeeping i ty b stk with
                           | inr (_, e) => Some e | inl _ => None end
                 end
    end.
Proof. unfold pos_check. by rewrite Hb, Hp, Hd, Hs. Qed.

Lemma pos_check_none :
  pos_check ts i = None ->
  exists ty stk1, classify b = Some ty /\ bracket_bookkeeping i ty b stk = inl stk1.
Proof.
  rewrite pos_check_at. destruct (classify b) as [ty|]; [|done].
  destruct (token_checks i prev p ty b rest); [done|].
  destruct (bracket_bookkeeping i ty b stk) as [stk1|[? ?]] eqn:Hk; [|done].
  intros _. by exists ty, stk1.
Qed.

(** One iteration: the walk stops with the error of position [i], or
    that position passes and the walk goes on from [i + 1]. *)
Lemma walk_step_pos e :
  snd (walk i prev p stk (b :: rest)) = Some e <->
  pos_check ts i = Some e \/
  pos_check ts i = None /\ exists ty stk1, classify b = Some ty /\
    bracket_bookkeeping i ty b stk = inl stk1 /\
    snd (walk (S i) (Some ty) b stk1 rest) = Some e.
Proof.
  rewrite pos_check_at. simpl.
  destruct (classify b) as [ty|]; [|split; [by left|by intros [?|[? _]]]].
  destruct (token_checks i prev p ty b rest); [split; [by left|by intros [?|[? _]]]|].
  destruct (bracket_bookkeeping i ty b stk) as [stk1|[stk1 e1]] eqn:Hk; simpl.
  - split; [intros Hw; right; eauto 10|].
    intros [?|(_ & ty0 & stk0 & [= <-] & Hk' & Hw)]; [done|].
    rewrite Hk in Hk'. by injection Hk' as <-.
  - split; [by left|]. by intros [?|[? _]].
Qed.

End Position.

Lemma walk_first_gen ts e rest : forall i prev p stk,
  drop i ts = rest -> prev_of ts i = (prev, p) -> run_stack [] (take i ts) = Some stk ->
  snd (walk i prev p stk rest) = Some e <->
  exists k, i <= k /\ pos_check ts k = Some e /\ forall j, i <= j < k -> pos_check ts j = None.
Proof.
  induction rest as [|b rest IH]; intros i prev p stk Hd Hp Hs.
  - split; [done|]. intros (k & Hk & Hc & _). unfold pos_check in Hc.
    rewrite lookup_ge_None_2 in Hc; [done|].
    apply (f_equal length) in Hd. rewrite length_drop in Hd. simpl in Hd. lia.
  - apply drop_cons_inv in Hd as [Hb Hd].
    assert (Hp' : forall ty, classify b = Some ty -> prev_of ts (S i) = (Some ty, b))
      by (intros ty Hc; simpl; by rewrite Hb, Hc).
    rewrite (walk_step_pos ts i prev p stk b rest Hb Hd Hp Hs). split.
    + intros [Hi|(Hi & ty & stk1 & Hc & Hk & Hw)].
      * exists i. split_and!; [lia|done|intros; lia].
      * apply (IH (S i) (Some ty) b stk1) in Hw as (k & Hk1 & Hk2 & Hk3);
          [|done|by apply Hp'|by eapply run_stack_take_S].
        exists k. split_and!; [lia|done|]. intros j Hj.
        destruct (decide (j = i)) as [->|]; [done|]. apply Hk3. lia.
    + intros (k & Hk1 & Hk2 & Hk3). destruct (decide (k = i)) as [->|Hne]; [by left|right].
      assert (Hi : pos_check ts i = None) by (apply Hk3; lia). split; [done|].
      destruct (pos_check_none ts i prev p stk b rest Hb Hd Hp Hs Hi) as (ty & stk1 & Hc & Hk).
      exists ty, stk1. split_and!; [done|done|].
      apply (IH (S i) (Some ty) b stk1); [done|by apply Hp'|by eapply run_stack_take_S|].
      exists k. split_and!; [lia|done|]. intros j Hj. apply Hk3. lia.
Qed.

(** A position an explained error reports is an index of the token
    list. *)
Lemma explains_position ts e p :
  explains ts e -> reported_position e = Some p -> p < length ts.
Proof.
  intros Hx Hp. destruct e; simpl in Hx, Hp; try contradiction; try discriminate;
    injection Hp as <-.
  - destruct Hx as [H _]. by eapply lookup_lt_Some.
  - destruct Hx as (b & _ & _ & H & _). by eapply lookup_lt_Some.
  - destruct Hx as (_ & _ & _ & H). by eapply category_at_lt.
  - destruct Hx as (_ & _ & H). by eapply category_at_lt.
  - destruct Hx as (_ & _ & H). by eapply category_at_lt.
  - destruct Hx as [H _]. by eapply lookup_lt_Some.
  - destruct Hx as [H _]. by eapply lookup_lt_Some.
Qed.

(** ** The claim *)

(** C18: every error [check_syntax] returns is justified by its input:
    an empty or blank expression, the tokenizer's own error, or a fact
    about the token list that [explains] states for that error (the
    offending token at the reported index, the categories around it,
    the bracket stack of the prefix before it, the openers left at the
    end). *)
Theorem check_syntax_errors_explained st s e :
  snd (check_syntax_result st s) = Some e ->
  (e = EmptyExpression /\ Forall (fun c => isspace c = true) s) \/
  (exists te, e = LexicalError te /\ tokenize s = inr te) \/
  (exists ts, tokenize s = inl ts /\ explains ts e).
Proof.
  unfold check_syntax_result. case_bool_decide as Hb.
  - intros [= <-]. left. split; [done|]. by apply strip_nil.
  - destruct (tokenize s) as [ts|te]; intros H.
    + right; right. exists ts. split; [done|]. by eapply check_token_list_explains.
    + injection H as <-. right; left. by eexists.
Qed.

Lemma check_syntax_errors_explained_witness :
  snd (check_syntax_result init_checker «"(2]"») =
    Some (MismatchedBracketPair «"("» «"]"» 2) /\
  ((MismatchedBracketPair «"("» «"]"» 2 = EmptyExpression /\
    Forall (fun c => isspace c = true) «"(2]"») \/
   (exists te, MismatchedBracketPair «"("» «"]"» 2 = LexicalError te /\
               tokenize «"(2]"» = inr te) \/
   (exists ts, tokenize «"(2]"» = inl ts /\
               explains ts (MismatchedBracketPair «"("» «"]"» 2))).
Proof.
  split; [reflexivity|]. apply (check_syntax_errors_explained init_checker). reflexivity.
Defined.

(** C19: fail-fast determinism (spec.md, section 8): the single pass
    of lines 150-221 stops with the error of the first position whose
    own checks fail, [pos_check] giving the checks of one position
    against the bracket stack of the prefix before it. *)
Theorem walk_first_failure ts e :
  snd (walk 0 None [] [] ts) = Some e <->
  exists k, pos_check ts k = Some e /\ forall j, j < k -> pos_check ts j = None.
Proof.
  rewrite (walk_first_gen ts e ts 0 None [] []); [|done|done|done].
  split.
  - intros (k & _ & Hk & Hj). exists k. split; [done|]. intros j ?. apply Hj. lia.
  - intros (k & Hk & Hj). exists k. split_and!; [lia|done|]. intros j ?. apply Hj. lia.
Qed.

Lemma walk_first_failure_witness :
  snd (walk 0 None [] [] [«"("»; «"2"»; «"]"»; «"+"»]) =
    Some (MismatchedBracketPair «"("» «"]"» 2) /\
  exists k, pos_check [«"("»; «"2"»; «"]"»; «"+"»] k =
              Some (MismatchedBracketPair «"("» «"]"» 2) /\
            forall j, j < k -> pos_check [«"("»; «"2"»; «"]"»; «"+"»] j = None.
Proof. split; [reflexivity|]. apply walk_first_failure. reflexivity. Defined.

(** C23: every position a message reports lies inside the expression:
    a character index of the input for the tokenizer's errors, and a
    token index, hence below the number of tokens and so below the
    length of the input, for the validator's. *)
Theorem error_position_bound st s e p :
  snd (check_syntax_result st s) = Some e -> reported_position e = Some p ->
  p < length s.
Proof.
  unfold check_syntax_result. case_bool_decide; [by intros [= <-]|].
  destruct (tokenize s) as [ts|te] eqn:Ht.
  - intros He Hp. pose proof (tokens_length s ts Ht).
    pose proof (explains_position ts e p (check_token_list_explains st ts e He) Hp). lia.
  - intros [= <-] [= <-]. by apply tokenize_error_in_input.
Qed.

Lemma error_position_bound_witness :
  snd (check_syntax_result init_checker «"x * (- 5)"») = Some (UnrecognizedToken «"- 5"» 3) /\
  reported_position (UnrecognizedToken «"- 5"» 3) = Some 3 /\ 3 < length «"x * (- 5)"».
Proof.
  split_and!; [reflexivity|reflexivity|].
  apply (error_position_bound init_checker _ (UnrecognizedToken «"- 5"» 3)); reflexivity.
Defined.

End Errors.
