(* ===== verification/Gui.v ===== *)
(** * The GUI of src/app.py: callbacks, catalogues and event loop

    The state the callbacks touch: the text of [entry] and the
    [text], [text_color] and [wraplength] options of [result_label].
    [check_expression] (lines 230-247) reads the entry, runs a fresh
    [MathSyntaxChecker] and writes the verdict into the label;
    [insert_example] (lines 250-255) replaces the entry's text and
    checks it.  The two catalogues (lines 314-321 and 355-362) are
    lists of [Button.button] dictionaries; the loops of lines 323-330
    and 364-372 turn each into a [widget] with its [command] and grid
    cell ([Layout] models the frames and their grids).
    [gui_step] is the dispatch of [root.mainloop()]: editing the entry,
    "Check Syntax", a catalogue button.  Fonts, paddings, colours of
    frames and the pixel geometry are not modelled. *)

From S2P Require Import Prelude PyStr Classifier Tokenizer Brackets Grammar Validator CheckSyntax.

Module Gui.
Import Py Validator CheckSyntax.

Record label := mk_label {
  text : string;
  text_color : option string;  (** [None]: the theme's default colour *)
  wraplength : nat
}.

Record gui := mk_gui {
  entry : str;
  result_label : label
}.

(** Lines 278 and 378-384: an empty entry and the label's first text. *)
Definition initial_gui : gui := {|
  entry := [];
  result_label := {|
    text := "Enter an expression and click 'Check Syntax' or select an example";
    text_color := None;
    wraplength := 600 |} |}.

(** Lines 230-246. *)
Definition check_expression (g : gui) : gui :=
  let expression := entry g in
  let checker := init_checker in
  let '(valid, message) := snd (check_syntax checker expression) in
  let '(status_text, color) :=
    if valid then ("✅ Valid: " +:+ message, "green")
    else ("❌ Invalid: " +:+ message, "red") in
  {| entry := entry g;
     result_label := {| text := status_text; text_color := Some color;
                        wraplength := 450 |} |}.

(** The indices of a Tk [Entry]: a character offset or [tk.END].
    Tk clamps an offset past the end to the end. *)
Inductive index := Idx (n : nat) | END.

Definition entry_index (s : str) (i : index) : nat :=
  match i with Idx n => Nat.min n (length s) | END => length s end.

(** [entry.delete(first, last)]: removes the characters from [first]
    up to, not including, [last]; nothing when [last] is not after
    [first]. *)
Definition entry_delete (first last : index) (s : str) : str :=
  let i := entry_index s first in
  let j := entry_index s last in
  if bool_decide (i < j) then take i s ++ drop j s else s.

(** [entry.insert(index, string)]. *)
Definition entry_insert (i : index) (x : str) (s : str) : str :=
  let k := entry_index s i in take k s ++ x ++ drop k s.

(** Lines 250-255: [entry.delete(0, tk.END)], [entry.insert(0, example)],
    then [check_expression()]. *)
Definition insert_example (example : str) (g : gui) : gui :=
  let text := entry_insert (Idx 0) example (entry_delete (Idx 0) END (entry g)) in
  check_expression {| entry := text; result_label := result_label g |}.

(** The callbacks a button holds: [check_expression] itself (line 285)
    or the closure [lambda ex=btn["example"]: insert_example(ex)] with
    the example its default argument captured (lines 327 and 368). *)
Inductive callback := CheckExpression | InsertExample (ex : str).

(** The dictionaries of the two catalogues: [{"text": ..., "example":
    ..., "row": ..., "column": ...}]. *)
Module Button.
Record button := mk_button { text : str; example : str; row : nat; column : nat }.
End Button.

Notation "'{' 'text' : t , 'example' : e , 'row' : r , 'column' : c '}'" :=
  (Button.mk_button t e r c) (at level 0, t, e, r, c at level 200, only parsing) : msc_scope.

(** Lines 314-321. *)
Definition example_buttons : list Button.button :=
  [{text: «"2 + 3 * 4"», example: «"2 + 3 * 4"», row: 0, column: 0};
   {text: «"sin(x) + cos(y)"», example: «"sin(x) + cos(y)"», row: 0, column: 1};
   {text: «"(a + b) * (c - d)"», example: «"(a + b) * (c - d)"», row: 0, column: 2};
   {text: «"sqrt(x^2 + y^2)"», example: «"sqrt(x^2 + y^2)"», row: 1, column: 0};
   {text: «"2x + 3(y - z)"», example: «"2x + 3(y - z)"», row: 1, column: 1};
   {text: «"log(10) + exp(-x^2) / (1 + x^2)"»,
    example: «"log(10) + exp(-x^2) / (1 + x^2)"», row: 1, column: 2}].

(** Lines 355-362. *)
Definition invalid_buttons : list Button.button :=
  [{text: «"2 +"», example: «"2 +"», row: 0, column: 0};
   {text: «"* 2 + 3"», example: «"* 2 + 3"», row: 0, column: 1};
   {text: «"2..5"», example: «"2..5"», row: 0, column: 2};
   {text: «"(2 + 3"», example: «"(2 + 3"», row: 1, column: 0};
   {text: «"sin 2"», example: «"sin 2"», row: 1, column: 1};
   {text: «"sqrt(x^2 + y^2"», example: «"sqrt(x^2 + y^2"», row: 1, column: 2}].

(** A [CTkButton]: its text, its [command] and the cell [.grid(row=...,
    column=...)] puts it in. *)
Record widget := mk_widget {
  widget_text : str;
  command : gui -> gui;
  grid_row : nat;
  grid_column : nat
}.

(** The body of the loops of lines 323-330 and 364-372; the default
    argument [ex=btn["example"]] binds each button's own example. *)
Definition make_button (btn : Button.button) : widget := {|
  widget_text := Button.text btn;
  command := insert_example (Button.example btn);
  grid_row := Button.row btn;
  grid_column := Button.column btn |}.

(** The widgets the two loops create. *)
Definition catalogue_widgets : list widget :=
  map make_button (example_buttons ++ invalid_buttons).

(** ** The event loop

    [root.mainloop()] (line 388) dispatches the user's events: editing
    the entry (Tk's [Entry] bindings insert typed or pasted text at the
    cursor and delete a selection or a character), the "Check Syntax" button ([command=check_expression],
    line 285) and the catalogue buttons. *)
Inductive gui_step : gui -> gui -> Prop :=
  | step_insert g i x :
      gui_step g {| entry := entry_insert i x (entry g); result_label := result_label g |}
  | step_delete g i j :
      gui_step g {| entry := entry_delete i j (entry g); result_label := result_label g |}
  | step_check g : gui_step g (check_expression g)
  | step_button g w : w ∈ catalogue_widgets -> gui_step g (command w g).

Inductive gui_reach : gui -> Prop :=
  | gui_reach_init : gui_reach initial_gui
  | gui_reach_step g g' : gui_reach g -> gui_step g g' -> gui_reach g'.

(** The label [check_expression] writes for the expression [s]. *)
Definition verdict_label (s : str) : label :=
  result_label (check_expression {| entry := s; result_label := result_label initial_gui |}).

(** [entry.delete(0, tk.END)] empties the entry. *)
Lemma entry_clear s : entry_delete (Idx 0) END s = [].
Proof.
  unfold entry_delete, entry_index. simpl.
  case_bool_decide; [by rewrite drop_all|by destruct s; simpl in *; [|lia]].
Qed.

(** [insert_example] replaces the entry's text, whatever it held. *)
Lemma insert_example_eq ex g :
  insert_example ex g = check_expression {| entry := ex; result_label := result_label g |}.
Proof. unfold insert_example. rewrite entry_clear. unfold entry_insert. simpl. by rewrite app_nil_r. Qed.

Lemma check_expression_entry g : entry (check_expression g) = entry g.
Proof. unfold check_expression. cbn zeta. by destruct (snd _) as [[] ?]. Qed.

Lemma check_expression_label g : result_label (check_expression g) = verdict_label (entry g).
Proof.
  unfold verdict_label, check_expression. cbn zeta.
  simpl. by destruct (snd (check_syntax init_checker (entry g))) as [[] m].
Qed.

(** ** Properties *)

(** C14: pressing "Check Syntax" a second time changes nothing: the
    label depends only on the entry, since each press checks with a
    fresh [MathSyntaxChecker]. *)
Theorem check_expression_idempotent g :
  check_expression (check_expression g) = check_expression g.
Proof.
  unfold check_expression at 2. cbn zeta.
  destruct (snd (check_syntax init_checker (entry g))) as [[] message]; reflexivity.
Qed.

(** C25: each catalogue button shows the expression it inserts: its
    [command] puts its own text in the entry (the default argument
    [ex=btn["example"]] is bound per button) and shows the verdict on
    that text. *)
Theorem buttons_insert_own_text g :
  Forall (fun w => entry (command w g) = widget_text w /\
                   result_label (command w g) = verdict_label (widget_text w))
    catalogue_widgets.
Proof.
  cbn [catalogue_widgets example_buttons invalid_buttons app map make_button
       command widget_text Button.example Button.text].
  repeat (apply Forall_cons; split;
    [unfold make_button; simpl; by rewrite insert_example_eq, check_expression_label,
       check_expression_entry|]).
  constructor.
Qed.

Lemma catalogue_command g w :
  w ∈ catalogue_widgets -> exists s, command w g = check_expression {| entry := s;
                                       result_label := result_label g |}.
Proof.
  unfold catalogue_widgets. intros (b & -> & _)%list_elem_of_fmap. by eexists.
Qed.

(** C26: in every state the event loop reaches, the result label shows
    either its first prompt or the verdict of some expression, with the
    colour and wrap length [check_expression] sets for it: no sequence
    of edits and clicks leaves it in another state. *)
Theorem gui_label_invariant g :
  gui_reach g ->
  result_label g = result_label initial_gui \/ exists s, result_label g = verdict_label s.
Proof.
  induction 1 as [|g g' _ IH Hs]; [by left|].
  destruct Hs as [g i x|g i j|g|g w Hw]; [done|done|right; eexists; apply check_expression_label|].
  destruct (catalogue_command g w Hw) as [s ->]. right. eexists.
  apply check_expression_label.
Qed.

Lemma gui_label_invariant_witness :
  let g := check_expression {| entry := «"2 +"»; result_label := result_label initial_gui |} in
  gui_reach g /\
  (result_label g = result_label initial_gui \/ exists s, result_label g = verdict_label s).
Proof.
  intros g. assert (Hr : gui_reach g).
  { apply (gui_reach_step {| entry := «"2 +"»; result_label := result_label initial_gui |});
      [|constructor].
    apply (gui_reach_step initial_gui);
      [constructor|exact (step_insert initial_gui (Idx 0) «"2 +"»)]. }
  split; [exact Hr|]. by apply gui_label_invariant.
Defined.

End Gui.
