(* ===== verification/Display.v ===== *)
(** * What the label shows, against the specification

    spec.md (section 1) treats the presentation layer as a collaborator
    that hands the core the text of the entry and displays the boolean
    verdict with its message.  This file states what "Check Syntax"
    ([check_expression], src/app.py lines 230-247) must display in
    terms of the specification (the grammar [accepts] of [Grammar], not
    the checker's code) and proves that it does. *)

From S2P Require Import Prelude PyStr Classifier Tokenizer Brackets Grammar Validator CheckSyntax Gui.

Module Display.
Import Py Classifier Tokenizer Brackets Grammar Validator CheckSyntax Gui.

(** The expressions the specification accepts: they tokenize, and
    their tokens are in the grammar's language. *)
Definition spec_valid (s : str) : Prop := exists ts, tokenize s = inl ts /\ accepts ts.

(** The label of a valid verdict, and of an invalid one with its
    message. *)
Definition valid_label : label :=
  {| text := "✅ Valid: Expression syntax is valid"; text_color := Some "green";
     wraplength := 450 |}.

Definition invalid_label (msg : string) : label :=
  {| text := "❌ Invalid: " +:+ msg; text_color := Some "red"; wraplength := 450 |}.

(** C24: "Check Syntax" displays the specification's verdict on the
    text the entry holds, and leaves that text as it is: the label is
    green "✅ Valid: Expression syntax is valid" exactly when the text
    is in the grammar's language, and otherwise red "❌ Invalid: "
    followed by the message of the error the checker reports. *)
Theorem check_expression_spec g :
  entry (check_expression g) = entry g /\
  ((spec_valid (entry g) /\ result_label (check_expression g) = valid_label) \/
   (~ spec_valid (entry g) /\
    exists e, snd (check_syntax_result init_checker (entry g)) = Some e /\
              result_label (check_expression g) = invalid_label (error_message e))).
Proof.
  split; [apply check_expression_entry|].
  unfold spec_valid. rewrite <- (check_syntax_result_none init_checker).
  unfold check_expression. cbn zeta. rewrite check_syntax_snd.
  destruct (snd (check_syntax_result init_checker (entry g))) as [e|]; simpl.
  - right. split; [done|]. by exists e.
  - by left.
Qed.

End Display.
