(* ===== verification/Layout.v ===== *)
(** * The window src/app.py builds: the construction script, lines 258-388

    The module-level statements of lines 258-385 build a tree of
    CustomTkinter widgets and hand each to a geometry manager.  The
    model is the Tk widget store the script mutates: widgets numbered
    in creation order, each with its class, its master, its options
    (the keyword arguments of the constructor) and its geometry
    manager ([pack] or [grid] with their keyword arguments); the
    window's title, geometry and resizability; the CustomTkinter
    appearance settings.  The script runs in a state-and-error monad,
    since Tk raises a [TclError] when [pack] and [grid] are used for
    slaves of the same master.  The buttons hold their callbacks as
    data ([Gui.callback]).  The invariant [wf] of the store is
    preserved by every Tk call, and the script, run from Tk's initial
    state, is refused by none. *)

From S2P Require Import Prelude PyStr Classifier Tokenizer Brackets Grammar Validator CheckSyntax Gui.

Module Layout.
Import Gui.

(** ** Options *)

Inductive fill := FillNone | FillX | FillY | FillBoth.
Inductive side := SideTop | SideBottom | SideLeft | SideRight.
Inductive anchor :=
  | AnchorN | AnchorNE | AnchorE | AnchorSE | AnchorS | AnchorSW | AnchorW | AnchorNW
  | AnchorCenter.

(** A padding is one number or a pair [(before, after)]. *)
Inductive pad := Pad (n : nat) | Pad2 (before after : nat).

Definition pad_pair (p : pad) : nat * nat :=
  match p with Pad n => (n, n) | Pad2 a b => (a, b) end.

(** The keyword arguments of [pack(...)] the script uses. *)
Inductive pack_arg :=
  | PSide (s : side) | PFill (f : fill) | PExpand (b : bool) | PAnchor (a : anchor)
  | PPadx (p : pad) | PPady (p : pad) | PIpady (n : nat).

Record pack_info := mk_pack_info {
  pk_side : side; pk_fill : fill; pk_expand : bool; pk_anchor : anchor;
  pk_padx : nat * nat; pk_pady : nat * nat; pk_ipady : nat }.

(** Tk's defaults: [side=top], no fill, no expansion, centred, no
    padding. *)
Definition pack_default : pack_info := {|
  pk_side := SideTop; pk_fill := FillNone; pk_expand := false; pk_anchor := AnchorCenter;
  pk_padx := (0, 0); pk_pady := (0, 0); pk_ipady := 0 |}.

Definition pack_set (i : pack_info) (a : pack_arg) : pack_info :=
  let 'mk_pack_info sd f e an px py ipy := i in
  match a with
  | PSide sd' => mk_pack_info sd' f e an px py ipy
  | PFill f' => mk_pack_info sd f' e an px py ipy
  | PExpand e' => mk_pack_info sd f e' an px py ipy
  | PAnchor an' => mk_pack_info sd f e an' px py ipy
  | PPadx p => mk_pack_info sd f e an (pad_pair p) py ipy
  | PPady p => mk_pack_info sd f e an px (pad_pair p) ipy
  | PIpady n => mk_pack_info sd f e an px py n
  end.

Definition pack_options (args : list pack_arg) : pack_info := foldl pack_set pack_default args.

(** [grid(row=..., column=..., padx=..., pady=..., sticky=...)]: the
    script always gives the row and the column. *)
Record grid_info := mk_grid_info {
  gr_row : nat; gr_column : nat; gr_padx : nat * nat; gr_pady : nat * nat; gr_sticky : string }.

Inductive grid_arg := GPadx (p : pad) | GPady (p : pad) | GSticky (s : string).

Definition grid_set (i : grid_info) (a : grid_arg) : grid_info :=
  match a with
  | GPadx p => mk_grid_info (gr_row i) (gr_column i) (pad_pair p) (gr_pady i) (gr_sticky i)
  | GPady p => mk_grid_info (gr_row i) (gr_column i) (gr_padx i) (pad_pair p) (gr_sticky i)
  | GSticky s => mk_grid_info (gr_row i) (gr_column i) (gr_padx i) (gr_pady i) s
  end.

(** Tk's defaults: no padding, centred in the cell ([sticky=""]). *)
Definition grid_options (row column : nat) (args : list grid_arg) : grid_info :=
  foldl grid_set (mk_grid_info row column (0, 0) (0, 0) "") args.

Inductive geometry := Packed (i : pack_info) | Gridded (i : grid_info).

Definition is_packed (g : geometry) : bool := if g is Packed _ then true else false.
Definition is_gridded (g : geometry) : bool := if g is Gridded _ then true else false.

(** The options of the widget constructors. *)
Inductive color := Color (c : string) | LightDark (light dark : string).
Record font := mk_font { family : string; size : nat; weight : option string }.

Inductive widget_arg :=
  | WText (t : str) | WFont (f : font) | WWidth (n : nat) | WHeight (n : nat)
  | WPlaceholder (t : str) | WFgColor (c : color) | WTextColor (c : string)
  | WWraplength (n : nat) | WCursor (c : string) | WCommand (c : callback).

Inductive widget_class := CTk | CTkFrame | CTkLabel | CTkEntry | CTkButton.

#[export] Instance widget_class_eq_dec : EqDecision widget_class.
Proof. solve_decision. Defined.

Record node := mk_node {
  wclass : widget_class;
  master : option nat;
  options : list widget_arg;
  manager : option geometry;
  row_weights : list (nat * nat);
  column_weights : list (nat * nat)
}.

(** The Tk state: the widgets by creation number, the order in which
    [pack] saw its slaves (Tk's packing list), the window settings. *)
Record tk := mk_tk {
  widgets : list node;
  packing_list : list nat;
  appearance_mode : option string;
  color_theme : option string;
  win_title : option string;
  win_geometry : option string;
  win_resizable : bool * bool
}.


(** The errors Tk raises on these calls. *)
Inductive tcl_error :=
  | BadWindowPath (w : nat)
  | CannotManageToplevel (w : nat)
  | GeometryConflict (master : nat) (used already : string).

(** ** The script monad: state and [TclError] *)

Definition script (A : Type) : Type := tk -> tcl_error + (A * tk).

#[export] Instance script_ret : MRet script := fun A x st => inr (x, st).
#[export] Instance script_bind : MBind script := fun A B f m st =>
  match m st with inr (a, st') => f a st' | inl e => inl e end.

Definition throw {A} (e : tcl_error) : script A := fun _ => inl e.
Definition modify (f : tk -> tk) : script unit := fun st => inr ((), f st).

(** [for x in l: body]. *)
Fixpoint for_ {A} (l : list A) (body : A -> script unit) : script unit :=
  match l with
  | [] => mret ()
  | x :: l' => body x;; for_ l' body
  end.

(** ** The Tk calls *)

Definition set_widgets (ws : list node) (pl : list nat) (st : tk) : tk :=
  mk_tk ws pl (appearance_mode st) (color_theme st) (win_title st) (win_geometry st)
    (win_resizable st).

Definition set_manager (g : geometry) (n : node) : node :=
  mk_node (wclass n) (master n) (options n) (Some g) (row_weights n) (column_weights n).

(** [grid_rowconfigure(i, weight=...)] replaces the setting of row [i]. *)
Definition set_weight (i weight : nat) (l : list (nat * nat)) : list (nat * nat) :=
  (i, weight) :: filter (fun p => p.1 <> i) l.

Definition lookup_widget (w : nat) : script node := fun st =>
  match widgets st !! w with Some n => inr (n, st) | None => inl (BadWindowPath w) end.

Definition update_widget (w : nat) (f : node -> node) : script unit :=
  modify (fun st => set_widgets (alter f w (widgets st)) (packing_list st) st).

(** [ctk.CTkX(master, text=..., ...)]: a new widget, numbered in creation
    order, unmanaged until [pack] or [grid]; its master must exist. *)
Definition create (c : widget_class) (m : option nat) (opts : list widget_arg) : script nat :=
  fun st =>
    let w := length (widgets st) in
    let st' := set_widgets (widgets st ++ [mk_node c m opts None [] []]) (packing_list st) st in
    match m with
    | Some p => if bool_decide (p < w) then inr (w, st') else inl (BadWindowPath p)
    | None => inr (w, st')
    end.

(** Whether a slave of [m] is already managed by the manager [is_mgr]
    recognises. *)
Definition managed (is_mgr : geometry -> bool) (n : node) : bool :=
  match manager n with Some g => is_mgr g | None => false end.

Definition manages_slaves (is_mgr : geometry -> bool) (m : nat) (st : tk) : bool :=
  existsb (fun n => bool_decide (master n = Some m) && managed is_mgr n) (widgets st).

(** Tk's check before a manager takes a slave of [m]: the error
    "cannot use geometry manager [used] inside ... which already has
    slaves managed by [already]". *)
Definition no_conflict (is_mgr : geometry -> bool) (m : nat) (used already : string) :
  script unit := fun st =>
  if manages_slaves is_mgr m st then inl (GeometryConflict m used already) else inr ((), st).

(** [w.pack(side=..., fill=..., ...)]: Tk refuses a top-level window and a master whose
    slaves [grid] already manages; a slave packed for the first time
    goes to the end of the packing list. *)
Definition pack (w : nat) (args : list pack_arg) : script unit :=
  n ← lookup_widget w;
  match master n with
  | None => throw (CannotManageToplevel w)
  | Some m =>
      no_conflict is_gridded m "pack" "grid";;
      modify (fun st =>
             set_widgets (alter (set_manager (Packed (pack_options args))) w (widgets st))
               (if bool_decide (w ∈ packing_list st) then packing_list st
                else packing_list st ++ [w]) st)
  end.

(** [w.grid(row=r, column=c, padx=..., ...)], with the symmetric check. *)
Definition grid (w : nat) (row column : nat) (args : list grid_arg) : script unit :=
  n ← lookup_widget w;
  match master n with
  | None => throw (CannotManageToplevel w)
  | Some m =>
      no_conflict is_packed m "grid" "pack";;
      update_widget w (set_manager (Gridded (grid_options row column args)))
  end.

Definition grid_rowconfigure (w i weight : nat) : script unit :=
  _ ← lookup_widget w;
  update_widget w (fun n => mk_node (wclass n) (master n) (options n) (manager n)
                              (set_weight i weight (row_weights n)) (column_weights n)).

Definition grid_columnconfigure (w i weight : nat) : script unit :=
  _ ← lookup_widget w;
  update_widget w (fun n => mk_node (wclass n) (master n) (options n) (manager n)
                              (row_weights n) (set_weight i weight (column_weights n))).






(** ** The script *)






(** ** The well-formedness of the widget store *)

(** Masters are created before their slaves; no master has slaves
    managed by both [pack] and [grid]; the packing list holds packed
    widgets, each once. *)
Record wf (st : tk) : Prop := {
  wf_masters : forall i n m, widgets st !! i = Some n -> master n = Some m -> m < i;
  wf_managers : forall i j ni nj, widgets st !! i = Some ni -> widgets st !! j = Some nj ->
    master ni = master nj -> managed is_packed ni = true -> managed is_gridded nj = false;
  wf_packing : forall w, w ∈ packing_list st ->
    exists n, widgets st !! w = Some n /\ managed is_packed n = true;
  wf_packing_nodup : NoDup (packing_list st)
}.

(** An invariant of a piece of script: every run from a state that
    satisfies it ends in a state that satisfies it. *)
Definition preserves {A} (P : tk -> Prop) (m : script A) : Prop :=
  forall st a st', P st -> m st = inr (a, st') -> P st'.

Section Preserves.
Context (P : tk -> Prop).

Lemma preserves_ret {A} (x : A) : preserves P (mret x).
Proof. intros st a st' HP [= _ <-]. done. Qed.

Lemma preserves_bind {A B} (m : script A) (f : A -> script B) :
  preserves P m -> (forall a, preserves P (f a)) -> preserves P (m ≫= f).
Proof.
  intros Hm Hf st b st' HP. unfold mbind, script_bind.
  destruct (m st) as [|[a st1]] eqn:E; [done|]. apply Hf, (Hm st a); done.
Qed.

Lemma preserves_throw {A} e : preserves P (throw (A:=A) e).
Proof. by intros ?????. Qed.

Lemma preserves_modify f : (forall st, P st -> P (f st)) -> preserves P (modify f).
Proof. intros Hf st a st' HP [= _ <-]. by apply Hf. Qed.

Lemma preserves_for_ {A} (l : list A) body :
  (forall x, preserves P (body x)) -> preserves P (for_ l body).
Proof.
  intros Hb. induction l as [|x l IH]; simpl;
    [apply preserves_ret|apply preserves_bind; [apply Hb|done]].
Qed.

Lemma preserves_lookup_widget w : preserves P (lookup_widget w).
Proof. intros st a st' HP. unfold lookup_widget. by destruct (_ !! w); intros [=<-<-]. Qed.

Lemma preserves_no_conflict g m u a : preserves P (no_conflict g m u a).
Proof. intros st ?? HP. unfold no_conflict. by destruct (manages_slaves _ _ _); intros [= _ <-]. Qed.

End Preserves.

Create HintDb layout.
#[export] Hint Resolve preserves_ret preserves_bind preserves_throw preserves_for_
  preserves_lookup_widget preserves_no_conflict : layout.

(** A slave of [m] when [manages_slaves] answers [false]. *)
Lemma manages_slaves_false g m st j nj :
  manages_slaves g m st = false -> widgets st !! j = Some nj -> master nj = Some m ->
  managed g nj = false.
Proof.
  unfold manages_slaves. intros H Hj Hm. apply not_true_iff_false. intros Hg.
  apply not_true_iff_false in H. apply H, existsb_exists. exists nj.
  split; [by eapply list_elem_of_In, list_elem_of_lookup_2|].
  by rewrite bool_decide_true.
Qed.

Lemma alter_lookup_Some (f : node -> node) w (ws : list node) i n' :
  alter f w ws !! i = Some n' ->
  exists n, ws !! i = Some n /\ n' = if decide (i = w) then f n else n.
Proof.
  rewrite list_lookup_alter. repeat case_decide; subst; try done;
    destruct (ws !! i); intros; simplify_eq/=; eauto.
Qed.

Lemma managed_set g g' n : managed g (set_manager g' n) = g g'.
Proof. done. Qed.

Lemma wf_same st st' :
  widgets st' = widgets st -> packing_list st' = packing_list st -> wf st -> wf st'.
Proof. intros E1 E2 []. split; rewrite ?E1, ?E2; done. Qed.

Lemma wf_create st c m opts :
  wf st -> (forall p, m = Some p -> p < length (widgets st)) ->
  wf (set_widgets (widgets st ++ [mk_node c m opts None [] []]) (packing_list st) st).
Proof.
  intros [Hm Hg Hp Hd] Hlt. split; cbn [widgets packing_list set_widgets]; [| | |done].
  - intros i n q [Hi|[Hle Hi]]%lookup_app_Some Hq; [by eapply Hm|].
    apply list_lookup_singleton_Some in Hi as [_ <-]. specialize (Hlt q Hq). lia.
  - intros i j ni nj [Hi|[_ Hi]]%lookup_app_Some [Hj|[_ Hj]]%lookup_app_Some;
      try apply list_lookup_singleton_Some in Hi as [_ <-];
      try apply list_lookup_singleton_Some in Hj as [_ <-]; try done; eauto.
  - intros w Hw. destruct (Hp w Hw) as (n & Hn & Hpk). exists n. split; [|done].
    by apply lookup_app_l_Some.
Qed.

Lemma wf_keep st w f :
  wf st -> (forall n, master (f n) = master n /\ manager (f n) = manager n) ->
  wf (set_widgets (alter f w (widgets st)) (packing_list st) st).
Proof.
  intros [Hm Hg Hp Hd] Hf.
  assert (Hman : forall g n, managed g (f n) = managed g n) by (intros; unfold managed; by rewrite (proj2 (Hf n))).
  split; cbn [widgets packing_list set_widgets]; [| | |done].
  - intros i n q (n0 & Hi & ->)%alter_lookup_Some. case_decide; [rewrite (proj1 (Hf n0))|]; eauto.
  - intros i j ni nj (ni0 & Hi & ->)%alter_lookup_Some (nj0 & Hj & ->)%alter_lookup_Some.
    repeat case_decide; rewrite ?Hman, ?(proj1 (Hf _)); eauto.
  - intros v Hv. destruct (Hp v Hv) as (n & Hn & Hpk).
    rewrite list_lookup_alter. case_decide; subst; rewrite Hn; simpl; eexists;
      (split; [done|]); by rewrite ?Hman.
Qed.

(** Packing [w], a slave of [m] whose master has no gridded slave. *)
Lemma wf_pack st w n m pi :
  wf st -> widgets st !! w = Some n -> master n = Some m ->
  manages_slaves is_gridded m st = false ->
  wf (set_widgets (alter (set_manager (Packed pi)) w (widgets st))
        (if bool_decide (w ∈ packing_list st) then packing_list st
         else packing_list st ++ [w]) st).
Proof.
  intros [Hm Hg Hp Hd] Hw Hmw Hc. split; cbn [widgets packing_list set_widgets].
  - intros i n' q (n0 & Hi & ->)%alter_lookup_Some. case_decide; eauto.
  - intros i j ni nj (ni0 & Hi & ->)%alter_lookup_Some (nj0 & Hj & ->)%alter_lookup_Some.
    destruct (decide (j = w)); [done|]. destruct (decide (i = w)) as [->|]; [|eauto].
    simplify_eq. cbn [master set_manager]. rewrite Hmw. intros Hmj _. symmetry in Hmj.
    by eapply manages_slaves_false.
  - intros v Hv. rewrite list_lookup_alter.
    assert (v = w \/ exists n', widgets st !! v = Some n' /\ managed is_packed n' = true)
      as [->|(n' & Hn' & Hpk)].
    { case_bool_decide; [eauto|]. apply elem_of_app in Hv as [Hv|Hv%list_elem_of_singleton]; eauto. }
    + rewrite decide_True, Hw by done. by eexists.
    + destruct (decide (w = v)) as [<-|]; [rewrite Hw|rewrite Hn'];
        (eexists; split; [reflexivity|done]).
  - case_bool_decide as Hin; [done|]. apply NoDup_app. split_and!; [done| |apply NoDup_singleton].
    intros x Hx ->%list_elem_of_singleton. done.
Qed.

(** Gridding [w], a slave of [m] whose master has no packed slave. *)
Lemma wf_grid st w n m gi :
  wf st -> widgets st !! w = Some n -> master n = Some m ->
  manages_slaves is_packed m st = false ->
  wf (set_widgets (alter (set_manager (Gridded gi)) w (widgets st)) (packing_list st) st).
Proof.
  intros [Hm Hg Hp Hd] Hw Hmw Hc. split; cbn [widgets packing_list set_widgets]; [| | |done].
  - intros i n' q (n0 & Hi & ->)%alter_lookup_Some. case_decide; eauto.
  - intros i j ni nj (ni0 & Hi & ->)%alter_lookup_Some (nj0 & Hj & ->)%alter_lookup_Some.
    destruct (decide (i = w)); [done|]. destruct (decide (j = w)) as [->|]; [|eauto].
    simplify_eq. cbn [master set_manager]. rewrite Hmw. intros Hmi Hpk.
    by rewrite (manages_slaves_false _ _ _ _ _ Hc Hi Hmi) in Hpk.
  - intros v Hv. destruct (Hp v Hv) as (n' & Hn' & Hpk). rewrite list_lookup_alter, Hn'.
    case_decide; [subst|by exists n']. rewrite Hw in Hn'. injection Hn' as <-.
    by rewrite (manages_slaves_false _ _ _ _ _ Hc Hw Hmw) in Hpk.
Qed.

Lemma create_wf c m opts : preserves wf (create c m opts).
Proof.
  intros st a st' Hwf. unfold create. cbn zeta.
  destruct m as [p|]; [case_bool_decide|]; intros; simplify_eq; apply wf_create; naive_solver.
Qed.

Lemma pack_wf w args : preserves wf (pack w args).
Proof.
  intros st a st' Hwf. unfold pack, mbind, script_bind, lookup_widget.
  destruct (widgets st !! w) as [n|] eqn:Hn; [|done].
  destruct (master n) as [m|] eqn:Hm; [|done].
  unfold no_conflict. destruct (manages_slaves is_gridded m st) eqn:Hc; [done|].
  intros [= _ <-]. by eapply wf_pack.
Qed.

Lemma grid_wf w r c args : preserves wf (grid w r c args).
Proof.
  intros st a st' Hwf. unfold grid, mbind, script_bind, lookup_widget.
  destruct (widgets st !! w) as [n|] eqn:Hn; [|done].
  destruct (master n) as [m|] eqn:Hm; [|done].
  unfold no_conflict. destruct (manages_slaves is_packed m st) eqn:Hc; [done|].
  intros [= _ <-]. by eapply wf_grid.
Qed.

Lemma update_widget_wf w f :
  (forall n, master (f n) = master n /\ manager (f n) = manager n) ->
  preserves wf (update_widget w f).
Proof. intros Hf. apply preserves_modify. intros st Hwf. by apply wf_keep. Qed.

Lemma grid_rowconfigure_wf w i weight : preserves wf (grid_rowconfigure w i weight).
Proof. apply preserves_bind; [apply preserves_lookup_widget|intros _; by apply update_widget_wf]. Qed.

Lemma grid_columnconfigure_wf w i weight : preserves wf (grid_columnconfigure w i weight).
Proof. apply preserves_bind; [apply preserves_lookup_widget|intros _; by apply update_widget_wf]. Qed.

(** The calls that change only the window and module settings. *)
Lemma modify_settings_wf f :
  (forall st, widgets (f st) = widgets st /\ packing_list (f st) = packing_list st) ->
  preserves wf (modify f).
Proof. intros Hf. apply preserves_modify. intros st. by apply wf_same; apply Hf. Qed.

#[export] Hint Resolve create_wf pack_wf grid_wf grid_rowconfigure_wf
  grid_columnconfigure_wf modify_settings_wf : layout.
#[export] Hint Extern 1 (widgets _ = widgets _ /\ packing_list _ = packing_list _) =>
  intros; split; reflexivity : layout.





End Layout.
